(** * TractSeg: spatial augmentation with peak re-orientation

    A shallow embedding of [tractseg/data/DLDABG_standalone.py]:
    [zero_mean_unit_variance_normalization],
    [augment_linear_downsampling_scipy], [rotate_peaks],
    [rotate_peaks_all], [augment_spatial] and the adapter
    [SpatialTransform_Custom.__call__].

    Conventions of the embedding.
    - Floating-point numbers are idealised as real numbers ([R]); the
      dtype of an array is carried as a tag only.
    - A numpy array is a dtype, a shape and its elements in C
      (row-major) order.
    - Python exceptions are values of [exn]; a computation that may
      raise returns a [result].
    - The process-wide random generators and the standard output are
      an explicit [world] threaded through the effectful functions. *)

From Stdlib Require Import String.
From Stdlib Require Import List Arith ZArith Lia Bool.
From Stdlib Require Import Reals Lra.
Import ListNotations.

(** ** Exceptions and results *)

Inductive exn : Type :=
| ValueError (msg : string)
| IndexError
| TypeError
| AttributeError
| ZeroDivisionError.

Inductive result (A : Type) : Type :=
| Ok (a : A)
| Raise (e : exn).

Arguments Ok {A} a.
Arguments Raise {A} e.

Definition rbind {A B} (r : result A) (k : A -> result B) : result B :=
  match r with
  | Ok a => k a
  | Raise e => Raise e
  end.

Declare Scope result_scope.
Delimit Scope result_scope with result.
Notation "'let?' x ':=' e 'in' k" :=
  (rbind e (fun x => k))
    (at level 10, x name, e at level 100, k at level 200) : result_scope.

(** Python's [l[i]] on a list or tuple. *)
Definition py_nth {A} (l : list A) (i : nat) : result A :=
  match nth_error l i with
  | Some a => Ok a
  | None => Raise IndexError
  end.

(** ** Comparisons on the idealised floats *)

Definition Rltb (x y : R) : bool := if Rlt_dec x y then true else false.
Definition Rleb (x y : R) : bool := if Rle_dec x y then true else false.
Definition Reqb (x y : R) : bool := if Req_dec_T x y then true else false.

(** ** Arrays *)

Inductive dtype : Type := Float32 | Float64 | Int64.

Definition is_floating (d : dtype) : bool :=
  match d with
  | Float32 | Float64 => true
  | Int64 => false
  end.

Record ndarray : Type := mk_ndarray {
  dt : dtype;
  shape : list nat;
  flat : list R
}.

Definition prod (sh : list nat) : nat := fold_right Nat.mul 1 sh.

(** An array is well formed when it holds one element per index. *)
Definition wf (a : ndarray) : Prop := length (flat a) = prod (shape a).

Definition size (a : ndarray) : nat := prod (shape a).

(** All multi-indices of a shape, in C order. *)
Fixpoint all_indices (sh : list nat) : list (list nat) :=
  match sh with
  | [] => [[]]
  | n :: rest => flat_map (fun i => map (cons i) (all_indices rest)) (seq 0 n)
  end.

(** Offset of a multi-index in C order. *)
Fixpoint ravel (sh idx : list nat) : nat :=
  match sh, idx with
  | _ :: rest, i :: idx' => i * prod rest + ravel rest idx'
  | _, _ => 0
  end.

Fixpoint valid_index (sh idx : list nat) : bool :=
  match sh, idx with
  | [], [] => true
  | n :: rest, i :: idx' => (i <? n) && valid_index rest idx'
  | _, _ => false
  end.

(** Element read at an index inside the array. *)
Definition get (a : ndarray) (idx : list nat) : R :=
  nth (ravel (shape a) idx) (flat a) 0%R.

(** Array given by its shape and an element for every index. *)
Definition build (d : dtype) (sh : list nat) (f : list nat -> R) : ndarray :=
  {| dt := d; shape := sh; flat := map f (all_indices sh) |}.

(** [np.zeros(shape, dtype)]. *)
Definition zeros (d : dtype) (sh : list nat) : ndarray :=
  {| dt := d; shape := sh; flat := repeat 0%R (prod sh) |}.

(** *** Indexing along the leading axes *)

(** [a[i]]. *)
Definition getitem0 (a : ndarray) (i : nat) : result ndarray :=
  match shape a with
  | [] => Raise IndexError
  | n :: rest =>
      if i <? n
      then Ok {| dt := dt a; shape := rest;
                 flat := firstn (prod rest) (skipn (i * prod rest) (flat a)) |}
      else Raise IndexError
  end.

(** [a[i, j]]. *)
Definition getitem2 (a : ndarray) (i j : nat) : result ndarray :=
  (let? s := getitem0 a i in getitem0 s j)%result.

(** [a[lo:hi]], also written [a[lo:hi, ...]]: bounds are clamped. *)
Definition slice0 (a : ndarray) (lo hi : nat) : result ndarray :=
  match shape a with
  | [] => Raise IndexError
  | n :: rest =>
      let lo' := Nat.min lo n in
      let hi' := Nat.min hi n in
      Ok {| dt := dt a; shape := (hi' - lo') :: rest;
            flat := firstn ((hi' - lo') * prod rest)
                           (skipn (lo' * prod rest) (flat a)) |}
  end.

(** *** Broadcasting assignment

    [target[...] = v] broadcasts [v] to the shape of the target
    region.  When [v] has more axes than the region, numpy first
    removes leading axes of length one. *)

Fixpoint strip_ones (k : nat) (s : list nat) : list nat :=
  match k, s with
  | S k', 1 :: s' => strip_ones k' s'
  | _, _ => s
  end.

Fixpoint bcast_ok (vs ts : list nat) : bool :=
  match vs, ts with
  | [], [] => true
  | vd :: vs', td :: ts' => ((vd =? td) || (vd =? 1)) && bcast_ok vs' ts'
  | _, _ => false
  end.

Fixpoint bcast_index (vs idx : list nat) : list nat :=
  match vs, idx with
  | vd :: vs', i :: idx' => (if vd =? 1 then 0 else i) :: bcast_index vs' idx'
  | _, _ => []
  end.

(** The element of [v] that lands on each index of a region of shape
    [tshape], or [None] when the shapes cannot be broadcast. *)
Definition broadcast_get (v : ndarray) (tshape : list nat)
  : option (list nat -> R) :=
  let vs := strip_ones (length (shape v) - length tshape) (shape v) in
  if length tshape <? length vs then None
  else
    let padded := repeat 1 (length tshape - length vs) ++ vs in
    if bcast_ok padded tshape
    then Some (fun idx => nth (ravel padded (bcast_index padded idx)) (flat v) 0%R)
    else None.

Definition broadcast_error : exn :=
  ValueError "could not broadcast input array".

(** Overwrite the [prod tshape] elements starting at offset [off]. *)
Definition assign_segment (a : ndarray) (off : nat) (tshape : list nat)
           (v : ndarray) : result ndarray :=
  match broadcast_get v tshape with
  | Some f =>
      Ok {| dt := dt a; shape := shape a;
            flat := firstn off (flat a) ++ map f (all_indices tshape)
                      ++ skipn (off + prod tshape) (flat a) |}
  | None => Raise broadcast_error
  end.

(** [a[i] = v]. *)
Definition setitem0 (a : ndarray) (i : nat) (v : ndarray) : result ndarray :=
  match shape a with
  | [] => Raise IndexError
  | n :: rest =>
      if i <? n then assign_segment a (i * prod rest) rest v
      else Raise IndexError
  end.

(** [a[i, j] = v]. *)
Definition setitem2 (a : ndarray) (i j : nat) (v : ndarray) : result ndarray :=
  match shape a with
  | n :: c :: rest =>
      if (i <? n) && (j <? c)
      then assign_segment a ((i * c + j) * prod rest) rest v
      else Raise IndexError
  | _ => Raise IndexError
  end.

(** [a[lo:hi, ...] = v]. *)
Definition setslice0 (a : ndarray) (lo hi : nat) (v : ndarray) : result ndarray :=
  match shape a with
  | [] => Raise IndexError
  | n :: rest =>
      let lo' := Nat.min lo n in
      let hi' := Nat.min hi n in
      assign_segment a (lo' * prod rest) ((hi' - lo') :: rest) v
  end.

(** *** Corner regions: [a[:l0, :l1, ...]] *)

Fixpoint clamp_shape (lims sh : list nat) : list nat :=
  match lims, sh with
  | l :: lims', n :: sh' => Nat.min l n :: clamp_shape lims' sh'
  | _, _ => sh
  end.

(** [a[:l0, :l1, ...]]; more limits than axes is an [IndexError]. *)
Definition corner (a : ndarray) (lims : list nat) : result ndarray :=
  if length (shape a) <? length lims then Raise IndexError
  else Ok (build (dt a) (clamp_shape lims (shape a)) (get a)).

(** [a[:l0, :l1, ...] = v]. *)
Definition set_corner (a : ndarray) (lims : list nat) (v : ndarray)
  : result ndarray :=
  if length (shape a) <? length lims then Raise IndexError
  else
    let region := clamp_shape lims (shape a) in
    match broadcast_get v region with
    | Some f =>
        Ok (build (dt a) (shape a)
                  (fun idx => if valid_index region idx then f idx else get a idx))
    | None => Raise broadcast_error
    end.

(** *** Element-wise arithmetic and reductions *)

Definition Rsum (l : list R) : R := fold_right Rplus 0%R l.

Definition map_array (f : R -> R) (a : ndarray) : ndarray :=
  {| dt := dt a; shape := shape a; flat := map f (flat a) |}.

(** [a.mean()]. *)
Definition mean (a : ndarray) : R :=
  (Rsum (flat a) / INR (length (flat a)))%R.

(** [a.std()]: the population standard deviation. *)
Definition std (a : ndarray) : R :=
  let m := mean a in
  sqrt (Rsum (map (fun x => (x - m) * (x - m))%R (flat a))
        / INR (length (flat a))).

(** *** Matrices *)

Definition promote (d1 d2 : dtype) : dtype :=
  match d1, d2 with
  | Float32, Float32 => Float32
  | Int64, Int64 => Int64
  | _, _ => Float64
  end.

(** [np.identity(n)]. *)
Definition identity (n : nat) : ndarray :=
  build Float64 [n; n]
        (fun idx => match idx with
                    | [i; j] => if i =? j then 1%R else 0%R
                    | _ => 0%R
                    end).

(** [a.transpose()]: the axes are reversed. *)
Definition transpose (a : ndarray) : ndarray :=
  build (dt a) (rev (shape a)) (fun idx => get a (rev idx)).

(** [np.dot(a, b)] for two matrices, the only use in this module. *)
Definition dot (a b : ndarray) : result ndarray :=
  match shape a, shape b with
  | [n; k], [k'; m] =>
      if k =? k'
      then Ok (build (promote (dt a) (dt b)) [n; m]
                 (fun idx =>
                    match idx with
                    | [i; j] =>
                        Rsum (map (fun l => (get a [i; l] * get b [l; j])%R)
                                  (seq 0 k))
                    | _ => 0%R
                    end))
      else Raise (ValueError "shapes not aligned")
  | _, _ => Raise (ValueError "dot: operands are not matrices")
  end.

Definition reshape_error : exn := ValueError "cannot reshape array".

(** [a.reshape(sh)]. *)
Definition reshape (a : ndarray) (sh : list nat) : result ndarray :=
  if prod sh =? length (flat a)
  then Ok {| dt := dt a; shape := sh; flat := flat a |}
  else Raise reshape_error.

(** [a.reshape(3, -1)]. *)
Definition reshape_3_rest (a : ndarray) : result ndarray :=
  if length (flat a) mod 3 =? 0
  then Ok {| dt := dt a; shape := [3; length (flat a) / 3]; flat := flat a |}
  else Raise reshape_error.

(** ** The random generators and the standard output

    [draws k] is the [k]-th raw variate of the generator, a float in
    the half-open unit interval; [pos] counts the variates consumed. *)

Record rng : Type := mk_rng {
  draws : nat -> R;
  pos : nat
}.

(** Computations that may read the generator and may raise. *)
Definition Rand (A : Type) : Type := rng -> result (A * rng).

(** One line printed by [rotate_peaks_all], e.g. [angle_x: 1]. *)
Inductive out_line : Type :=
| AngleLine (label : string) (value : R).

Record world : Type := mk_world {
  gen : rng;
  stdout : list out_line
}.

(** Computations that may also print. *)
Definition M (A : Type) : Type := world -> result (A * world).

Definition ret {A} (a : A) : M A := fun w => Ok (a, w).

Definition bind {A B} (m : M A) (k : A -> M B) : M B :=
  fun w =>
    match m w with
    | Ok (a, w') => k a w'
    | Raise e => Raise e
    end.

Definition lift {A} (r : result A) : M A :=
  fun w =>
    match r with
    | Ok a => Ok (a, w)
    | Raise e => Raise e
    end.

Definition lift_rand {A} (r : Rand A) : M A :=
  fun w =>
    match r (gen w) with
    | Ok (a, g) => Ok (a, {| gen := g; stdout := stdout w |})
    | Raise e => Raise e
    end.

Definition raise {A} (e : exn) : M A := fun _ => Raise e.

Definition print (l : out_line) : M unit :=
  fun w => Ok (tt, {| gen := gen w; stdout := stdout w ++ [l] |}).

Declare Scope M_scope.
Delimit Scope M_scope with M.
Notation "x <- m ;; k" := (bind m (fun x => k))
  (at level 61, m at next level, right associativity) : M_scope.
Notation "' pat <- m ;; k" := (bind m (fun x => match x with pat => k end))
  (at level 61, pat pattern, m at next level, right associativity) : M_scope.
Notation "m ;; k" := (bind m (fun _ => k))
  (at level 61, right associativity) : M_scope.

(** A [for] loop that threads the loop-carried variables. *)
Fixpoint for_each {A S} (l : list A) (body : A -> S -> M S) (s : S) : M S :=
  match l with
  | [] => ret s
  | x :: l' => (s' <- body x s ;; for_each l' body s')%M
  end.

(** The same for code that only raises. *)
Fixpoint rfor_each {A S} (l : list A) (body : A -> S -> result S) (s : S)
  : result S :=
  match l with
  | [] => Ok s
  | x :: l' => (let? s' := body x s in rfor_each l' body s')%result
  end.

(** [range(n)]. *)
Definition range (n : nat) : list nat := seq 0 n.

(** [np.random.uniform()], [np.random.random()], [random.random()]. *)
Definition random_sample : M R :=
  fun w =>
    let g := gen w in
    Ok (draws g (pos g),
        {| gen := {| draws := draws g; pos := S (pos g) |};
           stdout := stdout w |}).

(** The affine map behind [uniform(low, high)]. *)
Definition scale_draw (low high u : R) : R := (low + (high - low) * u)%R.

(** [np.random.uniform(low, high)], [random.uniform(low, high)]. *)
Definition uniform (low high : R) : M R :=
  (u <- random_sample ;; ret (scale_draw low high u))%M.

(** A generator is sound when every variate lies in [0, 1). *)
Definition unit_draws (g : rng) : Prop :=
  forall k, (0 <= draws g k < 1)%R.

(** ** Rounding *)

(** Nearest integer, ties to the even one ([round], [np.round]). *)
Definition round_half_even (x : R) : Z :=
  let f := (up x - 1)%Z in
  let r := (x - IZR f)%R in
  if Rltb r (1 / 2) then f
  else if Rltb (1 / 2) r then (f + 1)%Z
  else if Z.even f then f else (f + 1)%Z.

(** [round(x, 2)]. *)
Definition round2 (x : R) : R := (IZR (round_half_even (x * 100)) / 100)%R.

(** ** The Peak-Rotation Corrector *)

(** The rotation-matrix builders that the module imports from
    [batchgenerators.augmentations.utils]; they are not part of this
    repository, so the corrector is parametric in them. *)
Class RotationBuilders : Type := {
  create_matrix_rotation_x_3d : R -> ndarray -> result ndarray;
  create_matrix_rotation_y_3d : R -> ndarray -> result ndarray;
  create_matrix_rotation_z_3d : R -> ndarray -> result ndarray
}.

Definition matrix3 (r0 r1 r2 : R * R * R) : ndarray :=
  let '(a, b, c) := r0 in
  let '(d, e, f) := r1 in
  let '(g, h, i) := r2 in
  {| dt := Float64; shape := [3; 3]; flat := [a; b; c; d; e; f; g; h; i] |}.

Definition rotation_x (angle : R) : ndarray :=
  matrix3 (1, 0, 0)%R
          (0, cos angle, - sin angle)%R
          (0, sin angle, cos angle)%R.

Definition rotation_y (angle : R) : ndarray :=
  matrix3 (cos angle, 0, sin angle)%R
          (0, 1, 0)%R
          (- sin angle, 0, cos angle)%R.

Definition rotation_z (angle : R) : ndarray :=
  matrix3 (cos angle, - sin angle, 0)%R
          (sin angle, cos angle, 0)%R
          (0, 0, 1)%R.

(** The builders as batchgenerators defines them: the axis rotation
    is multiplied onto the given matrix from the right,
    [np.dot(matrix, rotation_x)]. *)
#[export] Instance batchgenerators_builders : RotationBuilders := {
  create_matrix_rotation_x_3d angle matrix := dot matrix (rotation_x angle);
  create_matrix_rotation_y_3d angle matrix := dot matrix (rotation_y angle);
  create_matrix_rotation_z_3d angle matrix := dot matrix (rotation_z angle)
}.

Section Corrector.

Context {builders : RotationBuilders}.

Definition rotate_peaks (peaks : ndarray) (angle_x angle_y angle_z : R)
  : result ndarray :=
  (let rot_matrix := identity 3 in
   let? rot_matrix := create_matrix_rotation_x_3d angle_x rot_matrix in
   let? rot_matrix := create_matrix_rotation_y_3d angle_y rot_matrix in
   let? rot_matrix := create_matrix_rotation_z_3d angle_z rot_matrix in
   let? columns := reshape_3_rest peaks in
   let? rotated := dot (transpose columns) rot_matrix in
   reshape (transpose rotated) (shape peaks))%result.

(** One iteration of the loop of [rotate_peaks_all]:
    [peaks_rot[i*3:(i+1)*3, ...] = rotate_peaks(data[i*3:(i+1)*3, ...], ...)]. *)
Definition groups_body (data : ndarray) (angle_x angle_y angle_z : R)
           (i : nat) (peaks_rot : ndarray) : result ndarray :=
  (let? group := slice0 data (i * 3) ((i + 1) * 3) in
   let? rotated := rotate_peaks group angle_x angle_y angle_z in
   setslice0 peaks_rot (i * 3) ((i + 1) * 3) rotated)%result.

(** The loop of [rotate_peaks_all]: three groups of three channels. *)
Definition rotate_peaks_groups (data : ndarray) (angle_x angle_y angle_z : R)
  : result ndarray :=
  rfor_each (range 3) (groups_body data angle_x angle_y angle_z)
            (zeros Float64 (shape data)).

Definition rotate_peaks_all (data : ndarray) (angle_x angle_y angle_z : R)
  : M ndarray :=
  (print (AngleLine "angle_x" angle_x) ;;
   print (AngleLine "angle_y" angle_y) ;;
   print (AngleLine "angle_z" angle_z) ;;
   lift (rotate_peaks_groups data angle_x angle_y angle_z))%M.

End Corrector.

(** ** Normalisation *)

(** [(a - mean) / std] with [std = a.std() + epsilon].  A zero divisor
    makes numpy produce [inf] or [nan]; the reals have no such values,
    so the embedding reports it as a fault. *)
Definition normalize (a : ndarray) (epsilon : R) : result ndarray :=
  let mean := mean a in
  let std := (std a + epsilon)%R in
  if Reqb std 0 then Raise ZeroDivisionError
  else Ok (map_array (fun x => ((x - mean) / std)%R) a).

Definition zero_mean_unit_variance_normalization
           (data : ndarray) (per_channel : bool) (epsilon : R)
  : result ndarray :=
  (let? n := py_nth (shape data) 0 in
   rfor_each (range n)
     (fun b data =>
        if per_channel then
          let? channels := py_nth (shape data) 1 in
          rfor_each (range channels)
            (fun c data =>
               let? sub := getitem2 data b c in
               let? normalized := normalize sub epsilon in
               setitem2 data b c normalized)
            data
        else
          let? sub := getitem0 data b in
          let? normalized := normalize sub epsilon in
          setitem0 data b normalized)
     data)%result.

(** ** Linear down- and up-sampling *)

(** [scipy.ndimage.zoom(input, zoom, order=order)], an external
    library function. *)
Class Scipy : Type := {
  zoom : ndarray -> R -> nat -> result ndarray
}.

Definition zoom_range_error : exn :=
  ValueError "First value of zoom_range must be smaller than second value.".

Definition dimension_error : exn := ValueError "Invalid dimension size".

(** [(a.shape[0], ..., a.shape[d-1])]. *)
Definition first_dims (a : ndarray) (d : nat) : result (list nat) :=
  if length (shape a) <? d then Raise IndexError
  else Ok (firstn d (shape a)).

(** Cut [img_up] where it is longer than [img], pad it with zeros
    where it is shorter ([d] is 2 or 3). *)
Definition restore_shape (d : nat) (img img_up : ndarray) : result ndarray :=
  (let? lims := first_dims img d in
   let? img_up := corner img_up lims in
   let img_padded := zeros Float64 lims in
   let? lims_up := first_dims img_up d in
   set_corner img_padded lims_up img_up)%result.

Section Downsampling.

Context {scipy : Scipy}.

Definition downsample_channel (dim : nat) (zoom_factor : R)
           (sample_idx channel_idx : nat) (data : ndarray) : result ndarray :=
  (let? img := getitem2 data sample_idx channel_idx in
   let? img_down := zoom img zoom_factor 1 in
   let? zoom_reverse :=
      (if Reqb zoom_factor 0 then Raise ZeroDivisionError
       else Ok (round2 (1 / zoom_factor))) in
   let? img_up := zoom img_down zoom_reverse 0 in
   if dim =? 3 then
     let? img_padded := restore_shape 3 img img_up in
     setitem2 data sample_idx channel_idx img_padded
   else if dim =? 2 then
     let? img_padded := restore_shape 2 img img_up in
     setitem2 data sample_idx channel_idx img_padded
   else Raise dimension_error)%result.

Definition downsample_sample (dim : nat) (zoom_range : R * R)
           (sample_idx : nat) (data : ndarray) : M ndarray :=
  (z <- uniform (fst zoom_range) (snd zoom_range) ;;
   let zoom_factor := round2 z in
   channels <- lift (py_nth (shape data) 1) ;;
   for_each (range channels)
     (fun channel_idx data =>
        lift (downsample_channel dim zoom_factor sample_idx channel_idx data))
     data)%M.

Definition augment_linear_downsampling_scipy
           (data : ndarray) (zoom_range : R * R) : M ndarray :=
  let zoom_range := (fst zoom_range, (snd zoom_range + 1 / 1000000)%R) in
  if Rleb (snd zoom_range) (fst zoom_range)
  then raise zoom_range_error
  else
    let dim := length (skipn 2 (shape data)) in
    (n <- lift (py_nth (shape data) 0) ;;
     for_each (range n) (downsample_sample dim zoom_range) data)%M.

End Downsampling.

(** ** The Spatial Augmentation Engine *)

(** [patch_center_dist_from_border]: one int, or one per axis. *)
Inductive border_dist : Type :=
| DistScalar (d : Z)
| DistPerAxis (l : list Z).

Record spatial_params : Type := {
  patch_center_dist_from_border : border_dist;
  do_elastic_deform : bool;
  alpha : R * R;
  sigma : R * R;
  do_rotation : bool;
  angle_x : R * R;
  angle_y : R * R;
  angle_z : R * R;
  do_scale : bool;
  scale : R * R;
  border_mode_data : string;
  border_cval_data : R;
  order_data : nat;
  border_mode_seg : string;
  border_cval_seg : R;
  order_seg : nat;
  random_crop : bool;
  p_el_per_sample : R;
  p_scale_per_sample : R;
  p_rot_per_sample : R
}.

(** The geometry, resampling and crop primitives that the module
    imports from batchgenerators; they are not part of this
    repository, so the engine is parametric in them.  Elastic
    deformation and random crop read the random generator. *)
Class Primitives : Type := {
  create_zero_centered_coordinate_mesh : list nat -> result ndarray;
  elastic_deform_coordinates : ndarray -> R -> R -> Rand ndarray;
  rotate_coords_3d : ndarray -> R -> R -> R -> result ndarray;
  rotate_coords_2d : ndarray -> R -> result ndarray;
  scale_coords : ndarray -> R -> result ndarray;
  interpolate_img :
    ndarray -> ndarray -> nat -> string -> R -> bool -> result ndarray;
  random_crop_aug :
    ndarray -> option ndarray -> list nat -> list Z
    -> Rand (ndarray * option ndarray);
  center_crop_aug :
    ndarray -> list nat -> option ndarray -> result (ndarray * option ndarray)
}.

(** The variables of [augment_spatial] that live across iterations.
    [a_x], [a_y], [a_z] are unbound until a rotation step assigns
    them, and keep their value afterwards. *)
Record locals : Type := mk_locals {
  data_result : ndarray;
  seg_result : option ndarray;
  a_x : option R;
  a_y : option R;
  a_z : option R
}.

(** [np.zeros((a.shape[0], a.shape[1], patch_size[0], ...), float32)]:
    the two-dimensional form when [len(patch_size) == 2], the
    three-dimensional form otherwise. *)
Definition alloc_result (a : ndarray) (patch_size : list nat)
  : result ndarray :=
  (let dim := length patch_size in
   if dim =? 2 then
     let? n := py_nth (shape a) 0 in
     let? c := py_nth (shape a) 1 in
     let? p0 := py_nth patch_size 0 in
     let? p1 := py_nth patch_size 1 in
     Ok (zeros Float32 [n; c; p0; p1])
   else
     let? n := py_nth (shape a) 0 in
     let? c := py_nth (shape a) 1 in
     let? p0 := py_nth patch_size 0 in
     let? p1 := py_nth patch_size 1 in
     let? p2 := py_nth patch_size 2 in
     Ok (zeros Float32 [n; c; p0; p1; p2]))%result.

Definition alloc_seg_result (seg : option ndarray) (patch_size : list nat)
  : result (option ndarray) :=
  match seg with
  | None => Ok None
  | Some sg => (let? r := alloc_result sg patch_size in Ok (Some r))%result
  end.

(** [coords[d] += ctr]. *)
Definition add_at (coords : ndarray) (d : nat) (ctr : R) : result ndarray :=
  (let? row := getitem0 coords d in
   setitem0 coords d (map_array (fun x => (x + ctr)%R) row))%result.

(** One angle: a range with equal bounds is taken as it is. *)
Definition sample_angle (range : R * R) : M R :=
  if Reqb (fst range) (snd range) then ret (fst range)
  else uniform (fst range) (snd range).

(** The scale factor. *)
Definition sample_scale (scale : R * R) : M R :=
  (coin <- random_sample ;;
   if Rltb coin (1 / 2) && Rltb (fst scale) 1
   then uniform (fst scale) 1
   else uniform (Rmax (fst scale) 1) (snd scale))%M.

Section Engine.

Context {builders : RotationBuilders}.
Context {prims : Primitives}.

Variable data : ndarray.
Variable seg : option ndarray.
Variable patch_size : list nat.
Variable cfg : spatial_params.

Definition elastic_step (coords : ndarray) (modified_coords : bool)
  : M (ndarray * bool) :=
  (u <- random_sample ;;
   if Rltb u (p_el_per_sample cfg) && do_elastic_deform cfg then
     a <- uniform (fst (alpha cfg)) (snd (alpha cfg)) ;;
     s <- uniform (fst (sigma cfg)) (snd (sigma cfg)) ;;
     coords <- lift_rand (elastic_deform_coordinates coords a s) ;;
     ret (coords, true)
   else ret (coords, modified_coords))%M.

(** The rotation step; the last component holds [a_x], [a_y], [a_z]. *)
Definition rotation_step (dim : nat) (coords : ndarray)
           (modified_coords : bool) (angles : option R * option R * option R)
  : M (ndarray * bool * (option R * option R * option R)) :=
  (u <- random_sample ;;
   if Rltb u (p_rot_per_sample cfg) && do_rotation cfg then
     ax <- sample_angle (angle_x cfg) ;;
     if dim =? 3 then
       ay <- sample_angle (angle_y cfg) ;;
       az <- sample_angle (angle_z cfg) ;;
       coords <- lift (rotate_coords_3d coords ax ay az) ;;
       ret (coords, true, (Some ax, Some ay, Some az))
     else
       coords <- lift (rotate_coords_2d coords ax) ;;
       ret (coords, true, (Some ax, snd (fst angles), snd angles))
   else ret (coords, modified_coords, angles))%M.

Definition scale_step (coords : ndarray) (modified_coords : bool)
  : M (ndarray * bool) :=
  (u <- random_sample ;;
   if Rltb u (p_scale_per_sample cfg) && do_scale cfg then
     sc <- sample_scale (scale cfg) ;;
     coords <- lift (scale_coords coords sc) ;;
     ret (coords, true)
   else ret (coords, modified_coords))%M.

(** [for d in range(dim): coords[d] += ctr]. *)
Definition recenter (dim : nat) (dist : list Z) (coords : ndarray)
  : M ndarray :=
  for_each (range dim)
    (fun d coords =>
       (ctr <- (if random_crop cfg then
                  lo <- lift (py_nth dist d) ;;
                  extent <- lift (py_nth (shape data) (d + 2)) ;;
                  uniform (IZR lo) (INR extent - IZR lo)
                else
                  extent <- lift (py_nth (shape data) (d + 2)) ;;
                  ret (IZR (round_half_even (INR extent / 2)))) ;;
        lift (add_at coords d ctr))%M)
    coords.

(** Resampling of every data and segmentation channel of a sample. *)
Definition resample (sample_id : nat) (coords : ndarray)
           (data_result : ndarray) (seg_result : option ndarray)
  : result (ndarray * option ndarray) :=
  (let? channels := py_nth (shape data) 1 in
   let? data_result :=
      rfor_each (range channels)
        (fun channel_id data_result =>
           let? img := getitem2 data sample_id channel_id in
           let? v := interpolate_img img coords (order_data cfg)
                       (border_mode_data cfg) (border_cval_data cfg) false in
           setitem2 data_result sample_id channel_id v)
        data_result in
   match seg with
   | None => Ok (data_result, seg_result)
   | Some sg =>
       let? seg_channels := py_nth (shape sg) 1 in
       let? seg_result :=
          rfor_each (range seg_channels)
            (fun channel_id seg_result =>
               match seg_result with
               | None => Raise TypeError
               | Some sr =>
                   let? img := getitem2 sg sample_id channel_id in
                   let? v := interpolate_img img coords (order_seg cfg)
                               (border_mode_seg cfg) (border_cval_seg cfg) true in
                   let? sr := setitem2 sr sample_id channel_id v in
                   Ok (Some sr)
               end)
            seg_result in
       Ok (data_result, seg_result)
   end)%result.

(** [[dist[d] - patch_size[d] // 2 for d in range(dim)]]. *)
Definition crop_margin (dim : nat) (dist : list Z) : result (list Z) :=
  rfor_each (range dim)
    (fun d acc =>
       (let? lo := py_nth dist d in
        let? p := py_nth patch_size d in
        Ok (acc ++ [(lo - Z.of_nat (p / 2))%Z]))%result)
    [].

(** The path without resampling: a direct crop. *)
Definition crop (dim : nat) (dist : list Z) (sample_id : nat)
           (data_result : ndarray) (seg_result : option ndarray)
  : M (ndarray * option ndarray) :=
  (s <- lift (match seg with
              | None => Ok None
              | Some sg =>
                  (let? sl := slice0 sg sample_id (sample_id + 1) in
                   Ok (Some sl))%result
              end) ;;
   '(d, s) <- (if random_crop cfg then
                 margin <- lift (crop_margin dim dist) ;;
                 sl <- lift (slice0 data sample_id (sample_id + 1)) ;;
                 lift_rand (random_crop_aug sl s patch_size margin)
               else
                 sl <- lift (slice0 data sample_id (sample_id + 1)) ;;
                 lift (center_crop_aug sl patch_size s)) ;;
   d0 <- lift (getitem0 d 0) ;;
   data_result <- lift (setitem0 data_result sample_id d0) ;;
   match seg with
   | None => ret (data_result, seg_result)
   | Some _ =>
       match s, seg_result with
       | Some s, Some sr =>
           s0 <- lift (getitem0 s 0) ;;
           sr <- lift (setitem0 sr sample_id s0) ;;
           ret (data_result, Some sr)
       | _, _ => raise TypeError
       end
   end)%M.

(** [data_result[sample_id] = rotate_peaks_all(data_result[sample_id], 1, 0, 0)]. *)
Definition correct_peaks (sample_id : nat) (data_result : ndarray)
  : M ndarray :=
  (current <- lift (getitem0 data_result sample_id) ;;
   rotated <- rotate_peaks_all current 1 0 0 ;;
   lift (setitem0 data_result sample_id rotated))%M.

(** One iteration of the loop over the samples. *)
Definition augment_sample (dim : nat) (dist : list Z)
           (sample_id : nat) (l : locals) : M locals :=
  (coords <- lift (create_zero_centered_coordinate_mesh patch_size) ;;
   let modified_coords := false in
   '(coords, modified_coords) <- elastic_step coords modified_coords ;;
   '(coords, modified_coords, (ax, ay, az)) <-
      rotation_step dim coords modified_coords (a_x l, a_y l, a_z l) ;;
   '(coords, modified_coords) <- scale_step coords modified_coords ;;
   '(data_result, seg_result) <-
      (if modified_coords : bool then
         coords <- recenter dim dist coords ;;
         lift (resample sample_id coords (data_result l) (seg_result l))
       else crop dim dist sample_id (data_result l) (seg_result l)) ;;
   data_result <- correct_peaks sample_id data_result ;;
   ret {| data_result := data_result; seg_result := seg_result;
          a_x := ax; a_y := ay; a_z := az |})%M.

(** The whole function, returning all loop-carried variables. *)
Definition augment_spatial_locals : M locals :=
  (let dim := length patch_size in
   seg_result <- lift (alloc_seg_result seg patch_size) ;;
   data_result <- lift (alloc_result data patch_size) ;;
   let dist :=
     match patch_center_dist_from_border cfg with
     | DistScalar d => repeat d dim
     | DistPerAxis l => l
     end in
   n <- lift (py_nth (shape data) 0) ;;
   for_each (range n) (augment_sample dim dist)
     {| data_result := data_result; seg_result := seg_result;
        a_x := None; a_y := None; a_z := None |})%M.

Definition augment_spatial : M (ndarray * option ndarray) :=
  (l <- augment_spatial_locals ;;
   ret (data_result l, seg_result l))%M.

End Engine.

(** ** The transform adapter *)

(** The keyword arguments of a transform; a value may be [None]. *)
Definition data_dict : Type := list (string * option ndarray).

(** [data_dict.get(key)]. *)
Fixpoint dict_get (d : data_dict) (key : string) : option ndarray :=
  match d with
  | [] => None
  | (k, v) :: d' => if String.eqb k key then v else dict_get d' key
  end.

(** [data_dict[key] = v]. *)
Fixpoint dict_set (d : data_dict) (key : string) (v : option ndarray)
  : data_dict :=
  match d with
  | [] => [(key, v)]
  | (k, v') :: d' =>
      if String.eqb k key then (k, v) :: d' else (k, v') :: dict_set d' key v
  end.

Record SpatialTransform_Custom : Type := {
  self_patch_size : option (list nat);
  self_data_key : string;
  self_label_key : string;
  self_params : spatial_params
}.

Definition batch_rank_error : exn :=
  ValueError "only support 2D/3D batch data.".

Section Adapter.

Context {builders : RotationBuilders}.
Context {prims : Primitives}.

(** [SpatialTransform_Custom.__call__]. *)
Definition SpatialTransform_Custom_call
           (self : SpatialTransform_Custom) (d : data_dict) : M data_dict :=
  (let data := dict_get d (self_data_key self) in
   let seg := dict_get d (self_label_key self) in
   patch_size <-
     match self_patch_size self with
     | None =>
         match data with
         | None => raise AttributeError
         | Some a =>
             match shape a with
             | [_; _; s2; s3] => ret [s2; s3]
             | [_; _; s2; s3; s4] => ret [s2; s3; s4]
             | _ => raise batch_rank_error
             end
         end
     | Some p => ret p
     end ;;
   match data with
   | None =>
       lift (alloc_seg_result seg patch_size) ;;
       raise AttributeError
   | Some a =>
       '(data_out, seg_out) <-
          augment_spatial a seg patch_size (self_params self) ;;
       let d := dict_set d (self_data_key self) (Some data_out) in
       match seg with
       | None => ret d
       | Some _ => ret (dict_set d (self_label_key self) seg_out)
       end
   end)%M.

End Adapter.

(** ** Stand-ins for the external primitives

    They serve to run the engine on sample inputs. *)

Fixpoint crop_offsets (extent patch_size : list nat) : list nat :=
  match extent, patch_size with
  | e :: extent', p :: patch_size' =>
      (e - p) / 2 :: crop_offsets extent' patch_size'
  | _, _ => []
  end.

Fixpoint shift_index (idx offsets : list nat) : list nat :=
  match idx, offsets with
  | i :: idx', o :: offsets' => (i + o) :: shift_index idx' offsets'
  | _, _ => idx
  end.

(** Modelled from the spec: the center-crop primitive, absent from
    this repository; it crops a batch to [patch_size] around the
    middle of each spatial axis (zeros where the patch exceeds the
    array). *)
Definition center_crop_array (a : ndarray) (patch_size : list nat) : ndarray :=
  match shape a with
  | n :: c :: extent =>
      let offsets := crop_offsets extent patch_size in
      build (dt a) (n :: c :: patch_size)
            (fun idx =>
               match idx with
               | b :: ch :: sp =>
                   let src := b :: ch :: shift_index sp offsets in
                   if valid_index (shape a) src then get a src else 0%R
               | _ => 0%R
               end)
  | _ => a
  end.

Definition center_crop_pair (a : ndarray) (patch_size : list nat)
           (s : option ndarray) : ndarray * option ndarray :=
  (center_crop_array a patch_size,
   match s with
   | None => None
   | Some sg => Some (center_crop_array sg patch_size)
   end).

(** Identity geometry, a resampler that returns zeros of the shape of
    the coordinate field, and center crops. *)
Definition stand_in_primitives : Primitives := {|
  create_zero_centered_coordinate_mesh patch_size :=
    Ok (zeros Float64 (length patch_size :: patch_size));
  elastic_deform_coordinates coords _ _ := fun g => Ok (coords, g);
  rotate_coords_3d coords _ _ _ := Ok coords;
  rotate_coords_2d coords _ := Ok coords;
  scale_coords coords _ := Ok coords;
  interpolate_img _ coords _ _ _ _ := Ok (zeros Float64 (tl (shape coords)));
  random_crop_aug a s patch_size _ :=
    fun g => Ok (center_crop_pair a patch_size s, g);
  center_crop_aug a patch_size s := Ok (center_crop_pair a patch_size s)
|}.

(** A zoom that drops the last element of every axis when it
    interpolates linearly, and copies its input otherwise. *)
Definition stand_in_scipy : Scipy := {|
  zoom a _ order :=
    if order =? 1 then corner a (map Nat.pred (shape a)) else Ok a
|}.

(** ** Specification-side definitions for the corrector *)

(** Product of two 3 x 3 matrices. *)
Definition mat_mul3 (a b : ndarray) : ndarray :=
  build Float64 [3; 3]
        (fun idx =>
           match idx with
           | [i; j] => Rsum (map (fun l => (get a [i; l] * get b [l; j])%R) (seq 0 3))
           | _ => 0%R
           end).

(** [Rx . Ry . Rz]: about x first, then y, then z, on row vectors. *)
Definition rotation_xyz (angle_x angle_y angle_z : R) : ndarray :=
  mat_mul3 (mat_mul3 (rotation_x angle_x) (rotation_y angle_y))
           (rotation_z angle_z).

(** [Rz . Ry . Rx], the product as the specification writes it. *)
Definition rotation_zyx (angle_x angle_y angle_z : R) : ndarray :=
  mat_mul3 (mat_mul3 (rotation_z angle_z) (rotation_y angle_y))
           (rotation_x angle_x).

(** The row vector [v . m] at component [c], where [v] is the 3-vector
    that channels [base .. base+2] of [a] hold at the spatial index
    [idx]. *)
Definition vec_times (a : ndarray) (base : nat) (idx : list nat)
           (m : ndarray) (c : nat) : R :=
  Rsum (map (fun k => Rmult (get a ((base + k) :: idx)) (get m [k; c])) (seq 0 3)).

(** [out] holds, in channels [base .. base+2], the vectors of [a]
    multiplied by [m]. *)
Definition group_rotated (a out : ndarray) (base : nat) (m : ndarray) : Prop :=
  forall idx c,
    valid_index (tl (shape a)) idx = true -> c < 3 ->
    get out ((base + c) :: idx) = vec_times a base idx m c.

(** A single unit vector along x at one spatial location. *)
Definition unit_x_peak : ndarray :=
  {| dt := Float32; shape := [3; 1]; flat := [1; 0; 0]%R |}.

(** State of the accumulator of [rotate_peaks_all] before iteration
    [i], for an input of [3 * G] channels: the groups already visited
    are rotated, the channels not yet visited are zero. *)
Definition groups_inv (data : ndarray) (dims : list nat) (G : nat)
           (angle_x angle_y angle_z : R) (i : nat) (acc : ndarray) : Prop :=
  shape acc = shape data /\ wf acc /\ dt acc = Float64
  /\ (forall i', i' < i -> i' < G ->
       group_rotated data acc (3 * i') (rotation_xyz angle_x angle_y angle_z))
  /\ (forall c idx, 3 * i <= c -> c < 3 * G ->
                    valid_index dims idx = true -> get acc (c :: idx) = 0%R).

(** ** Sample inputs *)

(** One sample, one peak group [(0, 1, 0)], a single pixel. *)
Definition one_peak_2d : ndarray :=
  {| dt := Float32; shape := [1; 3; 1; 1]; flat := [0; 1; 0]%R |}.

(** The same with a single voxel. *)
Definition one_peak_3d : ndarray :=
  {| dt := Float32; shape := [1; 3; 1; 1; 1]; flat := [0; 1; 0]%R |}.

(** One sample, one label channel, a single pixel. *)
Definition one_label_2d : ndarray :=
  {| dt := Int64; shape := [1; 1; 1; 1]; flat := [1]%R |}.

(** One sample, one channel, 2 x 2 pixels. *)
Definition one_channel_2x2 : ndarray :=
  {| dt := Float32; shape := [1; 1; 2; 2]; flat := [1; 2; 3; 4]%R |}.

(** The defaults of [augment_spatial]. *)
Definition default_params : spatial_params := {|
  patch_center_dist_from_border := DistScalar 30;
  do_elastic_deform := true;
  alpha := (0, 1000)%R;
  sigma := (10, 13)%R;
  do_rotation := true;
  angle_x := (0, 2 * PI)%R;
  angle_y := (0, 2 * PI)%R;
  angle_z := (0, 2 * PI)%R;
  do_scale := true;
  scale := (3 / 4, 5 / 4)%R;
  border_mode_data := "nearest";
  border_cval_data := 0%R;
  order_data := 3;
  border_mode_seg := "constant";
  border_cval_seg := 0%R;
  order_seg := 0;
  random_crop := true;
  p_el_per_sample := 1%R;
  p_scale_per_sample := 1%R;
  p_rot_per_sample := 1%R
|}.

(** All three effects disabled, centered crop. *)
Definition crop_only_params : spatial_params := {|
  patch_center_dist_from_border := DistScalar 30;
  do_elastic_deform := false;
  alpha := (0, 1000)%R;
  sigma := (10, 13)%R;
  do_rotation := false;
  angle_x := (0, 2 * PI)%R;
  angle_y := (0, 2 * PI)%R;
  angle_z := (0, 2 * PI)%R;
  do_scale := false;
  scale := (3 / 4, 5 / 4)%R;
  border_mode_data := "nearest";
  border_cval_data := 0%R;
  order_data := 3;
  border_mode_seg := "constant";
  border_cval_seg := 0%R;
  order_seg := 0;
  random_crop := false;
  p_el_per_sample := 1%R;
  p_scale_per_sample := 1%R;
  p_rot_per_sample := 1%R
|}.

(** Rotation only, every angle range degenerate at one half. *)
Definition fixed_rotation_params : spatial_params := {|
  patch_center_dist_from_border := DistScalar 30;
  do_elastic_deform := false;
  alpha := (0, 1000)%R;
  sigma := (10, 13)%R;
  do_rotation := true;
  angle_x := (1 / 2, 1 / 2)%R;
  angle_y := (1 / 2, 1 / 2)%R;
  angle_z := (1 / 2, 1 / 2)%R;
  do_scale := false;
  scale := (3 / 4, 5 / 4)%R;
  border_mode_data := "nearest";
  border_cval_data := 0%R;
  order_data := 3;
  border_mode_seg := "constant";
  border_cval_seg := 0%R;
  order_seg := 0;
  random_crop := false;
  p_el_per_sample := 1%R;
  p_scale_per_sample := 1%R;
  p_rot_per_sample := 1%R
|}.

(** A generator whose variates are all [0], nothing printed yet. *)
Definition zero_rng : rng := {| draws := fun _ => 0%R; pos := 0 |}.
Definition world0 : world := {| gen := zero_rng; stdout := [] |}.

(** Four groups at one spatial location; only channel 9 is non-zero. *)
Definition four_groups : ndarray :=
  {| dt := Float32; shape := [12; 1];
     flat := [0; 0; 0; 0; 0; 0; 0; 0; 0; 1; 0; 0]%R |}.

(** [a_x], [a_y], [a_z] before any rotation step. *)
Definition unbound_angles : option R * option R * option R :=
  (None, None, None).

(** A generator that replays the given variates. *)
Definition rng_of_list (l : list R) : rng :=
  {| draws := fun k => nth k l 0%R; pos := 0 |}.

Definition world_of_list (l : list R) : world :=
  {| gen := rng_of_list l; stdout := [] |}.

(** ** Specification-side definitions for the sampling steps *)

(** The variate that the next read of the generator returns. *)
Definition next_draw (w : world) : R := draws (gen w) (pos (gen w)).

(** The world after one read of the generator. *)
Definition advance (w : world) : world :=
  {| gen := {| draws := draws (gen w); pos := S (pos (gen w)) |};
     stdout := stdout w |}.

Definition between (a b x : R) : Prop := (Rmin a b <= x <= Rmax a b)%R.

(** How an angle [a] is obtained from its configured range in world
    [w], leaving world [w1]: a range with equal bounds gives its bound
    and reads nothing; any other range gives the affine image of the
    next variate, which lies within the range. *)
Definition angle_taken (range : R * R) (w : world) (a : R) (w1 : world)
  : Prop :=
  (fst range = snd range -> a = fst range /\ w1 = w)
  /\ (fst range <> snd range ->
      a = scale_draw (fst range) (snd range) (next_draw w)
      /\ w1 = advance w
      /\ ((0 <= next_draw w < 1)%R -> between (fst range) (snd range) a)).

(** The rotation step fires in world [w]. *)
Definition rotation_fires (cfg : spatial_params) (w : world) : Prop :=
  Rltb (next_draw w) (p_rot_per_sample cfg) && do_rotation cfg = true.

(** ** Proof-side predicates for the engine *)

(** [b] has the shape and dtype of [a]. *)
Definition same_form (a b : ndarray) : Prop :=
  shape b = shape a /\ dt b = dt a.

Definition same_form_opt (a b : option ndarray) : Prop :=
  match a, b with
  | None, None => True
  | Some x, Some y => same_form x y
  | _, _ => False
  end.

(** A computation that prints nothing. *)
Definition quiet {A} (m : M A) : Prop :=
  forall w a w', m w = Ok (a, w') -> stdout w' = stdout w.

(** What [rotate_peaks_all] prints when called with angles
    [(ax, ay, az)]. *)
Definition angle_lines (ax ay az : R) : list out_line :=
  [AngleLine "angle_x" ax; AngleLine "angle_y" ay; AngleLine "angle_z" az].

(** An adapter without a configured patch size. *)
Definition adapter_without_patch : SpatialTransform_Custom := {|
  self_patch_size := None;
  self_data_key := "data";
  self_label_key := "seg";
  self_params := default_params
|}.

(** A batch with three axes only. *)
Definition flat_batch : ndarray :=
  {| dt := Float32; shape := [1; 3; 1]; flat := [0; 1; 0]%R |}.

(** ** Specification-side definitions: rotations of a single vector *)

Definition vec3 : Type := (R * R * R)%type.

(** The row vector [v . Rx(a)], and likewise for y and z. *)
Definition rot_x (a : R) (v : vec3) : vec3 :=
  let '(x, y, z) := v in
  (x, y * cos a + z * sin a, - y * sin a + z * cos a)%R.

Definition rot_y (a : R) (v : vec3) : vec3 :=
  let '(x, y, z) := v in
  (x * cos a - z * sin a, y, x * sin a + z * cos a)%R.

Definition rot_z (a : R) (v : vec3) : vec3 :=
  let '(x, y, z) := v in
  (x * cos a + y * sin a, - x * sin a + y * cos a, z)%R.

Definition norm2 (v : vec3) : R :=
  let '(x, y, z) := v in (x * x + y * y + z * z)%R.

(** The 3-vector that the three channels of [a] hold at [idx]. *)
Definition vector_at (a : ndarray) (idx : list nat) : vec3 :=
  (get a (0 :: idx), get a (1 :: idx), get a (2 :: idx)).

(** One channel over four pixels: not a whole number of 3-vectors. *)
Definition one_channel_four : ndarray :=
  {| dt := Float32; shape := [1; 2; 2]; flat := [1; 2; 3; 4]%R |}.

(** Three peak groups at one spatial location. *)
Definition three_groups : ndarray :=
  {| dt := Float32; shape := [9; 1];
     flat := [1; 0; 0; 0; 1; 0; 0; 0; 1]%R |}.

(** ** Specification-side definitions for the normalisation *)

(** The [k]-th run of [q] consecutive elements. *)
Definition block (q k : nat) (l : list R) : list R :=
  firstn q (skipn (k * q) l).

Definition mean_of (l : list R) : R := (Rsum l / INR (length l))%R.

Definition std_of (l : list R) : R :=
  sqrt (Rsum (map (fun x => (x - mean_of l) * (x - mean_of l))%R l)
        / INR (length l)).

(** [(l - mean) / (std + epsilon)], element by element. *)
Definition normalized (l : list R) (epsilon : R) : list R :=
  map (fun x => ((x - mean_of l) / (std_of l + epsilon))%R) l.

(** State of the batch before the [k]-th block of [q] elements is
    normalised. *)
Definition normalized_up_to (data : ndarray) (epsilon : R) (q m k : nat)
           (d : ndarray) : Prop :=
  shape d = shape data /\ wf d /\ dt d = dt data
  /\ forall t, t < m ->
       block q t (flat d)
       = if t <? k then normalized (block q t (flat data)) epsilon
         else block q t (flat data).

(** One sample, two channels over two pixels; the second is constant. *)
Definition two_channels : ndarray :=
  {| dt := Float32; shape := [1; 2; 2; 1]; flat := [1; 3; 5; 5]%R |}.

(** A computation that does not read the random generator. *)
Definition steady {A} (m : M A) : Prop :=
  forall w a w', m w = Ok (a, w') -> gen w' = gen w.

(** The generator after [k] further reads. *)
Definition skip_draws (k : nat) (g : rng) : rng :=
  {| draws := draws g; pos := pos g + k |}.

(** A batch without samples. *)
Definition empty_batch : ndarray :=
  {| dt := Float32; shape := [0; 3; 4; 4]; flat := [] |}.

(** An adapter with a configured 1 x 1 patch and every effect disabled. *)
Definition crop_only_adapter : SpatialTransform_Custom := {|
  self_patch_size := Some [1; 1];
  self_data_key := "data";
  self_label_key := "seg";
  self_params := crop_only_params
|}.

(** The same without a configured patch. *)
Definition crop_only_adapter_without_patch : SpatialTransform_Custom := {|
  self_patch_size := None;
  self_data_key := "data";
  self_label_key := "seg";
  self_params := crop_only_params
|}.

(** A record with data, labels and one further entry. *)
Definition sample_record : data_dict :=
  [("data"%string, Some one_peak_2d);
   ("seg"%string, Some one_label_2d);
   ("subject"%string, Some one_channel_2x2)].

(** ** The pipeline around the transforms

    The pipeline code fails in two more ways: a subscript on the
    keyword arguments with a missing key, and the end of an iterator. *)

Inductive pyexn : Type :=
| KeyError (key : option string)
| StopIteration
| Builtin (e : exn).

Inductive presult (A : Type) : Type :=
| Done (a : A)
| Fails (e : pyexn).

Arguments Done {A} a.
Arguments Fails {A} e.

Definition P (A : Type) : Type := world -> presult (A * world).

Definition pret {A} (a : A) : P A := fun w => Done (a, w).

Definition pbind {A B} (m : P A) (k : A -> P B) : P B :=
  fun w =>
    match m w with
    | Done (a, w') => k a w'
    | Fails e => Fails e
    end.

Definition pfail {A} (e : pyexn) : P A := fun _ => Fails e.

Definition of_M {A} (m : M A) : P A :=
  fun w =>
    match m w with
    | Ok r => Done r
    | Raise e => Fails (Builtin e)
    end.

Definition of_result {A} (r : result A) : P A := of_M (lift r).

Declare Scope P_scope.
Delimit Scope P_scope with P.
Notation "x <- m ;; k" := (pbind m (fun x => k))
  (at level 61, m at next level, right associativity) : P_scope.

Fixpoint pfor_each {A S} (l : list A) (body : A -> S -> P S) (s : S) : P S :=
  match l with
  | [] => pret s
  | x :: l' => (s' <- body x s ;; pfor_each l' body s')%P
  end.

(** [key in data_dict]. *)
Fixpoint dict_mem (d : data_dict) (key : string) : bool :=
  match d with
  | [] => false
  | (k, _) :: d' => String.eqb k key || dict_mem d' key
  end.

(** [data_dict[key]]; the keys of keyword arguments are strings, so
    the key [None] is never found. *)
Definition dict_item (d : data_dict) (key : option string)
  : P (option ndarray) :=
  match key with
  | None => pfail (KeyError None)
  | Some k =>
      if dict_mem d k then pret (dict_get d k)
      else pfail (KeyError (Some k))
  end.

(** A transform: a callable from keyword arguments to a record. *)
Definition transform : Type := data_dict -> P data_dict.

(** [Compose.__call__]. *)
Definition Compose_call (transforms : list transform) (d : data_dict)
  : P data_dict :=
  pfor_each transforms (fun t d => t d) d.

Record ZeroMeanUnitVarianceTransform : Type := {
  zm_per_channel : bool;
  zm_epsilon : R;
  zm_data_key : string;
  zm_label_key : string
}.

(** [ZeroMeanUnitVarianceTransform.__call__]. *)
Definition ZeroMeanUnitVarianceTransform_call
           (self : ZeroMeanUnitVarianceTransform) (d : data_dict)
  : P data_dict :=
  (v <- dict_item d (Some (zm_data_key self)) ;;
   match v with
   | None => pfail (Builtin AttributeError)
   | Some a =>
       r <- of_result (zero_mean_unit_variance_normalization
                         a (zm_per_channel self) (zm_epsilon self)) ;;
       pret (dict_set d (zm_data_key self) (Some r))
   end)%P.

Record ResampleTransformLegacy : Type := {
  rs_zoom_range : R * R
}.

Section Legacy.

Context {scipy : Scipy}.

(** [ResampleTransformLegacy.__call__]; the key is fixed. *)
Definition ResampleTransformLegacy_call
           (self : ResampleTransformLegacy) (d : data_dict) : P data_dict :=
  (v <- dict_item d (Some "data"%string) ;;
   match v with
   | None =>
       let zoom_range := rs_zoom_range self in
       if Rleb (snd zoom_range + 1 / 1000000) (fst zoom_range)
       then pfail (Builtin zoom_range_error)
       else pfail (Builtin AttributeError)
   | Some a =>
       r <- of_M (augment_linear_downsampling_scipy a (rs_zoom_range self)) ;;
       pret (dict_set d "data" (Some r))
   end)%P.

End Legacy.

(** *** Conversion to tensors *)

(** The part of pytorch that [NumpyToTensor] uses, an external
    library: tensors, [torch.from_numpy], the casts and
    [pin_memory]. *)
Class Torch : Type := {
  tensor : Type;
  from_numpy : ndarray -> tensor;
  half : tensor -> tensor;
  float : tensor -> tensor;
  long : tensor -> tensor;
  pin_memory : tensor -> tensor
}.

Section Tensors.

Context {torch : Torch}.

(** A value of the record: an array, a tensor, or [None]. *)
Inductive tvalue : Type :=
| TArray (a : ndarray)
| TTensor (t : tensor)
| TNone.

Definition tensor_dict : Type := list (string * tvalue).

Fixpoint tdict_find (d : tensor_dict) (key : string) : option tvalue :=
  match d with
  | [] => None
  | (k, v) :: d' => if String.eqb k key then Some v else tdict_find d' key
  end.

Fixpoint tdict_set (d : tensor_dict) (key : string) (v : tvalue)
  : tensor_dict :=
  match d with
  | [] => [(key, v)]
  | (k, v') :: d' =>
      if String.eqb k key then (k, v) :: d'
      else (k, v') :: tdict_set d' key v
  end.

(** The argument [keys] of the constructor: [None], one key, or a
    list of keys. *)
Inductive keys_arg : Type :=
| KeysNone
| KeysOne (key : string)
| KeysMany (keys : list string).

Record NumpyToTensor : Type := {
  nt_keys : option (list (option string));
  nt_cast_to : option string;
  nt_pin_memory : bool
}.

(** [NumpyToTensor.__init__]: anything that is not a list or tuple is
    wrapped in a list. *)
Definition NumpyToTensor_init (keys : keys_arg) (cast_to : option string)
           (pin : bool) : NumpyToTensor :=
  {| nt_keys :=
       Some (match keys with
             | KeysNone => [None]
             | KeysOne k => [Some k]
             | KeysMany l => map Some l
             end);
     nt_cast_to := cast_to;
     nt_pin_memory := pin |}.

Definition unknown_cast_error (cast_to : string) : exn :=
  ValueError ("Unknown value for cast_to: " ++ cast_to).

(** [NumpyToTensor.cast]. *)
Definition NumpyToTensor_cast (self : NumpyToTensor) (t : tensor)
  : P tensor :=
  match nt_cast_to self with
  | None => pret t
  | Some c =>
      if String.eqb c "half" then pret (half t)
      else if String.eqb c "float" then pret (float t)
      else if String.eqb c "long" then pret (long t)
      else pfail (Builtin (unknown_cast_error c))
  end.

(** The conversion of one value known to be an array. *)
Definition convert_entry (self : NumpyToTensor) (d : tensor_dict)
           (key : string) (a : ndarray) : P tensor_dict :=
  (t <- NumpyToTensor_cast self (from_numpy a) ;;
   let d := tdict_set d key (TTensor t) in
   if nt_pin_memory self
   then pret (tdict_set d key (TTensor (pin_memory t)))
   else pret d)%P.

(** [NumpyToTensor.__call__]. *)
Definition NumpyToTensor_call (self : NumpyToTensor) (d : tensor_dict)
  : P tensor_dict :=
  match nt_keys self with
  | None =>
      pfor_each d
        (fun item d =>
           match snd item with
           | TArray a => convert_entry self d (fst item) a
           | _ => pret d
           end)
        d
  | Some keys =>
      pfor_each keys
        (fun key d =>
           match key with
           | None => pfail (KeyError None)
           | Some k =>
               match tdict_find d k with
               | None => pfail (KeyError (Some k))
               | Some (TArray a) => convert_entry self d k a
               | Some _ => pfail (Builtin TypeError)
               end
           end)
        d
  end.

End Tensors.

(** *** Sample pipeline values *)

Definition normalise_data : ZeroMeanUnitVarianceTransform := {|
  zm_per_channel := true;
  zm_epsilon := (1 / 10000000)%R;
  zm_data_key := "data";
  zm_label_key := "seg"
|}.

(** A stand-in for pytorch: a tensor is the array it was made from
    and the list of operations applied to it. *)
Definition stand_in_torch : Torch := {|
  tensor := (ndarray * list string)%type;
  from_numpy a := (a, []);
  half t := (fst t, snd t ++ ["half"%string]);
  float t := (fst t, snd t ++ ["float"%string]);
  long t := (fst t, snd t ++ ["long"%string]);
  pin_memory t := (fst t, snd t ++ ["pin_memory"%string])
|}.
(** * Properties

    ** Comparisons *)

Lemma Rltb_true x y : (x < y)%R -> Rltb x y = true.
Proof. intros H. unfold Rltb. destruct (Rlt_dec x y); [reflexivity | contradiction]. Qed.

Lemma Rltb_false x y : (y <= x)%R -> Rltb x y = false.
Proof. intros H. unfold Rltb. destruct (Rlt_dec x y); [lra | reflexivity]. Qed.

Lemma Rltb_iff x y : Rltb x y = true <-> (x < y)%R.
Proof.
  unfold Rltb. destruct (Rlt_dec x y); split; intros; try assumption;
    try reflexivity; try discriminate; contradiction.
Qed.

Lemma Rleb_true x y : (x <= y)%R -> Rleb x y = true.
Proof. intros H. unfold Rleb. destruct (Rle_dec x y); [reflexivity | contradiction]. Qed.

Lemma Rleb_false x y : (y < x)%R -> Rleb x y = false.
Proof. intros H. unfold Rleb. destruct (Rle_dec x y); [lra | reflexivity]. Qed.

Lemma Reqb_true x y : x = y -> Reqb x y = true.
Proof. intros H. unfold Reqb. destruct (Req_dec_T x y); [reflexivity | contradiction]. Qed.

Lemma Reqb_false x y : x <> y -> Reqb x y = false.
Proof. intros H. unfold Reqb. destruct (Req_dec_T x y); [contradiction | reflexivity]. Qed.

Lemma Reqb_iff x y : Reqb x y = true <-> x = y.
Proof.
  unfold Reqb. destruct (Req_dec_T x y); split; intros; try assumption;
    try reflexivity; try discriminate; contradiction.
Qed.

(** ** Indices and arrays *)

Lemma flat_map_length_uniform {A B} (f : A -> list B) (p : nat) (l : list A) :
  (forall x, In x l -> length (f x) = p) ->
  length (flat_map f l) = length l * p.
Proof.
  induction l as [|x l IH]; intros Hf; simpl; [reflexivity|].
  rewrite length_app, Hf by (left; reflexivity).
  rewrite IH; [lia|]. intros y Hy. apply Hf. right; exact Hy.
Qed.

Lemma nth_flat_map_uniform {A B} (f : A -> list B) (p : nat) (l : list A)
      (i r : nat) (da : A) (db : B) :
  (forall x, In x l -> length (f x) = p) ->
  i < length l -> r < p ->
  nth (i * p + r) (flat_map f l) db = nth r (f (nth i l da)) db.
Proof.
  revert i. induction l as [|x l IH]; intros i Hf Hi Hr; simpl in *; [lia|].
  assert (Hx : length (f x) = p) by (apply Hf; left; reflexivity).
  destruct i as [|i].
  - simpl. rewrite app_nth1 by lia. reflexivity.
  - rewrite app_nth2 by (rewrite Hx; simpl; lia).
    rewrite Hx. replace (S i * p + r - p) with (i * p + r) by (simpl; lia).
    apply IH; [intros y Hy; apply Hf; right; exact Hy | lia | exact Hr].
Qed.

Lemma all_indices_length sh : length (all_indices sh) = prod sh.
Proof.
  induction sh as [|n rest IH]; simpl; [reflexivity|].
  rewrite (flat_map_length_uniform _ (prod rest)).
  - rewrite length_seq. reflexivity.
  - intros x _. rewrite length_map. exact IH.
Qed.

Lemma ravel_lt sh idx : valid_index sh idx = true -> ravel sh idx < prod sh.
Proof.
  revert idx. induction sh as [|n rest IH]; intros [|i idx] H; simpl in *;
    try discriminate; [lia|].
  apply andb_prop in H. destruct H as [Hi Hr].
  apply Nat.ltb_lt in Hi. specialize (IH _ Hr). nia.
Qed.

Lemma nth_all_indices sh idx d :
  valid_index sh idx = true -> nth (ravel sh idx) (all_indices sh) d = idx.
Proof.
  revert idx. induction sh as [|n rest IH]; intros [|i idx] H; simpl in *;
    try discriminate; [reflexivity|].
  apply andb_prop in H. destruct H as [Hi Hr].
  apply Nat.ltb_lt in Hi.
  rewrite (nth_flat_map_uniform _ (prod rest) _ _ _ 0).
  - rewrite seq_nth by exact Hi. simpl.
    rewrite (nth_indep _ d (i :: d)).
    + rewrite map_nth. f_equal. apply IH. exact Hr.
    + rewrite length_map, all_indices_length. apply ravel_lt. exact Hr.
  - intros x _. rewrite length_map. apply all_indices_length.
  - rewrite length_seq. exact Hi.
  - apply ravel_lt. exact Hr.
Qed.

Lemma all_indices_valid sh idx :
  In idx (all_indices sh) -> valid_index sh idx = true.
Proof.
  revert idx. induction sh as [|n rest IH]; intros idx H; simpl in *.
  - destruct H as [<-|[]]. reflexivity.
  - apply in_flat_map in H. destruct H as [i [Hi H]].
    apply in_map_iff in H. destruct H as [idx' [<- H]].
    apply in_seq in Hi. simpl.
    rewrite (proj2 (Nat.ltb_lt i n)) by lia. simpl. apply IH. exact H.
Qed.

Lemma map_ravel_all_indices sh :
  map (ravel sh) (all_indices sh) = seq 0 (prod sh).
Proof.
  apply (nth_ext _ _ 0 0).
  - rewrite length_map, all_indices_length, length_seq. reflexivity.
  - intros k Hk. rewrite length_map, all_indices_length in Hk.
    rewrite seq_nth by exact Hk. simpl.
    rewrite (nth_indep _ 0 (ravel sh [])) by (rewrite length_map, all_indices_length; exact Hk).
    rewrite map_nth.
    revert k Hk. induction sh as [|n rest IH]; intros k Hk; simpl in *.
    + destruct k; [reflexivity | lia].
    + assert (Hp : 0 < prod rest) by (destruct (prod rest); [lia | lia]).
      replace k with ((k / prod rest) * prod rest + k mod prod rest) at 1
        by (rewrite Nat.mul_comm; symmetry; apply Nat.div_mod_eq).
      rewrite (nth_flat_map_uniform _ (prod rest) _ _ _ 0).
      * rewrite seq_nth by (apply Nat.Div0.div_lt_upper_bound; lia). simpl.
        rewrite (nth_indep _ [] (k / prod rest :: [])).
        -- rewrite map_nth. simpl. rewrite IH by (apply Nat.mod_upper_bound; lia).
           rewrite Nat.mul_comm. symmetry. apply Nat.div_mod_eq.
        -- rewrite length_map, all_indices_length. apply Nat.mod_upper_bound; lia.
      * intros x _. rewrite length_map. apply all_indices_length.
      * rewrite length_seq. apply Nat.Div0.div_lt_upper_bound; lia.
      * apply Nat.mod_upper_bound; lia.
Qed.

Lemma build_shape d sh f : shape (build d sh f) = sh.
Proof. reflexivity. Qed.

Lemma build_wf d sh f : wf (build d sh f).
Proof. unfold wf. simpl. rewrite length_map. apply all_indices_length. Qed.

Lemma get_build d sh f idx :
  valid_index sh idx = true -> get (build d sh f) idx = f idx.
Proof.
  intros H. unfold get. simpl.
  rewrite (nth_indep _ 0%R (f idx))
    by (rewrite length_map, all_indices_length; apply ravel_lt; exact H).
  rewrite map_nth. f_equal. apply nth_all_indices. exact H.
Qed.

Lemma map_nth_seq {A} (l : list A) (d : A) :
  map (fun k => nth k l d) (seq 0 (length l)) = l.
Proof.
  apply (nth_ext _ _ d d).
  - rewrite length_map, length_seq. reflexivity.
  - intros k Hk. rewrite length_map, length_seq in Hk.
    rewrite (nth_indep _ d (nth 0 l d)) by (rewrite length_map, length_seq; exact Hk).
    rewrite (map_nth (fun k => nth k l d)). rewrite seq_nth by exact Hk. reflexivity.
Qed.

Lemma build_get (a : ndarray) :
  wf a -> flat (build (dt a) (shape a) (get a)) = flat a.
Proof.
  intros H. unfold build, get. simpl.
  rewrite <- (map_map (ravel (shape a)) (fun k => nth k (flat a) 0%R)).
  rewrite map_ravel_all_indices. rewrite <- H. apply map_nth_seq.
Qed.

Lemma valid_index2 n m i j :
  i < n -> j < m -> valid_index [n; m] [i; j] = true.
Proof.
  intros Hi Hj. simpl.
  rewrite (proj2 (Nat.ltb_lt i n) Hi), (proj2 (Nat.ltb_lt j m) Hj). reflexivity.
Qed.

Lemma valid_index_cons n sh i idx :
  i < n -> valid_index sh idx = true -> valid_index (n :: sh) (i :: idx) = true.
Proof.
  intros Hi H. simpl. rewrite (proj2 (Nat.ltb_lt i n) Hi), H. reflexivity.
Qed.

Lemma get_flat_eq (a b : ndarray) idx jdx :
  flat a = flat b -> ravel (shape a) idx = ravel (shape b) jdx ->
  get a idx = get b jdx.
Proof. intros Hf Hr. unfold get. rewrite Hf, Hr. reflexivity. Qed.

(** ** The corrector: one group *)

Section CorrectorCore.

Variable peaks : ndarray.
Variable dims : list nat.
Hypothesis peaks_shape : shape peaks = 3 :: dims.
Hypothesis peaks_wf : wf peaks.

Lemma peaks_length : length (flat peaks) = 3 * prod dims.
Proof. rewrite peaks_wf, peaks_shape. simpl. lia. Qed.

Lemma reshape_3_rest_peaks :
  reshape_3_rest peaks
  = Ok {| dt := dt peaks; shape := [3; prod dims]; flat := flat peaks |}.
Proof.
  unfold reshape_3_rest. rewrite peaks_length.
  replace (3 * prod dims) with (prod dims * 3) by lia.
  rewrite Nat.Div0.mod_mul, Nat.div_mul by lia. reflexivity.
Qed.

(** The part of [rotate_peaks] that follows the construction of the
    rotation matrix [m]. *)
Lemma rotate_core (m : ndarray) :
  shape m = [3; 3] ->
  exists out,
    (let? columns := reshape_3_rest peaks in
     let? rotated := dot (transpose columns) m in
     reshape (transpose rotated) (shape peaks))%result = Ok out
    /\ shape out = shape peaks
    /\ wf out
    /\ dt out = promote (dt peaks) (dt m)
    /\ group_rotated peaks out 0 m.
Proof.
  intros Hm. rewrite reshape_3_rest_peaks. simpl rbind.
  set (columns := {| dt := dt peaks; shape := [3; prod dims]; flat := flat peaks |}).
  unfold dot. change (shape (transpose columns)) with [prod dims; 3].
  rewrite Hm. simpl Nat.eqb. cbv iota.
  set (rotated := build _ [prod dims; 3] _).
  simpl rbind. unfold reshape.
  assert (Hlen : length (flat (transpose rotated)) = 3 * prod dims).
  { change (flat (transpose rotated))
      with (map (fun idx => get rotated (rev idx)) (all_indices [3; prod dims])).
    rewrite length_map, all_indices_length. simpl. lia. }
  rewrite Hlen, peaks_shape.
  replace (prod (3 :: dims)) with (3 * prod dims) by (simpl; lia).
  rewrite Nat.eqb_refl.
  eexists. split; [reflexivity|]. split; [reflexivity|]. split.
  { unfold wf. cbn [flat shape]. rewrite Hlen. simpl. lia. }
  split; [reflexivity|].
  intros idx c Hidx Hc. rewrite peaks_shape in Hidx. simpl in Hidx.
  pose proof (ravel_lt _ _ Hidx) as Hj.
  set (j := ravel dims idx) in *.
  assert (Hout : forall (o : ndarray) c',
             flat o = flat (transpose rotated) -> shape o = 3 :: dims ->
             get o (c' :: idx) = get (transpose rotated) [c'; j]).
  { intros o c' Hf Hs. apply get_flat_eq; [exact Hf|].
    rewrite Hs. unfold transpose. simpl. fold j. lia. }
  rewrite (Hout _ (0 + c)) by reflexivity. simpl (0 + c).
  unfold transpose at 1. change (rev (shape rotated)) with [3; prod dims].
  rewrite get_build by (apply valid_index2; assumption).
  change (rev [c; j]) with [j; c].
  unfold rotated. rewrite get_build by (apply valid_index2; assumption).
  unfold vec_times. apply f_equal.
  apply map_ext_in. intros l Hl. apply in_seq in Hl.
  f_equal.
  unfold transpose. change (rev (shape columns)) with [prod dims; 3].
  rewrite get_build by (apply valid_index2; lia).
  change (rev [j; l]) with [l; j].
  apply get_flat_eq; [reflexivity|].
  rewrite peaks_shape. simpl. fold j. lia.
Qed.

End CorrectorCore.

Lemma promote_float64_r d : promote d Float64 = Float64.
Proof. destruct d; reflexivity. Qed.

Lemma group_rotated_ext a out base m m' :
  shape m = shape m' -> flat m = flat m' ->
  group_rotated a out base m -> group_rotated a out base m'.
Proof.
  intros Hs Hf H idx c Hidx Hc. rewrite (H idx c Hidx Hc).
  unfold vec_times. apply f_equal. apply map_ext. intros k.
  f_equal. apply get_flat_eq; [exact Hf | rewrite Hs; reflexivity].
Qed.

(** The matrix that the batchgenerators builders accumulate, started
    from the identity, is [Rx . Ry . Rz]. *)
Lemma builders_chain angle_x angle_y angle_z :
  exists m,
    (let? r := create_matrix_rotation_x_3d angle_x (identity 3) in
     let? r := create_matrix_rotation_y_3d angle_y r in
     create_matrix_rotation_z_3d angle_z r)%result = Ok m
    /\ shape m = [3; 3]
    /\ dt m = Float64
    /\ flat m = flat (rotation_xyz angle_x angle_y angle_z).
Proof.
  eexists. split; [reflexivity|]. split; [reflexivity|]. split; [reflexivity|].
  unfold rotation_xyz, mat_mul3, rotation_x, rotation_y, rotation_z, matrix3.
  generalize (cos angle_x) (sin angle_x) (cos angle_y) (sin angle_y)
             (cos angle_z) (sin angle_z).
  intros cx sx cy sy cz sz.
  unfold build, get, identity. cbn.
  repeat (apply f_equal2; [ring|]). reflexivity.
Qed.

Lemma rotate_peaks_batchgenerators peaks dims angle_x angle_y angle_z :
  shape peaks = 3 :: dims -> wf peaks ->
  exists out,
    rotate_peaks peaks angle_x angle_y angle_z = Ok out
    /\ shape out = shape peaks
    /\ wf out
    /\ dt out = Float64
    /\ group_rotated peaks out 0 (rotation_xyz angle_x angle_y angle_z).
Proof.
  intros Hs Hw. unfold rotate_peaks.
  destruct (builders_chain angle_x angle_y angle_z) as [m [Hm [Hsh [Hdt Hfl]]]].
  unfold rbind in Hm |- *.
  destruct (create_matrix_rotation_x_3d angle_x (identity 3)) as [r1|]; [|discriminate].
  destruct (create_matrix_rotation_y_3d angle_y r1) as [r2|]; [|discriminate].
  rewrite Hm.
  destruct (rotate_core peaks dims Hs Hw m Hsh) as [out [Hout [H1 [H2 [H3 H4]]]]].
  exists out. unfold rbind in Hout. rewrite Hout.
  split; [reflexivity|]. split; [exact H1|]. split; [exact H2|].
  split; [rewrite H3, Hdt; apply promote_float64_r|].
  apply (group_rotated_ext _ _ _ m); [rewrite Hsh; reflexivity | exact Hfl | exact H4].
Qed.

(** C2 (amended).  For every array of shape [(3, *spatial_dims)] and
    every triple of angles, [rotate_peaks], with the matrix builders of
    batchgenerators, returns an array of the same shape in which the
    3-vector [v] of every spatial location is replaced by [v . R] with
    [R = Rx . Ry . Rz]: the rotation about x is applied first, then the
    one about y, then the one about z. *)
Theorem rotate_peaks_applies_rx_ry_rz peaks dims angle_x angle_y angle_z :
  shape peaks = 3 :: dims -> wf peaks ->
  exists out,
    rotate_peaks peaks angle_x angle_y angle_z = Ok out
    /\ shape out = shape peaks
    /\ forall idx c,
        valid_index dims idx = true -> c < 3 ->
        get out (c :: idx)
        = vec_times peaks 0 idx (rotation_xyz angle_x angle_y angle_z) c.
Proof.
  intros Hs Hw.
  destruct (rotate_peaks_batchgenerators peaks dims angle_x angle_y angle_z Hs Hw)
    as [out [Hout [Hsh [_ [_ Hrot]]]]].
  exists out. split; [exact Hout|]. split; [exact Hsh|].
  intros idx c Hidx Hc. apply (Hrot idx c); [|exact Hc].
  rewrite Hs. exact Hidx.
Qed.

Lemma rotate_peaks_applies_rx_ry_rz_witness :
  shape unit_x_peak = 3 :: [1] /\ wf unit_x_peak /\
  exists out,
    rotate_peaks unit_x_peak 0 0 0 = Ok out
    /\ shape out = shape unit_x_peak
    /\ forall idx c,
        valid_index [1] idx = true -> c < 3 ->
        get out (c :: idx) = vec_times unit_x_peak 0 idx (rotation_xyz 0 0 0) c.
Proof.
  split; [reflexivity|]. split; [reflexivity|].
  apply (rotate_peaks_applies_rx_ry_rz unit_x_peak [1]); reflexivity.
Defined.

(** C2, as stated, fails: with quarter turns about x and y the code
    sends the unit vector along x to the unit vector along z, while
    [v . (Rz . Ry . Rx)] has no z component. *)
Lemma rotate_peaks_not_rz_ry_rx :
  exists out,
    rotate_peaks unit_x_peak (PI / 2) (PI / 2) 0 = Ok out
    /\ get out [2; 0]
       <> vec_times unit_x_peak 0 [0] (rotation_zyx (PI / 2) (PI / 2) 0) 2.
Proof.
  destruct (rotate_peaks_batchgenerators unit_x_peak [1] (PI / 2) (PI / 2) 0
              eq_refl eq_refl) as [out [Hout [_ [_ [_ Hrot]]]]].
  exists out. split; [exact Hout|].
  change (get out [2; 0]) with (get out [0 + 2; 0]).
  rewrite (Hrot [0] 2 eq_refl) by lia.
  unfold vec_times, rotation_xyz, rotation_zyx, mat_mul3,
    rotation_x, rotation_y, rotation_z, matrix3.
  rewrite cos_PI2, sin_PI2, cos_0, sin_0.
  unfold build, get, unit_x_peak. cbn. lra.
Qed.

(** ** Assignment into a contiguous segment *)

Lemma nth_splice {A} (old mid : list A) (off p : nat) (d : A) :
  off + length mid <= length old ->
  nth p (firstn off old ++ mid ++ skipn (off + length mid) old) d
  = if p <? off then nth p old d
    else if p <? off + length mid then nth (p - off) mid d
         else nth p old d.
Proof.
  intros Hlen.
  assert (Hf : length (firstn off old) = off) by (rewrite length_firstn; lia).
  destruct (p <? off) eqn:E1.
  - apply Nat.ltb_lt in E1. rewrite app_nth1 by lia.
    rewrite nth_firstn. rewrite (proj2 (Nat.ltb_lt p off) E1). reflexivity.
  - apply Nat.ltb_ge in E1. rewrite app_nth2 by lia. rewrite Hf.
    destruct (p <? off + length mid) eqn:E2.
    + apply Nat.ltb_lt in E2. rewrite app_nth1 by lia. reflexivity.
    + apply Nat.ltb_ge in E2. rewrite app_nth2 by lia.
      rewrite nth_skipn. f_equal. lia.
Qed.

Lemma length_splice {A} (old mid : list A) (off : nat) :
  off + length mid <= length old ->
  length (firstn off old ++ mid ++ skipn (off + length mid) old) = length old.
Proof.
  intros H. rewrite !length_app, length_firstn, length_skipn. lia.
Qed.

Lemma bcast_ok_refl sh : bcast_ok sh sh = true.
Proof.
  induction sh as [|n sh IH]; simpl; [reflexivity|].
  rewrite Nat.eqb_refl, IH. reflexivity.
Qed.

Lemma bcast_index_valid sh idx :
  valid_index sh idx = true -> bcast_index sh idx = idx.
Proof.
  revert idx. induction sh as [|n sh IH]; intros [|i idx] H; simpl in *;
    try discriminate; [reflexivity|].
  apply andb_prop in H. destruct H as [Hi Hr]. apply Nat.ltb_lt in Hi.
  rewrite (IH _ Hr). destruct (n =? 1) eqn:E; [|reflexivity].
  apply Nat.eqb_eq in E. f_equal. lia.
Qed.

(** Assigning an array to a region of its own shape copies it. *)
Lemma broadcast_get_same (v : ndarray) :
  wf v ->
  exists f, broadcast_get v (shape v) = Some f
            /\ map f (all_indices (shape v)) = flat v.
Proof.
  intros Hw. unfold broadcast_get.
  rewrite Nat.sub_diag. simpl strip_ones.
  replace (strip_ones 0 (shape v)) with (shape v) by (destruct (shape v); reflexivity).
  rewrite Nat.ltb_irrefl, Nat.sub_diag. simpl repeat. simpl app.
  rewrite bcast_ok_refl. eexists. split; [reflexivity|].
  transitivity (flat (build (dt v) (shape v) (get v))); [|apply build_get; exact Hw].
  unfold build, get. cbn [flat].
  apply map_ext_in. intros idx Hin.
  rewrite bcast_index_valid by (apply all_indices_valid; exact Hin). reflexivity.
Qed.

Lemma assign_segment_same (a v : ndarray) (off : nat) :
  wf v ->
  assign_segment a off (shape v) v
  = Ok {| dt := dt a; shape := shape a;
          flat := firstn off (flat a) ++ flat v
                    ++ skipn (off + length (flat v)) (flat a) |}.
Proof.
  intros Hw. unfold assign_segment.
  destruct (broadcast_get_same v Hw) as [f [Hf Hm]].
  rewrite Hf, Hm. rewrite Hw. reflexivity.
Qed.

Lemma assign_segment_shape a off tshape v a' :
  assign_segment a off tshape v = Ok a' -> shape a' = shape a /\ dt a' = dt a.
Proof.
  unfold assign_segment. destruct (broadcast_get v tshape); intros H;
    inversion H; subst; split; reflexivity.
Qed.

(** ** The corrector: all groups *)

Lemma get_cons (a : ndarray) n dims c idx :
  shape a = n :: dims ->
  get a (c :: idx) = nth (c * prod dims + ravel dims idx) (flat a) 0%R.
Proof. intros H. unfold get. rewrite H. reflexivity. Qed.

Lemma get_zeros d sh idx : get (zeros d sh) idx = 0%R.
Proof.
  unfold get, zeros. cbn [flat shape].
  destruct (Nat.lt_ge_cases (ravel sh idx) (prod sh)) as [H|H].
  - apply nth_repeat_lt. exact H.
  - apply nth_overflow. rewrite repeat_length. exact H.
Qed.

Lemma rotate_peaks_empty d dims angle_x angle_y angle_z :
  exists out,
    rotate_peaks {| dt := d; shape := 0 :: dims; flat := [] |}
                 angle_x angle_y angle_z = Ok out
    /\ shape out = 0 :: dims /\ flat out = [].
Proof.
  unfold rotate_peaks.
  destruct (builders_chain angle_x angle_y angle_z) as [m [Hm [Hsh _]]].
  unfold rbind in Hm |- *.
  destruct (create_matrix_rotation_x_3d angle_x (identity 3)) as [r1|]; [|discriminate].
  destruct (create_matrix_rotation_y_3d angle_y r1) as [r2|]; [|discriminate].
  rewrite Hm. cbn [reshape_3_rest flat length Nat.modulo Nat.divmod Nat.eqb fst snd].
  unfold reshape_3_rest. cbn [flat length]. 
  change (0 mod 3 =? 0) with true. cbv iota.
  unfold dot. change (shape (transpose _)) with [0; 3] at 1.
  rewrite Hsh. cbn [Nat.eqb]. cbv iota.
  eexists. split; [reflexivity|]. split; reflexivity.
Qed.

Section Groups.

Variable data : ndarray.
Variable dims : list nat.
Variable G : nat.
Variables angle_x angle_y angle_z : R.
Hypothesis data_shape : shape data = (3 * G) :: dims.
Hypothesis data_wf : wf data.

Let N := prod dims.
Let Rm := rotation_xyz angle_x angle_y angle_z.

Lemma data_length : length (flat data) = 3 * G * N.
Proof. rewrite data_wf, data_shape. reflexivity. Qed.

Local Notation "'ginv'" := (groups_inv data dims G angle_x angle_y angle_z).
Local Notation "'gbody'" := (groups_body data angle_x angle_y angle_z).

Lemma groups_inv_init : ginv 0 (zeros Float64 (shape data)).
Proof.
  split; [reflexivity|]. split; [unfold wf, zeros; simpl; apply repeat_length|].
  split; [reflexivity|]. split; [intros i' H; lia|].
  intros c idx _ _ _. apply get_zeros.
Qed.

Lemma slice0_group i :
  i < G ->
  slice0 data (i * 3) ((i + 1) * 3)
  = Ok {| dt := dt data; shape := 3 :: dims;
          flat := firstn (3 * N) (skipn (i * 3 * N) (flat data)) |}.
Proof.
  intros Hi. unfold slice0. rewrite data_shape.
  rewrite (Nat.min_l (i * 3)) by lia. rewrite (Nat.min_l ((i + 1) * 3)) by lia.
  replace ((i + 1) * 3 - i * 3) with 3 by lia. reflexivity.
Qed.

Lemma slice0_beyond i :
  G <= i ->
  slice0 data (i * 3) ((i + 1) * 3)
  = Ok {| dt := dt data; shape := 0 :: dims; flat := [] |}.
Proof.
  intros Hi. unfold slice0. rewrite data_shape.
  rewrite (Nat.min_r (i * 3)) by lia. rewrite (Nat.min_r ((i + 1) * 3)) by lia.
  rewrite Nat.sub_diag. reflexivity.
Qed.

(** What a splice of [mid] at channel [lo] does to the elements. *)
Lemma get_splice (acc acc' : ndarray) (mid : list R) (lo k : nat) c idx :
  shape acc = shape data -> wf acc -> shape acc' = shape data ->
  length mid = k * N -> lo + k <= 3 * G ->
  flat acc' = firstn (lo * N) (flat acc) ++ mid
                ++ skipn (lo * N + length mid) (flat acc) ->
  valid_index dims idx = true ->
  get acc' (c :: idx)
  = if (lo <=? c) && (c <? lo + k)
    then nth ((c - lo) * N + ravel dims idx) mid 0%R
    else get acc (c :: idx).
Proof.
  intros Hs Hw Hs' Hm Hlo Hf Hidx.
  pose proof (ravel_lt _ _ Hidx) as Hj. fold N in Hj.
  rewrite data_shape in Hs, Hs'.
  rewrite (get_cons acc' _ _ c idx Hs'), (get_cons acc _ _ c idx Hs), Hf. fold N.
  assert (Hlen : length (flat acc) = 3 * G * N)
    by (rewrite Hw, Hs; reflexivity).
  rewrite nth_splice by (rewrite Hm, Hlen; nia).
  rewrite Hm.
  destruct (lo <=? c) eqn:E1; simpl.
  - apply Nat.leb_le in E1.
    rewrite (proj2 (Nat.ltb_ge _ _)) by nia.
    destruct (c <? lo + k) eqn:E2.
    + apply Nat.ltb_lt in E2. rewrite (proj2 (Nat.ltb_lt _ _)) by nia.
      f_equal. nia.
    + apply Nat.ltb_ge in E2. rewrite (proj2 (Nat.ltb_ge _ _)) by nia.
      reflexivity.
  - apply Nat.leb_gt in E1. rewrite (proj2 (Nat.ltb_lt _ _)) by nia.
    reflexivity.
Qed.

Lemma group_get i k idx :
  i < G -> k < 3 -> valid_index dims idx = true ->
  get {| dt := dt data; shape := 3 :: dims;
         flat := firstn (3 * N) (skipn (i * 3 * N) (flat data)) |} (k :: idx)
  = get data ((3 * i + k) :: idx).
Proof.
  intros Hi Hk Hidx. pose proof (ravel_lt _ _ Hidx) as Hj. fold N in Hj.
  set (group := {| dt := dt data; shape := 3 :: dims;
                   flat := firstn (3 * N) (skipn (i * 3 * N) (flat data)) |}).
  rewrite (get_cons group 3 dims k idx eq_refl).
  rewrite (get_cons data _ _ (3 * i + k) idx data_shape).
  unfold group. cbn [flat]. fold N.
  rewrite nth_firstn. rewrite (proj2 (Nat.ltb_lt _ _)) by nia.
  rewrite nth_skipn. f_equal. nia.
Qed.

Lemma groups_step_inside i acc :
  i < G -> ginv i acc ->
  exists acc', gbody i acc = Ok acc' /\ ginv (S i) acc'.
Proof.
  intros Hi [Hs [Hw [Hd [Hrot Hzero]]]].
  unfold groups_body. rewrite (slice0_group i Hi). cbn [rbind].
  set (group := {| dt := dt data; shape := 3 :: dims;
                   flat := firstn (3 * N) (skipn (i * 3 * N) (flat data)) |}).
  assert (Hgw : wf group).
  { unfold wf, group. cbn [flat shape]. rewrite length_firstn, length_skipn, data_length.
    change (prod (3 :: dims)) with (3 * N). nia. }
  destruct (rotate_peaks_batchgenerators group dims angle_x angle_y angle_z eq_refl Hgw)
    as [r [Hr [Hrs [Hrw [_ Hrrot]]]]].
  rewrite Hr. cbn [rbind]. unfold setslice0. rewrite Hs, data_shape.
  rewrite (Nat.min_l (i * 3)) by lia. rewrite (Nat.min_l ((i + 1) * 3)) by lia.
  replace ((i + 1) * 3 - i * 3) with 3 by lia.
  change (3 :: dims) with (shape group). rewrite <- Hrs.
  rewrite (assign_segment_same acc r (i * 3 * prod dims) Hrw).
  eexists. split; [reflexivity|].
  assert (Hrl : length (flat r) = 3 * N)
    by (rewrite Hrw, Hrs; reflexivity).
  set (acc' := {| dt := dt acc; shape := shape acc;
                  flat := firstn (i * 3 * prod dims) (flat acc) ++ flat r
                            ++ skipn (i * 3 * prod dims + length (flat r)) (flat acc) |}).
  assert (Hget : forall c idx, valid_index dims idx = true ->
            get acc' (c :: idx)
            = if (i * 3 <=? c) && (c <? i * 3 + 3)
              then nth ((c - i * 3) * N + ravel dims idx) (flat r) 0%R
              else get acc (c :: idx)).
  { intros c idx Hidx.
    apply (get_splice acc acc' (flat r) (i * 3) 3 c idx); try assumption;
      try reflexivity; lia. }
  split; [exact Hs|]. split.
  { unfold wf, acc'. cbn [flat shape]. rewrite length_splice; [exact Hw|].
    rewrite Hrl, Hw, Hs, data_shape. change (prod (3 * G :: dims)) with (3 * G * N).
    fold N. nia. }
  split; [exact Hd|]. split.
  - intros i' Hi' Hi'G idx c Hidx Hc.
    rewrite data_shape in Hidx. cbn [tl] in Hidx.
    rewrite (Hget _ _ Hidx).
    destruct (Nat.eq_dec i' i) as [->|Hne].
    + rewrite (proj2 (Nat.leb_le _ _)) by lia.
      rewrite (proj2 (Nat.ltb_lt _ _)) by lia. cbn [andb].
      replace (3 * i + c - i * 3) with c by lia.
      unfold N. rewrite <- (get_cons r 3 dims c idx) by (rewrite Hrs; reflexivity).
      change (get r (c :: idx)) with (get r ((0 + c) :: idx)).
      rewrite (Hrrot idx c Hidx Hc).
      unfold vec_times. apply f_equal. apply map_ext_in. intros k Hk.
      apply in_seq in Hk. f_equal. apply group_get; [exact Hi | lia | exact Hidx].
    + rewrite (proj2 (Nat.leb_gt _ _)) by lia. cbn [andb].
      apply (Hrot i'); [lia | exact Hi'G | rewrite data_shape; exact Hidx | exact Hc].
  - intros c idx Hc HcG Hidx. rewrite (Hget _ _ Hidx).
    rewrite (proj2 (Nat.ltb_ge _ _)) by lia. rewrite andb_false_r.
    apply Hzero; [lia | exact HcG | exact Hidx].
Qed.

Lemma groups_step_beyond i acc :
  G <= i -> ginv i acc ->
  exists acc', gbody i acc = Ok acc' /\ ginv (S i) acc'.
Proof.
  intros Hi [Hs [Hw [Hd [Hrot Hzero]]]].
  unfold groups_body. rewrite (slice0_beyond i Hi). cbn [rbind].
  destruct (rotate_peaks_empty (dt data) dims angle_x angle_y angle_z)
    as [r [Hr [Hrs Hrf]]].
  rewrite Hr. cbn [rbind]. unfold setslice0. rewrite Hs, data_shape.
  rewrite (Nat.min_r (i * 3)) by lia. rewrite (Nat.min_r ((i + 1) * 3)) by lia.
  rewrite Nat.sub_diag. rewrite <- Hrs.
  assert (Hrw : wf r) by (unfold wf; rewrite Hrf, Hrs; reflexivity).
  rewrite (assign_segment_same acc r (3 * G * prod dims) Hrw).
  eexists. split; [reflexivity|].
  set (acc' := {| dt := dt acc; shape := shape acc;
                  flat := firstn (3 * G * prod dims) (flat acc) ++ flat r
                            ++ skipn (3 * G * prod dims + length (flat r)) (flat acc) |}).
  assert (Hget : forall c idx, valid_index dims idx = true ->
            get acc' (c :: idx) = get acc (c :: idx)).
  { intros c idx Hidx.
    rewrite (get_splice acc acc' (flat r) (3 * G) 0 c idx); try assumption;
      try reflexivity; try lia; [|rewrite Hrf; reflexivity].
    destruct (3 * G <=? c) eqn:E; [|reflexivity].
    apply Nat.leb_le in E. rewrite (proj2 (Nat.ltb_ge _ _)) by lia. reflexivity. }
  split; [exact Hs|]. split.
  { unfold wf, acc'. cbn [flat shape]. rewrite length_splice; [exact Hw|].
    rewrite Hrf, Hw, Hs, data_shape. change (prod (3 * G :: dims)) with (3 * G * N).
    fold N. cbn [length]. lia. }
  split; [exact Hd|]. split.
  - intros i' Hi' Hi'G idx c Hidx Hc.
    assert (Hidx' : valid_index dims idx = true) by (rewrite data_shape in Hidx; exact Hidx).
    rewrite (Hget _ _ Hidx'). apply (Hrot i'); [lia | exact Hi'G | exact Hidx | exact Hc].
  - intros c idx Hc HcG Hidx. rewrite (Hget _ _ Hidx).
    apply Hzero; [lia | exact HcG | exact Hidx].
Qed.

Lemma groups_step i acc :
  ginv i acc ->
  exists acc', gbody i acc = Ok acc' /\ ginv (S i) acc'.
Proof.
  destruct (Nat.lt_ge_cases i G) as [H|H];
    [apply groups_step_inside | apply groups_step_beyond]; exact H.
Qed.

Lemma rotate_peaks_groups_inv :
  exists out,
    rotate_peaks_groups data angle_x angle_y angle_z = Ok out
    /\ ginv 3 out.
Proof.
  unfold rotate_peaks_groups, range. cbn [seq rfor_each].
  destruct (groups_step 0 _ groups_inv_init) as [a1 [E1 I1]].
  destruct (groups_step 1 _ I1) as [a2 [E2 I2]].
  destruct (groups_step 2 _ I2) as [a3 [E3 I3]].
  rewrite E1. cbn [rbind]. rewrite E2. cbn [rbind]. rewrite E3. cbn [rbind].
  exists a3. split; [reflexivity | exact I3].
Qed.

End Groups.

Lemma rotate_peaks_all_run data angle_x angle_y angle_z out w :
  rotate_peaks_groups data angle_x angle_y angle_z = Ok out ->
  rotate_peaks_all data angle_x angle_y angle_z w
  = Ok (out, {| gen := gen w;
                stdout := stdout w ++ [AngleLine "angle_x" angle_x;
                                       AngleLine "angle_y" angle_y;
                                       AngleLine "angle_z" angle_z] |}).
Proof.
  intros H. unfold rotate_peaks_all, bind, print, lift. rewrite H.
  cbn [gen stdout]. rewrite <- !app_assoc. reflexivity.
Qed.

(** C3 (amended).  For every [G >= 1] and every array of [3 * G]
    channels, [rotate_peaks_all] returns an array of the same shape in
    which each of the first three groups (every group when [G <= 3]) is
    rotated by the one rotation given by the angles, group [i]
    occupying channels [3i .. 3i+2]; channels from 9 on are zero. *)
Theorem rotate_peaks_all_first_three_groups
        data dims G angle_x angle_y angle_z w :
  1 <= G -> shape data = (3 * G) :: dims -> wf data ->
  exists out w',
    rotate_peaks_all data angle_x angle_y angle_z w = Ok (out, w')
    /\ shape out = shape data
    /\ (forall i, i < G -> i < 3 ->
          group_rotated data out (3 * i) (rotation_xyz angle_x angle_y angle_z))
    /\ (forall c idx, 9 <= c -> c < 3 * G -> valid_index dims idx = true ->
          get out (c :: idx) = 0%R).
Proof.
  intros _ Hs Hw.
  destruct (rotate_peaks_groups_inv data dims G angle_x angle_y angle_z Hs Hw)
    as [out [Hout [Hsh [_ [_ [Hrot Hzero]]]]]].
  exists out. eexists. split; [apply rotate_peaks_all_run; exact Hout|].
  split; [exact Hsh|]. split.
  - intros i HiG Hi3. apply Hrot; assumption.
  - intros c idx Hc. apply Hzero. lia.
Qed.

Lemma rotate_peaks_all_first_three_groups_witness :
  1 <= 1 /\ shape unit_x_peak = (3 * 1) :: [1] /\ wf unit_x_peak /\
  exists out w',
    rotate_peaks_all unit_x_peak 0 0 0 world0 = Ok (out, w')
    /\ shape out = shape unit_x_peak
    /\ (forall i, i < 1 -> i < 3 ->
          group_rotated unit_x_peak out (3 * i) (rotation_xyz 0 0 0))
    /\ (forall c idx, 9 <= c -> c < 3 * 1 -> valid_index [1] idx = true ->
          get out (c :: idx) = 0%R).
Proof.
  split; [lia|]. split; [reflexivity|]. split; [reflexivity|].
  apply (rotate_peaks_all_first_three_groups unit_x_peak [1] 1);
    [lia | reflexivity | reflexivity].
Defined.

(** C3, as stated, fails for [G = 4]: the fourth group is not rotated
    (here by the identity rotation, which would keep it) but zeroed. *)
Lemma rotate_peaks_all_drops_fourth_group :
  exists out w',
    rotate_peaks_all four_groups 0 0 0 world0 = Ok (out, w')
    /\ get out [3 * 3 + 0; 0]
       <> vec_times four_groups (3 * 3) [0] (rotation_xyz 0 0 0) 0.
Proof.
  destruct (rotate_peaks_groups_inv four_groups [1] 4 0 0 0 eq_refl eq_refl)
    as [out [Hout [_ [_ [_ [_ Hzero]]]]]].
  exists out. eexists. split; [apply rotate_peaks_all_run; exact Hout|].
  change (3 * 3 + 0) with 9.
  rewrite (Hzero 9 [0]) by (try reflexivity; lia).
  unfold vec_times, rotation_xyz, mat_mul3, rotation_x, rotation_y, rotation_z, matrix3.
  rewrite cos_0, sin_0.
  unfold build, get, four_groups. cbn. lra.
Qed.

(** ** Reasoning about computations *)

Lemma rbind_ok {A B} (r : result A) (k : A -> result B) b :
  rbind r k = Ok b -> exists a, r = Ok a /\ k a = Ok b.
Proof. destruct r as [a|e]; simpl; intros H; [exists a; auto | discriminate]. Qed.

Lemma bind_ok {A B} (m : M A) (k : A -> M B) w b w' :
  bind m k w = Ok (b, w') ->
  exists a w1, m w = Ok (a, w1) /\ k a w1 = Ok (b, w').
Proof.
  unfold bind. destruct (m w) as [[a w1]|e]; intros H; [|discriminate].
  exists a, w1. auto.
Qed.

Lemma lift_ok {A} (r : result A) w a w' :
  lift r w = Ok (a, w') -> r = Ok a /\ w' = w.
Proof.
  unfold lift. destruct r; intros H; inversion H; subst; auto.
Qed.

Lemma lift_rand_ok {A} (r : Rand A) w a w' :
  lift_rand r w = Ok (a, w') ->
  exists g, r (gen w) = Ok (a, g) /\ w' = {| gen := g; stdout := stdout w |}.
Proof.
  unfold lift_rand. destruct (r (gen w)) as [[a' g]|e]; intros H; inversion H; subst.
  exists g. auto.
Qed.

Lemma ret_ok {A} (a : A) w b w' : ret a w = Ok (b, w') -> b = a /\ w' = w.
Proof. unfold ret. intros H; inversion H; auto. Qed.

Lemma random_sample_ok w u w' :
  random_sample w = Ok (u, w') ->
  u = draws (gen w) (pos (gen w))
  /\ w' = {| gen := {| draws := draws (gen w); pos := S (pos (gen w)) |};
             stdout := stdout w |}.
Proof. unfold random_sample. intros H; inversion H; auto. Qed.

Lemma uniform_ok low high w x w' :
  uniform low high w = Ok (x, w') ->
  x = scale_draw low high (draws (gen w) (pos (gen w)))
  /\ w' = {| gen := {| draws := draws (gen w); pos := S (pos (gen w)) |};
             stdout := stdout w |}.
Proof. unfold uniform, bind, random_sample, ret. intros H; inversion H; auto. Qed.

(** Inversion of a successful run, one step at a time. *)
Ltac inv_run :=
  repeat match goal with
    | H : bind _ _ _ = Ok (_, _) |- _ =>
        let a := fresh "v" in let w := fresh "w" in
        let H1 := fresh "Hrun" in let H2 := fresh "Hrun" in
        apply bind_ok in H; destruct H as [a [w [H1 H2]]]
    | H : rbind _ _ = Ok _ |- _ =>
        let a := fresh "v" in
        let H1 := fresh "Hres" in let H2 := fresh "Hres" in
        apply rbind_ok in H; destruct H as [a [H1 H2]]
    | H : lift _ _ = Ok (_, _) |- _ =>
        let H2 := fresh "Hw" in
        apply lift_ok in H; destruct H as [H H2]; try subst
    | H : ret _ _ = Ok (_, _) |- _ =>
        let H2 := fresh "Hw" in
        apply ret_ok in H; destruct H as [H H2]; try subst
    | H : Ok _ = Ok _ |- _ => inversion H; clear H; try subst
    | H : (_, _) = (_, _) |- _ => inversion H; clear H; try subst
    | H : Raise _ = Ok _ |- _ => discriminate H
    | H : raise _ _ = Ok _ |- _ => discriminate H
    end.

Lemma rfor_each_preserves {A S} (P : S -> Prop) (l : list A)
      (body : A -> S -> result S) :
  (forall x s s', In x l -> P s -> body x s = Ok s' -> P s') ->
  forall s s', P s -> rfor_each l body s = Ok s' -> P s'.
Proof.
  induction l as [|x l IH]; intros Hb s s' Hs H; simpl in H.
  - inversion H; subst; exact Hs.
  - apply rbind_ok in H. destruct H as [s1 [H1 H2]].
    apply (IH (fun y t t' Hy => Hb y t t' (or_intror Hy)) s1 s'); [|exact H2].
    apply (Hb x s s1); [left; reflexivity | exact Hs | exact H1].
Qed.

Lemma rfor_each_total {A S} (P : S -> Prop) (l : list A)
      (body : A -> S -> result S) :
  (forall x s, In x l -> P s -> exists s', body x s = Ok s' /\ P s') ->
  forall s, P s -> exists s', rfor_each l body s = Ok s' /\ P s'.
Proof.
  induction l as [|x l IH]; intros Hb s Hs; simpl.
  - exists s. auto.
  - destruct (Hb x s (or_introl eq_refl) Hs) as [s1 [H1 P1]].
    rewrite H1. simpl.
    apply IH; [|exact P1]. intros y t Hy. apply Hb. right; exact Hy.
Qed.

(** A loop invariant that may mention the world. *)
Lemma for_each_preserves {A S} (P : S -> world -> Prop) (l : list A)
      (body : A -> S -> M S) :
  (forall x s w s' w', In x l -> P s w -> body x s w = Ok (s', w') -> P s' w') ->
  forall s w s' w', P s w -> for_each l body s w = Ok (s', w') -> P s' w'.
Proof.
  induction l as [|x l IH]; intros Hb s w s' w' Hs H; simpl in H.
  - apply ret_ok in H. destruct H; subst. exact Hs.
  - apply bind_ok in H. destruct H as [s1 [w1 [H1 H2]]].
    apply (IH (fun y t u t' u' Hy => Hb y t u t' u' (or_intror Hy)) s1 w1 s' w');
      [|exact H2].
    apply (Hb x s w s1 w1); [left; reflexivity | exact Hs | exact H1].
Qed.

(** ** Shapes under indexing and assignment *)

Lemma py_nth_ok {A} (l : list A) i a :
  py_nth l i = Ok a -> nth_error l i = Some a.
Proof. unfold py_nth. destruct (nth_error l i); intros H; inversion H; reflexivity. Qed.

Lemma py_nth_short {A} (l : list A) i :
  length l <= i -> py_nth l i = Raise IndexError.
Proof.
  intros H. unfold py_nth. rewrite (proj2 (nth_error_None l i) H). reflexivity.
Qed.

Lemma setitem0_shape a i v a' :
  setitem0 a i v = Ok a' -> shape a' = shape a /\ dt a' = dt a.
Proof.
  unfold setitem0. destruct (shape a) as [|n rest] eqn:E; [discriminate|].
  destruct (i <? n); [|discriminate].
  intros H. apply assign_segment_shape in H. rewrite E in H. exact H.
Qed.

Lemma setitem2_shape a i j v a' :
  setitem2 a i j v = Ok a' -> shape a' = shape a /\ dt a' = dt a.
Proof.
  unfold setitem2. destruct (shape a) as [|n [|c rest]] eqn:E; try discriminate.
  destruct ((i <? n) && (j <? c)); [|discriminate].
  intros H. apply assign_segment_shape in H. rewrite E in H. exact H.
Qed.



Lemma getitem2_total a n c rest i j :
  shape a = n :: c :: rest -> i < n -> j < c ->
  exists s, getitem2 a i j = Ok s /\ shape s = rest.
Proof.
  intros E Hi Hj. unfold getitem2, getitem0. rewrite E.
  rewrite (proj2 (Nat.ltb_lt i n) Hi). cbn [rbind shape].
  rewrite (proj2 (Nat.ltb_lt j c) Hj). eexists. split; reflexivity.
Qed.

Lemma getitem0_total a n rest i :
  shape a = n :: rest -> i < n ->
  exists s, getitem0 a i = Ok s /\ shape s = rest.
Proof.
  intros E Hi. unfold getitem0. rewrite E.
  rewrite (proj2 (Nat.ltb_lt i n) Hi). eexists. split; reflexivity.
Qed.

Lemma strip_ones_0 s : strip_ones 0 s = s.
Proof. destruct s; reflexivity. Qed.

Lemma broadcast_get_shape (v : ndarray) :
  exists f, broadcast_get v (shape v) = Some f.
Proof.
  unfold broadcast_get. rewrite Nat.sub_diag, strip_ones_0.
  rewrite Nat.ltb_irrefl, Nat.sub_diag. cbn [repeat app].
  rewrite bcast_ok_refl. eexists. reflexivity.
Qed.

Lemma setitem2_total a n c rest i j v :
  shape a = n :: c :: rest -> i < n -> j < c -> shape v = rest ->
  exists a', setitem2 a i j v = Ok a' /\ shape a' = shape a.
Proof.
  intros E Hi Hj Hv. unfold setitem2, assign_segment. rewrite E.
  rewrite (proj2 (Nat.ltb_lt i n) Hi), (proj2 (Nat.ltb_lt j c) Hj). cbn [andb].
  rewrite <- Hv. destruct (broadcast_get_shape v) as [f Hf]. rewrite Hf.
  eexists. split; reflexivity.
Qed.

Lemma setitem0_total a n rest i v :
  shape a = n :: rest -> i < n -> shape v = rest ->
  exists a', setitem0 a i v = Ok a' /\ shape a' = shape a.
Proof.
  intros E Hi Hv. unfold setitem0, assign_segment. rewrite E.
  rewrite (proj2 (Nat.ltb_lt i n) Hi).
  rewrite <- Hv. destruct (broadcast_get_shape v) as [f Hf]. rewrite Hf.
  eexists. split; reflexivity.
Qed.

(** ** Normalisation *)

Lemma std_nonneg a : (0 <= std a)%R.
Proof. unfold std. apply sqrt_pos. Qed.

Lemma divisor_positive a epsilon : (0 < epsilon)%R -> (0 < std a + epsilon)%R.
Proof. intros H. pose proof (std_nonneg a). lra. Qed.

Lemma normalize_total a epsilon :
  (0 < epsilon)%R ->
  exists v, normalize a epsilon = Ok v /\ shape v = shape a.
Proof.
  intros H. unfold normalize.
  rewrite Reqb_false by (pose proof (divisor_positive a epsilon H); lra).
  eexists. split; reflexivity.
Qed.

Lemma normalization_total data per_channel epsilon :
  (0 < epsilon)%R -> 2 <= length (shape data) ->
  exists out,
    zero_mean_unit_variance_normalization data per_channel epsilon = Ok out
    /\ shape out = shape data.
Proof.
  intros Heps Hrank.
  destruct (shape data) as [|n [|c rest]] eqn:E; simpl in Hrank; try lia.
  unfold zero_mean_unit_variance_normalization. rewrite E. cbn [py_nth nth_error rbind].
  apply (rfor_each_total (fun d => shape d = n :: c :: rest)); [|exact E].
  intros b d Hb Hd. apply in_seq in Hb.
  destruct per_channel.
  - rewrite Hd. cbn [py_nth nth_error rbind].
    apply (rfor_each_total (fun d => shape d = n :: c :: rest)); [|exact Hd].
    intros ch d' Hch Hd'. apply in_seq in Hch.
    destruct (getitem2_total d' _ _ _ b ch Hd') as [sub [Hsub Hss]]; [lia | lia |].
    rewrite Hsub. cbn [rbind].
    destruct (normalize_total sub epsilon Heps) as [v [Hv Hvs]].
    rewrite Hv. cbn [rbind].
    destruct (setitem2_total d' _ _ _ b ch v Hd') as [d'' [Hset Hsh]];
      [lia | lia | congruence |].
    exists d''. split; [exact Hset | congruence].
  - destruct (getitem0_total d _ _ b Hd) as [sub [Hsub Hss]]; [lia |].
    rewrite Hsub. cbn [rbind].
    destruct (normalize_total sub epsilon Heps) as [v [Hv Hvs]].
    rewrite Hv. cbn [rbind].
    destruct (setitem0_total d _ _ b v Hd) as [d'' [Hset Hsh]];
      [lia | congruence |].
    exists d''. split; [exact Hset | congruence].
Qed.

(** C10.  For every batch and every [epsilon > 0],
    [zero_mean_unit_variance_normalization] never divides by zero: the
    divisor [std + epsilon] is strictly positive for every sub-array,
    constant ones included, and the function returns an array on every
    batch, with or without [per_channel]. *)
Theorem normalization_never_divides_by_zero data per_channel epsilon :
  (0 < epsilon)%R -> 2 <= length (shape data) ->
  (forall sub, (0 < std sub + epsilon)%R
               /\ normalize sub epsilon <> Raise ZeroDivisionError)
  /\ exists out,
      zero_mean_unit_variance_normalization data per_channel epsilon = Ok out
      /\ shape out = shape data.
Proof.
  intros Heps Hrank. split.
  - intros sub. split; [apply divisor_positive; exact Heps|].
    destruct (normalize_total sub epsilon Heps) as [v [Hv _]].
    rewrite Hv. discriminate.
  - apply normalization_total; assumption.
Qed.

Lemma normalization_never_divides_by_zero_witness :
  (0 < 1 / 10000000)%R /\ 2 <= length (shape one_peak_2d) /\
  ((forall sub, (0 < std sub + 1 / 10000000)%R
                /\ normalize sub (1 / 10000000) <> Raise ZeroDivisionError)
   /\ exists out,
       zero_mean_unit_variance_normalization one_peak_2d true (1 / 10000000)
       = Ok out
       /\ shape out = shape one_peak_2d).
Proof.
  split; [lra|]. split; [simpl; lia|].
  apply (normalization_never_divides_by_zero one_peak_2d true (1 / 10000000));
    [lra | simpl; lia].
Defined.

(** ** Sampling of the rotation angles *)

Lemma scale_draw_between low high u :
  (0 <= u < 1)%R -> between low high (scale_draw low high u).
Proof.
  intros [H0 H1]. unfold between, scale_draw, Rmin, Rmax.
  destruct (Rle_dec low high); split; nra.
Qed.

Lemma sample_angle_taken range w :
  exists a w1, sample_angle range w = Ok (a, w1) /\ angle_taken range w a w1.
Proof.
  unfold sample_angle. destruct (Req_dec_T (fst range) (snd range)) as [E|E].
  - rewrite (Reqb_true _ _ E). exists (fst range), w. split; [reflexivity|].
    split; [auto | intros C; contradiction].
  - rewrite (Reqb_false _ _ E).
    exists (scale_draw (fst range) (snd range) (next_draw w)), (advance w).
    split; [reflexivity|]. split; [intros C; contradiction|].
    intros _. split; [reflexivity|]. split; [reflexivity|].
    apply scale_draw_between.
Qed.

Lemma sample_angle_ok range w a w1 :
  sample_angle range w = Ok (a, w1) -> angle_taken range w a w1.
Proof.
  intros H. destruct (sample_angle_taken range w) as [a' [w' [H' T]]].
  rewrite H in H'. inversion H'; subst. exact T.
Qed.

Section RotationStep.

Context {prims : Primitives}.
Variable cfg : spatial_params.

(** C6.  When the rotation step of [augment_spatial] fires, each angle
    whose range has equal bounds is that bound, taken without reading
    the generator, and any other angle is drawn from its range; in 3D
    the three angles are obtained this way, in this order, and passed
    to [rotate_coords_3d]; in 2D only [angle_x] is sampled and passed
    to [rotate_coords_2d]. *)
Theorem rotation_step_angles dim coords modified angles w coords' modified' angles' w' :
  rotation_fires cfg w ->
  rotation_step cfg dim coords modified angles w
  = Ok (coords', modified', angles', w') ->
  modified' = true
  /\ exists ax w1,
      angle_taken (angle_x cfg) (advance w) ax w1
      /\ if dim =? 3
         then exists ay w2 az,
             angle_taken (angle_y cfg) w1 ay w2
             /\ angle_taken (angle_z cfg) w2 az w'
             /\ rotate_coords_3d coords ax ay az = Ok coords'
             /\ angles' = (Some ax, Some ay, Some az)
         else w' = w1
              /\ rotate_coords_2d coords ax = Ok coords'
              /\ angles' = (Some ax, snd (fst angles), snd angles).
Proof.
  unfold rotation_fires, rotation_step. intros Hf H.
  apply bind_ok in H. destruct H as [u [w0 [Hu H]]].
  apply random_sample_ok in Hu. destruct Hu as [-> ->].
  fold (next_draw w) in H. fold (advance w) in H. rewrite Hf in H.
  apply bind_ok in H. destruct H as [ax [w1 [Hax H]]].
  apply sample_angle_ok in Hax.
  destruct (dim =? 3).
  - apply bind_ok in H. destruct H as [ay [w2 [Hay H]]].
    apply bind_ok in H. destruct H as [az [w3 [Haz H]]].
    apply sample_angle_ok in Hay. apply sample_angle_ok in Haz.
    inv_run. split; [reflexivity|].
    exists ax, w1. split; [exact Hax|].
    exists ay, w2, az. auto.
  - inv_run. split; [reflexivity|].
    exists ax, w1. auto.
Qed.

End RotationStep.

(** Evaluation of a run on concrete inputs: comparisons on reals are
    decided by [lra], everything else by computation. *)
Ltac decide_comparison :=
  first [ rewrite Rltb_true by lra
        | rewrite Rltb_false by lra
        | rewrite Reqb_true by lra
        | rewrite Reqb_false by lra
        | rewrite Rleb_true by lra
        | rewrite Rleb_false by lra ].

Create HintDb run discriminated.
#[local] Hint Unfold bind lift lift_rand ret raise print random_sample
  uniform : run.

Ltac compute_run :=
  repeat first
    [ decide_comparison
    | progress cbn -[Rltb Reqb Rleb cos sin IZR Rmax Rmin up round2
                     round_half_even PI]
    | progress autounfold with run ].

Lemma rotation_fires_fixed : rotation_fires fixed_rotation_params world0.
Proof. unfold rotation_fires, next_draw. compute_run. reflexivity. Qed.

Lemma rotation_step_fixed_run coords :
  rotation_step (prims := stand_in_primitives) fixed_rotation_params 3
                coords false unbound_angles world0
  = Ok (coords, true, (Some (1 / 2), Some (1 / 2), Some (1 / 2))%R,
        advance world0).
Proof.
  unfold rotation_step, sample_angle, bind, random_sample, lift, ret.
  compute_run. reflexivity.
Qed.

Lemma rotation_step_angles_witness :
  rotation_fires fixed_rotation_params world0
  /\ rotation_step (prims := stand_in_primitives) fixed_rotation_params 3
                   (zeros Float64 [3; 1; 1; 1]) false unbound_angles world0
     = Ok (zeros Float64 [3; 1; 1; 1], true,
           (Some (1 / 2), Some (1 / 2), Some (1 / 2))%R, advance world0)
  /\ (true = true
      /\ exists ax w1,
          angle_taken (angle_x fixed_rotation_params) (advance world0) ax w1
          /\ exists ay w2 az,
              angle_taken (angle_y fixed_rotation_params) w1 ay w2
              /\ angle_taken (angle_z fixed_rotation_params) w2 az
                             (advance world0)
              /\ rotate_coords_3d (Primitives := stand_in_primitives)
                   (zeros Float64 [3; 1; 1; 1]) ax ay az
                 = Ok (zeros Float64 [3; 1; 1; 1])
              /\ (Some (1 / 2), Some (1 / 2), Some (1 / 2))%R
                 = (Some ax, Some ay, Some az)).
Proof.
  split; [exact rotation_fires_fixed|].
  split; [apply rotation_step_fixed_run|].
  apply (rotation_step_angles (prims := stand_in_primitives)
           fixed_rotation_params 3 (zeros Float64 [3; 1; 1; 1]) false
           unbound_angles world0);
    [exact rotation_fires_fixed | apply rotation_step_fixed_run].
Defined.

(** ** Sampling of the scale factor *)

Lemma sample_scale_run scale w :
  sample_scale scale w
  = Ok (if Rltb (next_draw w) (1 / 2) && Rltb (fst scale) 1
        then scale_draw (fst scale) 1 (next_draw (advance w))
        else scale_draw (Rmax (fst scale) 1) (snd scale) (next_draw (advance w)),
        advance (advance w)).
Proof.
  unfold sample_scale, bind, random_sample. fold (next_draw w). fold (advance w).
  destruct (Rltb (next_draw w) (1 / 2) && Rltb (fst scale) 1); reflexivity.
Qed.

(** The two branches of the scaling step: when the coin falls low
    (below one half) and [scale[0] < 1], the factor lies in
    [[scale[0], 1)]; otherwise it is drawn between [max(scale[0], 1)]
    and [scale[1]], and lies in [[max(scale[0], 1), scale[1]]] when
    that interval is not empty. *)
Lemma scale_factor_branches scale w :
  (0 <= next_draw (advance w) < 1)%R ->
  exists sc,
    sample_scale scale w = Ok (sc, advance (advance w))
    /\ ((next_draw w < 1 / 2 /\ fst scale < 1)%R ->
        sc = scale_draw (fst scale) 1 (next_draw (advance w))
        /\ (fst scale <= sc < 1)%R)
    /\ (~ (next_draw w < 1 / 2 /\ fst scale < 1)%R ->
        sc = scale_draw (Rmax (fst scale) 1) (snd scale) (next_draw (advance w))
        /\ ((Rmax (fst scale) 1 <= snd scale)%R ->
            (Rmax (fst scale) 1 <= sc <= snd scale)%R)).
Proof.
  intros [H0 H1]. rewrite sample_scale_run. eexists. split; [reflexivity|].
  set (u := next_draw (advance w)) in *.
  split.
  - intros [Hc Hs]. rewrite (Rltb_true _ _ Hc), (Rltb_true _ _ Hs). cbn [andb].
    split; [reflexivity|]. unfold scale_draw. split; nra.
  - intros Hn.
    assert (E : Rltb (next_draw w) (1 / 2) && Rltb (fst scale) 1 = false).
    { destruct (Rltb (next_draw w) (1 / 2)) eqn:E1;
        destruct (Rltb (fst scale) 1) eqn:E2; try reflexivity.
      exfalso. apply Hn. split; apply Rltb_iff; assumption. }
    rewrite E. split; [reflexivity|].
    intros Hle. unfold scale_draw. split; nra.
Qed.

(** C7.  The scaling step misses the ranges that lie below 1: for
    every range with [scale[0] <= scale[1] < 1], whenever the coin
    falls high the factor is drawn between 1 and [scale[1]] and ends
    in [(scale[1], 1]]: above the configured range, and outside the
    interval [[max(scale[0], 1), scale[1]]] of the claim, which is
    empty there.  The code guards the ranges above 1 with
    [max(scale[0], 1)] and has no such guard for [scale[1]]. *)
Theorem scale_factor_leaves_range_below_one scale w :
  (fst scale <= snd scale < 1)%R ->
  (1 / 2 <= next_draw w)%R ->
  (0 <= next_draw (advance w) < 1)%R ->
  exists sc,
    sample_scale scale w = Ok (sc, advance (advance w))
    /\ sc = scale_draw 1 (snd scale) (next_draw (advance w))
    /\ (snd scale < sc <= 1)%R
    /\ ~ (fst scale <= sc <= snd scale)%R
    /\ ~ (Rmax (fst scale) 1 <= sc <= snd scale)%R.
Proof.
  intros [Hlo Hhi] Hcoin [H0 H1]. rewrite sample_scale_run.
  rewrite (Rltb_false (next_draw w) (1 / 2)) by lra. cbn [andb].
  rewrite Rmax_right by lra.
  eexists. split; [reflexivity|]. split; [reflexivity|].
  set (u := next_draw (advance w)) in *.
  assert (Hsc : (snd scale < scale_draw 1 (snd scale) u <= 1)%R)
    by (unfold scale_draw; split; nra).
  split; [exact Hsc|]. split; lra.
Qed.

Lemma scale_factor_leaves_range_below_one_witness :
  sample_scale (1 / 2, 4 / 5)%R (world_of_list [7 / 10; 1 / 2]%R)
  = Ok ((9 / 10)%R, advance (advance (world_of_list [7 / 10; 1 / 2]%R)))
  /\ ~ (1 / 2 <= 9 / 10 <= 4 / 5)%R
  /\ ~ (Rmax (1 / 2) 1 <= 9 / 10 <= 4 / 5)%R.
Proof.
  destruct (scale_factor_leaves_range_below_one
              (1 / 2, 4 / 5)%R (world_of_list [7 / 10; 1 / 2]%R))
    as [sc [Hrun [Hsc [_ [Hout Hclaim]]]]];
    try (unfold next_draw;
         cbn [world_of_list rng_of_list advance gen draws pos nth fst snd];
         lra).
  assert (E : sc = (9 / 10)%R).
  { rewrite Hsc. unfold scale_draw, next_draw.
    cbn [world_of_list rng_of_list advance gen draws pos nth fst snd]. lra. }
  rewrite E in Hrun, Hout, Hclaim.
  split; [exact Hrun|]. split; [exact Hout | exact Hclaim].
Defined.

(** ** Linear down- and up-sampling *)


Lemma corner_shape a lims b :
  corner a lims = Ok b -> shape b = clamp_shape lims (shape a).
Proof.
  unfold corner. destruct (length (shape a) <? length lims); intros H;
    inversion H; reflexivity.
Qed.

Lemma set_corner_shape a lims v b :
  set_corner a lims v = Ok b -> shape b = shape a.
Proof.
  unfold set_corner. destruct (length (shape a) <? length lims); [discriminate|].
  destruct (broadcast_get v (clamp_shape lims (shape a))); intros H;
    inversion H; reflexivity.
Qed.

Lemma first_dims_all a d lims :
  length (shape a) = d -> first_dims a d = Ok lims -> lims = shape a.
Proof.
  unfold first_dims. intros <-. rewrite Nat.ltb_irrefl, firstn_all.
  intros H; inversion H; reflexivity.
Qed.

(** The image written back has the shape of the image read. *)
Lemma restore_shape_shape d img img_up p :
  length (shape img) = d -> restore_shape d img img_up = Ok p ->
  shape p = shape img.
Proof.
  unfold restore_shape. intros Hd H. inv_run.
  match goal with
  | Hs : set_corner _ _ _ = Ok _ |- _ => apply set_corner_shape in Hs; rewrite Hs
  end.
  cbn [shape zeros].
  match goal with
  | Hf : first_dims img d = Ok ?l |- _ => apply (first_dims_all img d l Hd Hf)
  end.
Qed.

Section DownsamplingFacts.

Context {scipy : Scipy}.

Lemma downsample_channel_shape dim z i j data data' :
  downsample_channel dim z i j data = Ok data' -> shape data' = shape data.
Proof.
  unfold downsample_channel. intros H. inv_run.
  destruct (Reqb z 0); [discriminate|]. inv_run.
  destruct (dim =? 3).
  - inv_run.
    match goal with
    | Hs : setitem2 _ _ _ _ = Ok _ |- _ => apply setitem2_shape in Hs; apply Hs
    end.
  - destruct (dim =? 2); [|discriminate].
    inv_run.
    match goal with
    | Hs : setitem2 _ _ _ _ = Ok _ |- _ => apply setitem2_shape in Hs; apply Hs
    end.
Qed.

Lemma downsample_sample_shape dim zr i data w data' w' :
  downsample_sample dim zr i data w = Ok (data', w') ->
  shape data' = shape data.
Proof.
  unfold downsample_sample. intros H. inv_run.
  match goal with
  | Hl : for_each _ _ _ _ = Ok _ |- _ => revert Hl
  end.
  apply (for_each_preserves (fun d _ => shape d = shape data)); [|reflexivity].
  intros j d w1 d' w1' _ Hd Hb. inv_run.
  apply downsample_channel_shape in Hb. congruence.
Qed.

Lemma downsampling_shape data zr w out w' :
  augment_linear_downsampling_scipy data zr w = Ok (out, w') ->
  shape out = shape data.
Proof.
  unfold augment_linear_downsampling_scipy. cbn [fst snd].
  destruct (Rleb (snd zr + 1 / 1000000) (fst zr)); [discriminate|].
  intros H. inv_run.
  match goal with
  | Hl : for_each _ _ _ _ = Ok _ |- _ => revert Hl
  end.
  apply (for_each_preserves (fun d _ => shape d = shape data)); [|reflexivity].
  intros i d w1 d' w1' _ Hd Hb.
  apply downsample_sample_shape in Hb. congruence.
Qed.

Lemma downsampling_rejects data zr w :
  (snd zr + 1 / 1000000 <= fst zr)%R ->
  augment_linear_downsampling_scipy data zr w = Raise zoom_range_error.
Proof.
  intros H. unfold augment_linear_downsampling_scipy. cbn [fst snd].
  rewrite (Rleb_true _ _ H). reflexivity.
Qed.

End DownsamplingFacts.


(** *** Which errors the resampling can raise

    After the range check, the configuration error can only come
    from [zoom] itself: everything else fails with an [IndexError],
    a [ZeroDivisionError] or a [ValueError] of another message. *)











Section RangeError.

Context {scipy : Scipy}.

Hypothesis zoom_error : forall a z order, zoom a z order <> Raise zoom_range_error.




End RangeError.






(** ** The engine: what is printed *)

Lemma quiet_ret {A} (a : A) : quiet (ret a).
Proof. intros w b w' H. apply ret_ok in H. destruct H; subst; reflexivity. Qed.

Lemma quiet_lift {A} (r : result A) : quiet (lift r).
Proof. intros w b w' H. apply lift_ok in H. destruct H; subst; reflexivity. Qed.

Lemma quiet_lift_rand {A} (r : Rand A) : quiet (lift_rand r).
Proof.
  intros w b w' H. apply lift_rand_ok in H. destruct H as [g [_ ->]]. reflexivity.
Qed.

Lemma quiet_raise {A} e : quiet (@raise A e).
Proof. intros w b w' H. discriminate H. Qed.

Lemma quiet_random_sample : quiet random_sample.
Proof. intros w b w' H. apply random_sample_ok in H. destruct H as [_ ->]. reflexivity. Qed.

Lemma quiet_bind {A B} (m : M A) (k : A -> M B) :
  quiet m -> (forall a, quiet (k a)) -> quiet (bind m k).
Proof.
  intros Hm Hk w b w' H. apply bind_ok in H. destruct H as [a [w1 [H1 H2]]].
  rewrite (Hk a _ _ _ H2). apply (Hm _ _ _ H1).
Qed.

Lemma quiet_uniform low high : quiet (uniform low high).
Proof. apply quiet_bind; [apply quiet_random_sample | intros; apply quiet_ret]. Qed.

Lemma quiet_for_each {A S} (l : list A) (body : A -> S -> M S) s :
  (forall x t, quiet (body x t)) -> quiet (for_each l body s).
Proof.
  intros Hb. revert s. induction l as [|x l IH]; intros s; simpl.
  - apply quiet_ret.
  - apply quiet_bind; [apply Hb | intros; apply IH].
Qed.

Ltac quiet_step :=
  first [ apply quiet_ret | apply quiet_lift | apply quiet_lift_rand
        | apply quiet_raise | apply quiet_random_sample | apply quiet_uniform
        | apply quiet_for_each; intros
        | apply quiet_bind; [|intros]
        | match goal with
          | |- quiet (if ?b then _ else _) => destruct b
          | |- quiet (match ?x with _ => _ end) => destruct x
          end ].

Ltac quiet_all := repeat quiet_step.

Lemma quiet_sample_angle range : quiet (sample_angle range).
Proof. unfold sample_angle. quiet_all. Qed.

Lemma quiet_sample_scale scale : quiet (sample_scale scale).
Proof. unfold sample_scale. quiet_all. Qed.

Section EnginePrints.

Context {prims : Primitives}.
Variable data : ndarray.
Variable seg : option ndarray.
Variable patch_size : list nat.
Variable cfg : spatial_params.

Lemma quiet_elastic_step coords m : quiet (elastic_step cfg coords m).
Proof. unfold elastic_step. quiet_all. Qed.

Lemma quiet_rotation_step dim coords m angles :
  quiet (rotation_step cfg dim coords m angles).
Proof.
  unfold rotation_step.
  apply quiet_bind; [apply quiet_random_sample | intros u].
  destruct (Rltb u (p_rot_per_sample cfg) && do_rotation cfg); [|apply quiet_ret].
  apply quiet_bind; [apply quiet_sample_angle | intros ax].
  destruct (dim =? 3).
  - apply quiet_bind; [apply quiet_sample_angle | intros ay].
    apply quiet_bind; [apply quiet_sample_angle | intros az].
    quiet_all.
  - quiet_all.
Qed.

Lemma quiet_scale_step coords m : quiet (scale_step cfg coords m).
Proof.
  unfold scale_step.
  apply quiet_bind; [apply quiet_random_sample | intros u].
  destruct (Rltb u (p_scale_per_sample cfg) && do_scale cfg); [|apply quiet_ret].
  apply quiet_bind; [apply quiet_sample_scale | intros sc].
  quiet_all.
Qed.

Lemma quiet_recenter dim dist coords : quiet (recenter data cfg dim dist coords).
Proof. unfold recenter. quiet_all. Qed.

Lemma quiet_crop dim dist i dr sr :
  quiet (crop data seg patch_size cfg dim dist i dr sr).
Proof. unfold crop. quiet_all. Qed.

(** The corrector step prints the three fixed angles. *)
Lemma correct_peaks_prints i dr w dr' w' :
  correct_peaks i dr w = Ok (dr', w') ->
  stdout w' = stdout w ++ angle_lines 1 0 0.
Proof.
  unfold correct_peaks. intros H.
  apply bind_ok in H. destruct H as [cur [w1 [H1 H]]].
  apply lift_ok in H1. destruct H1 as [_ ->].
  apply bind_ok in H. destruct H as [rot [w2 [H2 H]]].
  apply lift_ok in H. destruct H as [_ ->].
  unfold rotate_peaks_all, bind, print, lift in H2. cbn [gen stdout] in H2.
  destruct (rotate_peaks_groups cur 1 0 0); inversion H2; subst.
  cbn [stdout]. rewrite <- !app_assoc. reflexivity.
Qed.

Lemma augment_sample_prints dim dist i l w l' w' :
  augment_sample data seg patch_size cfg dim dist i l w = Ok (l', w') ->
  stdout w' = stdout w ++ angle_lines 1 0 0.
Proof.
  unfold augment_sample. intros H.
  apply bind_ok in H. destruct H as [coords [w1 [H1 H]]].
  apply quiet_lift in H1.
  apply bind_ok in H. destruct H as [[coords2 m2] [w2 [H2 H]]].
  apply quiet_elastic_step in H2.
  apply bind_ok in H. destruct H as [[[coords3 m3] [[ax ay] az]] [w3 [H3 H]]].
  apply quiet_rotation_step in H3.
  apply bind_ok in H. destruct H as [[coords4 m4] [w4 [H4 H]]].
  apply quiet_scale_step in H4.
  apply bind_ok in H. destruct H as [[dr sr] [w5 [H5 H]]].
  assert (Hq : stdout w5 = stdout w4).
  { destruct m4.
    - apply bind_ok in H5. destruct H5 as [coords5 [w6 [H6 H5]]].
      apply quiet_recenter in H6. apply quiet_lift in H5. congruence.
    - apply quiet_crop in H5. exact H5. }
  apply bind_ok in H. destruct H as [dr' [w6 [H6 H]]].
  apply correct_peaks_prints in H6.
  apply ret_ok in H. destruct H as [_ ->].
  rewrite H6. congruence.
Qed.

Lemma for_each_prints {S} (l : list nat) (body : nat -> S -> M S)
      (lines : list out_line) :
  (forall x s w s' w', body x s w = Ok (s', w') ->
                       stdout w' = stdout w ++ lines) ->
  forall s w s' w',
    for_each l body s w = Ok (s', w') ->
    stdout w' = stdout w ++ flat_map (fun _ => lines) l.
Proof.
  intros Hb. induction l as [|x l IH]; intros s w s' w' H; simpl in H.
  - apply ret_ok in H. destruct H as [_ ->]. simpl. rewrite app_nil_r. reflexivity.
  - apply bind_ok in H. destruct H as [s1 [w1 [H1 H2]]].
    rewrite (IH _ _ _ _ H2), (Hb _ _ _ _ _ H1). simpl.
    rewrite <- app_assoc. reflexivity.
Qed.

Lemma augment_spatial_locals_prints w l w' :
  augment_spatial_locals data seg patch_size cfg w = Ok (l, w') ->
  exists n, nth_error (shape data) 0 = Some n
            /\ stdout w' = stdout w
                 ++ flat_map (fun _ => angle_lines 1 0 0) (range n).
Proof.
  unfold augment_spatial_locals. intros H.
  apply bind_ok in H. destruct H as [sr [w1 [H1 H]]].
  apply lift_ok in H1. destruct H1 as [_ ->].
  apply bind_ok in H. destruct H as [dr [w2 [H2 H]]].
  apply lift_ok in H2. destruct H2 as [_ ->].
  apply bind_ok in H. destruct H as [n [w3 [H3 H]]].
  apply lift_ok in H3. destruct H3 as [Hn ->].
  exists n. split; [apply py_nth_ok; exact Hn|].
  revert H. apply for_each_prints.
  intros x s w0 s' w0'. apply augment_sample_prints.
Qed.

End EnginePrints.

(** ** The engine: shapes *)

Lemma same_form_refl a : same_form a a.
Proof. split; reflexivity. Qed.

Lemma same_form_trans a b c : same_form a b -> same_form b c -> same_form a c.
Proof. intros [H1 H2] [H3 H4]. split; congruence. Qed.

Lemma same_form_opt_refl a : same_form_opt a a.
Proof. destruct a; simpl; [apply same_form_refl | exact I]. Qed.

Lemma same_form_opt_trans a b c :
  same_form_opt a b -> same_form_opt b c -> same_form_opt a c.
Proof.
  destruct a, b, c; simpl; try tauto. apply same_form_trans.
Qed.

Lemma setitem0_same_form a i v a' : setitem0 a i v = Ok a' -> same_form a a'.
Proof. intros H. apply setitem0_shape in H. exact H. Qed.

Lemma setitem2_same_form a i j v a' : setitem2 a i j v = Ok a' -> same_form a a'.
Proof. intros H. apply setitem2_shape in H. exact H. Qed.

Lemma alloc_result_shape a patch_size r :
  length patch_size = 2 \/ length patch_size = 3 ->
  alloc_result a patch_size = Ok r ->
  exists n c rest,
    shape a = n :: c :: rest /\ shape r = n :: c :: patch_size
    /\ dt r = Float32.
Proof.
  intros Hlen H. unfold alloc_result in H.
  destruct (shape a) as [|n [|c rest]] eqn:E;
    try (destruct (length patch_size =? 2); discriminate H).
  exists n, c, rest. split; [reflexivity|].
  destruct patch_size as [|p0 [|p1 [|p2 [|p3 ps]]]]; simpl in Hlen;
    try (exfalso; lia); cbn in H; inversion H; subst; split; reflexivity.
Qed.

Section EngineShapes.

Context {prims : Primitives}.
Variable data : ndarray.
Variable seg : option ndarray.
Variable patch_size : list nat.
Variable cfg : spatial_params.

Lemma resample_same_form i coords dr sr dr' sr' :
  resample data seg cfg i coords dr sr = Ok (dr', sr') ->
  same_form dr dr' /\ same_form_opt sr sr'.
Proof.
  unfold resample. intros H.
  apply rbind_ok in H. destruct H as [channels [_ H]].
  apply rbind_ok in H. destruct H as [dr1 [Hd H]].
  assert (Hdr : same_form dr dr1).
  { revert Hd. apply (rfor_each_preserves (same_form dr)); [|apply same_form_refl].
    intros ch s s' _ Hs Hb. inv_run.
    eapply same_form_trans; [exact Hs|]. eapply setitem2_same_form; eassumption. }
  destruct seg as [sg|].
  - apply rbind_ok in H. destruct H as [seg_channels [_ H]].
    apply rbind_ok in H. destruct H as [sr1 [Hsr H]].
    inversion H; subst. split; [exact Hdr|].
    revert Hsr.
    apply (rfor_each_preserves (same_form_opt sr)); [|apply same_form_opt_refl].
    intros ch s s' _ Hs Hb. destruct s as [s0|]; [|discriminate].
    inv_run. eapply same_form_opt_trans; [exact Hs|].
    simpl. eapply setitem2_same_form; eassumption.
  - inversion H; subst. split; [exact Hdr | apply same_form_opt_refl].
Qed.

Lemma crop_same_form dim dist i dr sr w dr' sr' w' :
  crop data seg patch_size cfg dim dist i dr sr w = Ok (dr', sr', w') ->
  same_form dr dr' /\ same_form_opt sr sr'.
Proof.
  unfold crop. intros H.
  apply bind_ok in H. destruct H as [s [w1 [_ H]]].
  apply bind_ok in H. destruct H as [[d s'] [w2 [_ H]]].
  apply bind_ok in H. destruct H as [d0 [w3 [_ H]]].
  apply bind_ok in H. destruct H as [dr1 [w4 [Hset H]]].
  apply lift_ok in Hset. destruct Hset as [Hset _].
  apply setitem0_same_form in Hset.
  destruct seg as [sg|].
  - destruct s' as [s0|]; [|discriminate].
    destruct sr as [sr0|]; [|discriminate].
    inv_run. split; [exact Hset|]. simpl.
    eapply setitem0_same_form; eassumption.
  - apply ret_ok in H. destruct H as [H _]. inversion H; subst.
    split; [exact Hset | apply same_form_opt_refl].
Qed.

Lemma correct_peaks_same_form i dr w dr' w' :
  correct_peaks i dr w = Ok (dr', w') -> same_form dr dr'.
Proof.
  unfold correct_peaks. intros H.
  apply bind_ok in H. destruct H as [cur [w1 [_ H]]].
  apply bind_ok in H. destruct H as [rot [w2 [_ H]]].
  apply lift_ok in H. destruct H as [H _].
  eapply setitem0_same_form; eassumption.
Qed.

Lemma augment_sample_same_form dim dist i l w l' w' :
  augment_sample data seg patch_size cfg dim dist i l w = Ok (l', w') ->
  same_form (data_result l) (data_result l')
  /\ same_form_opt (seg_result l) (seg_result l').
Proof.
  unfold augment_sample. intros H.
  apply bind_ok in H. destruct H as [coords [w1 [_ H]]].
  apply bind_ok in H. destruct H as [[coords2 m2] [w2 [_ H]]].
  apply bind_ok in H. destruct H as [[[coords3 m3] [[ax ay] az]] [w3 [_ H]]].
  apply bind_ok in H. destruct H as [[coords4 m4] [w4 [_ H]]].
  apply bind_ok in H. destruct H as [[dr sr] [w5 [H5 H]]].
  assert (Hf : same_form (data_result l) dr /\ same_form_opt (seg_result l) sr).
  { destruct m4.
    - apply bind_ok in H5. destruct H5 as [coords5 [w6 [_ H5]]].
      apply lift_ok in H5. destruct H5 as [H5 _].
      eapply resample_same_form; eassumption.
    - eapply crop_same_form; eassumption. }
  apply bind_ok in H. destruct H as [dr' [w6 [H6 H]]].
  apply correct_peaks_same_form in H6.
  apply ret_ok in H. destruct H as [-> _]. cbn [data_result seg_result].
  destruct Hf as [Hf1 Hf2]. split; [|exact Hf2].
  eapply same_form_trans; eassumption.
Qed.

Lemma augment_spatial_locals_form w l w' :
  augment_spatial_locals data seg patch_size cfg w = Ok (l, w') ->
  exists dr0 sr0,
    alloc_result data patch_size = Ok dr0
    /\ alloc_seg_result seg patch_size = Ok sr0
    /\ same_form dr0 (data_result l) /\ same_form_opt sr0 (seg_result l).
Proof.
  unfold augment_spatial_locals. intros H.
  apply bind_ok in H. destruct H as [sr [w1 [H1 H]]].
  apply lift_ok in H1. destruct H1 as [Hsr ->].
  apply bind_ok in H. destruct H as [dr [w2 [H2 H]]].
  apply lift_ok in H2. destruct H2 as [Hdr ->].
  apply bind_ok in H. destruct H as [n [w3 [H3 H]]].
  apply lift_ok in H3. destruct H3 as [_ ->].
  exists dr, sr. split; [exact Hdr|]. split; [exact Hsr|].
  revert H.
  apply (for_each_preserves
           (fun l _ => same_form dr (data_result l)
                       /\ same_form_opt sr (seg_result l))).
  - intros x s w0 s' w0' _ [Hs1 Hs2] Hb.
    apply augment_sample_same_form in Hb. destruct Hb as [Hb1 Hb2].
    split; [eapply same_form_trans | eapply same_form_opt_trans]; eassumption.
  - cbn [data_result seg_result].
    split; [apply same_form_refl | apply same_form_opt_refl].
Qed.

(** C5.  Whenever [augment_spatial] returns, on the resample path as
    on the crop path, the data output has shape [(n, c, *patch_size)]
    and a floating-point dtype, [n] and [c] being the sample and
    channel counts of the input; the segmentation output is [None]
    exactly when the input segmentation is, and otherwise has shape
    [(n, c_seg, *patch_size)] and a floating-point dtype. *)
Theorem augment_spatial_output_shapes w data_out seg_out w' :
  length patch_size = 2 \/ length patch_size = 3 ->
  augment_spatial data seg patch_size cfg w = Ok (data_out, seg_out, w') ->
  (exists n c rest,
      shape data = n :: c :: rest
      /\ shape data_out = n :: c :: patch_size
      /\ is_floating (dt data_out) = true)
  /\ match seg, seg_out with
     | None, None => True
     | Some sg, Some so =>
         exists n c rest,
           shape sg = n :: c :: rest
           /\ shape so = n :: c :: patch_size
           /\ is_floating (dt so) = true
     | _, _ => False
     end.
Proof.
  intros Hlen H. unfold augment_spatial in H.
  apply bind_ok in H. destruct H as [l [w1 [Hl H]]].
  apply ret_ok in H. destruct H as [H _]. inversion H; subst.
  apply augment_spatial_locals_form in Hl.
  destruct Hl as [dr0 [sr0 [Hdr [Hsr [[Hd1 Hd2] Hs]]]]].
  split.
  - destruct (alloc_result_shape data patch_size dr0 Hlen Hdr)
      as [n [c [rest [E1 [E2 E3]]]]].
    exists n, c, rest. split; [exact E1|]. split; [congruence|].
    rewrite Hd2, E3. reflexivity.
  - unfold alloc_seg_result in Hsr. destruct seg as [sg|].
    + apply rbind_ok in Hsr. destruct Hsr as [r [Hr Hsr]].
      inversion Hsr; subst. simpl in Hs.
      destruct (seg_result l) as [so|]; [|contradiction].
      destruct Hs as [Hs1 Hs2].
      destruct (alloc_result_shape sg patch_size r Hlen Hr)
        as [n [c [rest [E1 [E2 E3]]]]].
      exists n, c, rest. split; [exact E1|]. split; [congruence|].
      rewrite Hs2, E3. reflexivity.
    + inversion Hsr; subst. simpl in Hs.
      destruct (seg_result l); [contradiction | exact I].
Qed.

End EngineShapes.

(** ** Runs of the engine on sample inputs *)

Lemma sin_1_pos : (0 < sin 1)%R.
Proof.
  pose proof PI2_1. pose proof PI_RGT_0.
  apply sin_gt_0; lra.
Qed.

Ltac unfold_engine :=
  unfold augment_spatial, augment_spatial_locals, augment_sample,
    elastic_step, rotation_step, sample_angle, scale_step, recenter,
    resample, crop, correct_peaks, rotate_peaks_all.

Ltac simplify_reals :=
  rewrite ?cos_0, ?sin_0;
  repeat (apply f_equal2; [ring|]); try reflexivity.

Lemma bind_run {A B} (m : M A) (k : A -> M B) w a w1 :
  m w = Ok (a, w1) -> bind m k w = k a w1.
Proof. intros H. unfold bind. rewrite H. reflexivity. Qed.

Ltac run_step tac := erewrite bind_run by tac; cbv beta iota.

(** With every effect disabled and a centered crop, the data output is
    the cropped input rotated by one radian about x. *)
Lemma crop_only_locals_run :
  augment_spatial_locals (prims := stand_in_primitives)
    one_peak_2d (Some one_label_2d) [1; 1] crop_only_params world0
  = Ok ({| data_result :=
             {| dt := Float32; shape := [1; 3; 1; 1];
                flat := [0; cos 1; - sin 1]%R |};
           seg_result :=
             Some {| dt := Float32; shape := [1; 1; 1; 1]; flat := [1%R] |};
           a_x := None; a_y := None; a_z := None |},
        {| gen := {| draws := fun _ => 0%R; pos := 3 |};
           stdout := angle_lines 1 0 0 |}).
Proof.
  unfold_engine. compute_run.
  apply f_equal. apply f_equal2; [|reflexivity].
  apply (f_equal (fun d => mk_locals d _ None None None)).
  apply f_equal. simplify_reals.
Qed.

Lemma crop_only_run :
  augment_spatial (prims := stand_in_primitives)
    one_peak_2d (Some one_label_2d) [1; 1] crop_only_params world0
  = Ok ({| dt := Float32; shape := [1; 3; 1; 1];
           flat := [0; cos 1; - sin 1]%R |},
        Some {| dt := Float32; shape := [1; 1; 1; 1]; flat := [1%R] |},
        {| gen := {| draws := fun _ => 0%R; pos := 3 |};
           stdout := angle_lines 1 0 0 |}).
Proof.
  unfold augment_spatial.
  run_step ltac:(apply crop_only_locals_run). reflexivity.
Qed.


Section DisabledSteps.

Context {prims : Primitives}.
Variable cfg : spatial_params.

Lemma elastic_step_disabled coords m w :
  do_elastic_deform cfg = false ->
  elastic_step cfg coords m w = Ok (coords, m, advance w).
Proof.
  intros H. unfold elastic_step, bind, random_sample.
  rewrite H, andb_false_r. reflexivity.
Qed.

Lemma rotation_step_disabled dim coords m angles w :
  do_rotation cfg = false ->
  rotation_step cfg dim coords m angles w = Ok (coords, m, angles, advance w).
Proof.
  intros H. unfold rotation_step, bind, random_sample.
  rewrite H, andb_false_r. reflexivity.
Qed.

Lemma scale_step_disabled coords m w :
  do_scale cfg = false ->
  scale_step cfg coords m w = Ok (coords, m, advance w).
Proof.
  intros H. unfold scale_step, bind, random_sample.
  rewrite H, andb_false_r. reflexivity.
Qed.

(** With the three effects disabled a sample takes the crop path: no
    coordinate field is resampled, and the corrector still runs. *)
Lemma augment_sample_fast_path data seg patch_size dim dist i l w coords :
  do_elastic_deform cfg = false -> do_rotation cfg = false ->
  do_scale cfg = false ->
  create_zero_centered_coordinate_mesh patch_size = Ok coords ->
  augment_sample data seg patch_size cfg dim dist i l w
  = (x <- crop data seg patch_size cfg dim dist i
             (data_result l) (seg_result l) ;;
     let (cropped, seg_cropped) := x in
     corrected <- correct_peaks i cropped ;;
     ret {| data_result := corrected; seg_result := seg_cropped;
            a_x := a_x l; a_y := a_y l; a_z := a_z l |})%M
      (advance (advance (advance w))).
Proof.
  intros He Hr Hs Hm. unfold augment_sample.
  run_step ltac:(rewrite Hm; reflexivity).
  run_step ltac:(apply elastic_step_disabled; exact He).
  run_step ltac:(apply rotation_step_disabled; exact Hr).
  run_step ltac:(apply scale_step_disabled; exact Hs).
  reflexivity.
Qed.

End DisabledSteps.

Lemma rotation_step_fixed_run_next coords m angles :
  rotation_step (prims := stand_in_primitives) fixed_rotation_params 3
                coords m angles (advance world0)
  = Ok (coords, true, (Some (1 / 2), Some (1 / 2), Some (1 / 2))%R,
        advance (advance world0)).
Proof.
  unfold rotation_step, sample_angle, bind, random_sample, lift, ret.
  compute_run. reflexivity.
Qed.

Ltac compute_run_protect_INR :=
  repeat first
    [ decide_comparison
    | progress cbn -[Rltb Reqb Rleb cos sin IZR INR Rmax Rmin up round2
                     round_half_even PI]
    | progress autounfold with run ].

Ltac eval_step :=
  run_step ltac:(compute_run_protect_INR; reflexivity).

Lemma fixed_rotation_sample_run :
  augment_sample (prims := stand_in_primitives)
    one_peak_3d None [1; 1; 1] fixed_rotation_params 3 [30; 30; 30]%Z 0
    {| data_result := zeros Float32 [1; 3; 1; 1; 1]; seg_result := None;
       a_x := None; a_y := None; a_z := None |} world0
  = Ok ({| data_result :=
             {| dt := Float32; shape := [1; 3; 1; 1; 1];
                flat := [0; 0; 0]%R |};
           seg_result := None;
           a_x := Some (1 / 2)%R; a_y := Some (1 / 2)%R;
           a_z := Some (1 / 2)%R |},
        {| gen := {| draws := fun _ => 0%R; pos := 3 |};
           stdout := angle_lines 1 0 0 |}).
Proof.
  unfold augment_sample.
  run_step reflexivity.
  run_step ltac:(apply elastic_step_disabled; reflexivity).
  run_step ltac:(apply rotation_step_fixed_run_next).
  run_step ltac:(apply scale_step_disabled; reflexivity).
  cbn [data_result seg_result].
  rewrite (bind_run (bind _ _)) with (a := (zeros Float32 [1; 3; 1; 1; 1], None))
    (w1 := advance (advance (advance world0))).
  2:{ unfold recenter. eval_step. unfold resample. compute_run_protect_INR. reflexivity. }
  cbv beta iota.
  unfold correct_peaks, rotate_peaks_all.
  compute_run_protect_INR.
  apply f_equal. apply f_equal2; [|reflexivity].
  apply (f_equal (fun d => mk_locals d None (Some (1 / 2)%R) (Some (1 / 2)%R)
                                     (Some (1 / 2)%R))).
  apply f_equal. simplify_reals.
Qed.

(** A rotation-only run in 3D with every angle range degenerate at one
    half: the rotation step assigns [a_x = a_y = a_z = 0.5], yet the
    corrector is called with, and prints, [(1, 0, 0)]. *)
Lemma fixed_rotation_run :
  augment_spatial_locals (prims := stand_in_primitives)
    one_peak_3d None [1; 1; 1] fixed_rotation_params world0
  = Ok ({| data_result :=
             {| dt := Float32; shape := [1; 3; 1; 1; 1];
                flat := [0; 0; 0]%R |};
           seg_result := None;
           a_x := Some (1 / 2)%R; a_y := Some (1 / 2)%R;
           a_z := Some (1 / 2)%R |},
        {| gen := {| draws := fun _ => 0%R; pos := 3 |};
           stdout := angle_lines 1 0 0 |}).
Proof.
  unfold augment_spatial_locals.
  run_step reflexivity. run_step reflexivity. run_step reflexivity.
  cbn [range seq for_each length repeat fixed_rotation_params
       patch_center_dist_from_border].
  run_step ltac:(apply fixed_rotation_sample_run).
  reflexivity.
Qed.

Lemma fixed_rotation_outputs :
  augment_spatial (prims := stand_in_primitives)
    one_peak_3d None [1; 1; 1] fixed_rotation_params world0
  = Ok ({| dt := Float32; shape := [1; 3; 1; 1; 1]; flat := [0; 0; 0]%R |},
        None,
        {| gen := {| draws := fun _ => 0%R; pos := 3 |};
           stdout := angle_lines 1 0 0 |}).
Proof.
  unfold augment_spatial.
  run_step ltac:(apply fixed_rotation_run). reflexivity.
Qed.

Lemma augment_spatial_output_shapes_witness :
  (length [1; 1] = 2 \/ length [1; 1] = 3)
  /\ (exists n c rest,
         shape one_peak_2d = n :: c :: rest
         /\ shape {| dt := Float32; shape := [1; 3; 1; 1];
                     flat := [0; cos 1; - sin 1]%R |} = n :: c :: [1; 1]
         /\ is_floating Float32 = true)
  /\ (exists n c rest,
         shape one_label_2d = n :: c :: rest
         /\ shape {| dt := Float32; shape := [1; 1; 1; 1]; flat := [1%R] |}
            = n :: c :: [1; 1]
         /\ is_floating Float32 = true).
Proof.
  split; [left; reflexivity|].
  apply (augment_spatial_output_shapes
           (prims := stand_in_primitives)
           one_peak_2d (Some one_label_2d) [1; 1] crop_only_params world0
           _ _ _ (or_introl eq_refl) crop_only_run).
Defined.

(** The same on the resample path. *)
Lemma resample_path_output_shape :
  exists n c rest,
    shape one_peak_3d = n :: c :: rest
    /\ shape {| dt := Float32; shape := [1; 3; 1; 1; 1];
                flat := [0; 0; 0]%R |} = n :: c :: [1; 1; 1]
    /\ is_floating Float32 = true.
Proof.
  apply (augment_spatial_output_shapes
           (prims := stand_in_primitives)
           one_peak_3d None [1; 1; 1] fixed_rotation_params world0
           _ _ _ (or_intror eq_refl) fixed_rotation_outputs).
Qed.

(** ** The angles given to the corrector *)

Section EngineAngles.

Context {prims : Primitives}.

(** Every call of the corrector made by [augment_spatial] prints, and
    so was given, the angles [(1, 0, 0)], whatever the configuration:
    one call per sample. *)
Lemma augment_spatial_prints data seg patch_size cfg w data_out seg_out w' :
  augment_spatial data seg patch_size cfg w = Ok (data_out, seg_out, w') ->
  exists n, nth_error (shape data) 0 = Some n
            /\ stdout w' = stdout w
                 ++ flat_map (fun _ => angle_lines 1 0 0) (range n).
Proof.
  unfold augment_spatial. intros H.
  apply bind_ok in H. destruct H as [l [w1 [Hl H]]].
  apply ret_ok in H. destruct H as [_ ->].
  apply (augment_spatial_locals_prints data seg patch_size cfg w l w1 Hl).
Qed.

End EngineAngles.

(** C1 fails on the code.  On a 3D sample with rotation enabled and
    every angle range degenerate at one half, the rotation step
    samples [a_x = a_y = a_z = 0.5], but the corrector receives (and
    prints) [(1, 0, 0)]; and on a sample whose rotation step is
    skipped it receives [(1, 0, 0)] as well, not the identity. *)
Theorem corrector_ignores_sampled_angles :
  (exists l w',
      augment_spatial_locals (prims := stand_in_primitives)
        one_peak_3d None [1; 1; 1] fixed_rotation_params world0 = Ok (l, w')
      /\ (a_x l, a_y l, a_z l) = (Some (1 / 2), Some (1 / 2), Some (1 / 2))%R
      /\ stdout w' = angle_lines 1 0 0
      /\ angle_lines 1 0 0 <> angle_lines (1 / 2) (1 / 2) (1 / 2))
  /\ (exists l w',
         augment_spatial_locals (prims := stand_in_primitives)
           one_peak_2d (Some one_label_2d) [1; 1] crop_only_params world0
         = Ok (l, w')
         /\ (a_x l, a_y l, a_z l) = (None, None, None)
         /\ stdout w' = angle_lines 1 0 0
         /\ angle_lines 1 0 0 <> angle_lines 0 0 0).
Proof.
  split.
  - eexists. eexists. split; [apply fixed_rotation_run|].
    split; [reflexivity|]. split; [reflexivity|].
    unfold angle_lines. intros H. inversion H. lra.
  - eexists. eexists. split; [apply crop_only_locals_run|].
    split; [reflexivity|]. split; [reflexivity|].
    unfold angle_lines. intros H. inversion H. lra.
Qed.

(** C4 fails on the code.  With the three effects disabled and
    [random_crop = False] the segmentation output is the center crop of
    the input, but the data output is not: the center crop (here the
    vector [(0, 1, 0)]) comes out rotated by one radian about x. *)
Theorem crop_only_output_is_rotated :
  do_elastic_deform crop_only_params = false
  /\ do_rotation crop_only_params = false
  /\ do_scale crop_only_params = false
  /\ random_crop crop_only_params = false
  /\ exists out so w',
      augment_spatial (prims := stand_in_primitives)
        one_peak_2d (Some one_label_2d) [1; 1] crop_only_params world0
      = Ok (out, Some so, w')
      /\ flat (center_crop_array one_peak_2d [1; 1]) = [0; 1; 0]%R
      /\ flat out = [0; cos 1; - sin 1]%R
      /\ flat out <> flat (center_crop_array one_peak_2d [1; 1])
      /\ flat so = flat (center_crop_array one_label_2d [1; 1]).
Proof.
  repeat (split; [reflexivity|]).
  eexists. eexists. eexists. split; [apply crop_only_run|].
  assert (Hc : flat (center_crop_array one_peak_2d [1; 1]) = [0; 1; 0]%R)
    by reflexivity.
  split; [exact Hc|]. split; [reflexivity|]. split.
  - rewrite Hc. cbn [flat]. intros H. injection H as _ Hsin.
    pose proof sin_1_pos. lra.
  - reflexivity.
Qed.

(** ** The rank of the patch *)

Lemma alloc_result_short_patch a patch_size :
  length patch_size < 2 -> alloc_result a patch_size = Raise IndexError.
Proof.
  intros H. unfold alloc_result.
  destruct patch_size as [|p0 [|p1 ps]]; simpl in H; try lia;
    destruct (shape a) as [|n [|c rest]]; reflexivity.
Qed.

Lemma alloc_result_long_patch a n c rest p0 p1 p2 p3 ps :
  shape a = n :: c :: rest ->
  alloc_result a (p0 :: p1 :: p2 :: p3 :: ps)
  = Ok (zeros Float32 [n; c; p0; p1; p2]).
Proof. intros Ha. unfold alloc_result. rewrite Ha. reflexivity. Qed.

Section PatchRank.

Context {prims : Primitives}.

Lemma augment_spatial_short_patch data seg patch_size cfg w :
  length patch_size < 2 ->
  augment_spatial data seg patch_size cfg w = Raise IndexError.
Proof.
  intros H. unfold augment_spatial, augment_spatial_locals, bind, lift.
  unfold alloc_seg_result. destruct seg as [sg|].
  - rewrite (alloc_result_short_patch sg patch_size H). reflexivity.
  - rewrite (alloc_result_short_patch data patch_size H). reflexivity.
Qed.

Lemma adapter_rejects_rank self d a w :
  self_patch_size self = None ->
  dict_get d (self_data_key self) = Some a ->
  length (shape a) <> 4 -> length (shape a) <> 5 ->
  SpatialTransform_Custom_call self d w = Raise batch_rank_error.
Proof.
  intros Hp Hd H4 H5. unfold SpatialTransform_Custom_call.
  rewrite Hp, Hd. unfold bind.
  destruct (shape a) as [|s0 [|s1 [|s2 [|s3 [|s4 [|s5 rest]]]]]];
    simpl in H4, H5; try reflexivity; exfalso; lia.
Qed.

(** C9 (amended).  [augment_spatial] does not check the rank of the
    patch: with fewer than two entries in [patch_size] the call fails
    with an [IndexError] while it allocates the result, and with four
    or more the results are allocated as in 3D, from the first three
    entries [p0], [p1], [p2] of [patch_size] (the data result is the
    zero array of shape [(n, c, p0, p1, p2)]), without any error.
    The invalid-configuration error is
    raised by [SpatialTransform_Custom.__call__], when no patch size
    is configured and the data batch has neither four nor five axes. *)
Theorem patch_rank_is_not_validated
        data seg patch_size cfg w self d a :
  (length patch_size < 2 ->
   augment_spatial data seg patch_size cfg w = Raise IndexError)
  /\ (forall n c rest p0 p1 p2 p3 ps,
         shape data = n :: c :: rest ->
         patch_size = p0 :: p1 :: p2 :: p3 :: ps ->
         alloc_result data patch_size = Ok (zeros Float32 [n; c; p0; p1; p2])
         /\ alloc_seg_result seg patch_size
            = alloc_seg_result seg [p0; p1; p2])
  /\ (self_patch_size self = None ->
      dict_get d (self_data_key self) = Some a ->
      length (shape a) <> 4 -> length (shape a) <> 5 ->
      SpatialTransform_Custom_call self d w = Raise batch_rank_error).
Proof.
  split; [apply augment_spatial_short_patch|].
  split; [|apply adapter_rejects_rank].
  intros n c rest p0 p1 p2 p3 ps Hs Hp. subst patch_size.
  split; [apply (alloc_result_long_patch data n c rest); exact Hs|].
  destruct seg as [sg|]; reflexivity.
Qed.

End PatchRank.

Lemma patch_rank_is_not_validated_witness :
  augment_spatial (prims := stand_in_primitives)
    one_peak_2d None [5] default_params world0 = Raise IndexError
  /\ (alloc_result one_peak_2d [2; 3; 4; 5]
      = Ok (zeros Float32 [1; 3; 2; 3; 4])
      /\ alloc_seg_result (Some one_label_2d) [2; 3; 4; 5]
         = alloc_seg_result (Some one_label_2d) [2; 3; 4])
  /\ SpatialTransform_Custom_call (prims := stand_in_primitives)
       adapter_without_patch [("data"%string, Some flat_batch)] world0
     = Raise batch_rank_error.
Proof.
  pose proof (patch_rank_is_not_validated
                (prims := stand_in_primitives)
                one_peak_2d None [5] default_params world0
                adapter_without_patch [("data"%string, Some flat_batch)]
                flat_batch) as [H1 _].
  pose proof (patch_rank_is_not_validated
                (prims := stand_in_primitives)
                one_peak_2d (Some one_label_2d) [2; 3; 4; 5] default_params
                world0
                adapter_without_patch [("data"%string, Some flat_batch)]
                flat_batch) as [_ [H2 H3]].
  split; [apply H1; simpl; lia|].
  split; [apply (H2 1 3 [1; 1] 2 3 4 5 []); reflexivity|].
  apply H3; [reflexivity | reflexivity | simpl; lia | simpl; lia].
Defined.

(** C9, as stated, fails: a patch of rank one makes [augment_spatial]
    raise an [IndexError], not an invalid-configuration error. *)
Lemma short_patch_raises_index_error :
  exists e,
    augment_spatial (prims := stand_in_primitives)
      one_peak_2d None [5] default_params world0 = Raise e
    /\ forall msg, e <> ValueError msg.
Proof.
  exists IndexError. split.
  - apply augment_spatial_short_patch. simpl. lia.
  - intros msg. discriminate.
Qed.

(** * Further properties

    ** Arrays are determined by their elements *)

Lemma array_ext (a b : ndarray) :
  wf a -> wf b -> shape a = shape b ->
  (forall idx, valid_index (shape a) idx = true -> get a idx = get b idx) ->
  flat a = flat b.
Proof.
  intros Ha Hb Hs H.
  rewrite <- (build_get a Ha), <- (build_get b Hb). unfold build. cbn [flat].
  rewrite <- Hs. apply map_ext_in. intros idx Hin.
  apply H. apply all_indices_valid. exact Hin.
Qed.

(** ** The corrector as a rotation of each vector *)

Lemma vec_times_rotation_xyz a idx angle_x angle_y angle_z :
  (vec_times a 0 idx (rotation_xyz angle_x angle_y angle_z) 0,
   vec_times a 0 idx (rotation_xyz angle_x angle_y angle_z) 1,
   vec_times a 0 idx (rotation_xyz angle_x angle_y angle_z) 2)
  = rot_z angle_z (rot_y angle_y (rot_x angle_x (vector_at a idx))).
Proof.
  unfold vec_times, vector_at. cbn [seq map Rsum fold_right Nat.add].
  generalize (get a (0 :: idx)) (get a (1 :: idx)) (get a (2 :: idx)).
  intros x y z.
  unfold rotation_xyz, mat_mul3, rotation_x, rotation_y, rotation_z,
    matrix3, rot_x, rot_y, rot_z.
  generalize (cos angle_x) (sin angle_x) (cos angle_y) (sin angle_y)
             (cos angle_z) (sin angle_z).
  intros cx sx cy sy cz sz.
  unfold build, get. cbn.
  apply f_equal2; [apply f_equal2|]; ring.
Qed.

Lemma rotate_peaks_vectors peaks dims angle_x angle_y angle_z :
  shape peaks = 3 :: dims -> wf peaks ->
  exists out,
    rotate_peaks peaks angle_x angle_y angle_z = Ok out
    /\ shape out = 3 :: dims /\ wf out /\ dt out = Float64
    /\ forall idx,
        valid_index dims idx = true ->
        vector_at out idx
        = rot_z angle_z (rot_y angle_y (rot_x angle_x (vector_at peaks idx))).
Proof.
  intros Hs Hw.
  destruct (rotate_peaks_batchgenerators peaks dims angle_x angle_y angle_z Hs Hw)
    as [out [Hout [Hsh [Hwf [Hdt Hrot]]]]].
  exists out. split; [exact Hout|]. split; [congruence|].
  split; [exact Hwf|]. split; [exact Hdt|].
  intros idx Hidx. rewrite <- vec_times_rotation_xyz.
  assert (Hidx' : valid_index (tl (shape peaks)) idx = true)
    by (rewrite Hs; exact Hidx).
  unfold vector_at.
  rewrite <- (Hrot idx 0 Hidx'), <- (Hrot idx 1 Hidx'), <- (Hrot idx 2 Hidx') by lia.
  reflexivity.
Qed.

Lemma vector_ext (a b : ndarray) dims :
  wf a -> wf b -> shape a = 3 :: dims -> shape b = 3 :: dims ->
  (forall idx, valid_index dims idx = true -> vector_at a idx = vector_at b idx) ->
  flat a = flat b.
Proof.
  intros Ha Hb Hsa Hsb H. apply array_ext; try assumption; [congruence|].
  intros idx Hidx. rewrite Hsa in Hidx.
  destruct idx as [|c idx]; [discriminate|]. simpl in Hidx.
  apply andb_prop in Hidx. destruct Hidx as [Hc Hidx]. apply Nat.ltb_lt in Hc.
  specialize (H idx Hidx). unfold vector_at in H.
  injection H as H0 H1 H2.
  destruct c as [|[|[|c]]]; [exact H0 | exact H1 | exact H2 | lia].
Qed.

Lemma rot_x_zero v : rot_x 0 v = v.
Proof.
  destruct v as [[x y] z]. unfold rot_x. rewrite cos_0, sin_0.
  apply f_equal2; [apply f_equal2|]; ring.
Qed.

Lemma rot_y_zero v : rot_y 0 v = v.
Proof.
  destruct v as [[x y] z]. unfold rot_y. rewrite cos_0, sin_0.
  apply f_equal2; [apply f_equal2|]; ring.
Qed.

Lemma rot_z_zero v : rot_z 0 v = v.
Proof.
  destruct v as [[x y] z]. unfold rot_z. rewrite cos_0, sin_0.
  apply f_equal2; [apply f_equal2|]; ring.
Qed.

Lemma sin2_cos2_mult a : (sin a * sin a + cos a * cos a = 1)%R.
Proof. pose proof (sin2_cos2 a) as H. unfold Rsqr in H. exact H. Qed.

Lemma rot_x_norm a v : norm2 (rot_x a v) = norm2 v.
Proof.
  destruct v as [[x y] z]. unfold rot_x, norm2.
  pose proof (sin2_cos2_mult a) as H.
  replace (x * x + (y * cos a + z * sin a) * (y * cos a + z * sin a)
           + (- y * sin a + z * cos a) * (- y * sin a + z * cos a))%R
    with (x * x + (y * y + z * z) * (sin a * sin a + cos a * cos a))%R by ring.
  rewrite H. ring.
Qed.

Lemma rot_y_norm a v : norm2 (rot_y a v) = norm2 v.
Proof.
  destruct v as [[x y] z]. unfold rot_y, norm2.
  pose proof (sin2_cos2_mult a) as H.
  replace ((x * cos a - z * sin a) * (x * cos a - z * sin a) + y * y
           + (x * sin a + z * cos a) * (x * sin a + z * cos a))%R
    with (y * y + (x * x + z * z) * (sin a * sin a + cos a * cos a))%R by ring.
  rewrite H. ring.
Qed.

Lemma rot_z_norm a v : norm2 (rot_z a v) = norm2 v.
Proof.
  destruct v as [[x y] z]. unfold rot_z, norm2.
  pose proof (sin2_cos2_mult a) as H.
  replace ((x * cos a + y * sin a) * (x * cos a + y * sin a)
           + (- x * sin a + y * cos a) * (- x * sin a + y * cos a) + z * z)%R
    with (z * z + (x * x + y * y) * (sin a * sin a + cos a * cos a))%R by ring.
  rewrite H. ring.
Qed.

Lemma rot_x_inverse a v : rot_x (- a) (rot_x a v) = v.
Proof.
  destruct v as [[x y] z]. unfold rot_x. rewrite cos_neg, sin_neg.
  pose proof (sin2_cos2_mult a) as H.
  apply f_equal2; [apply f_equal2|]; [reflexivity | |].
  - replace ((y * cos a + z * sin a) * cos a
             + (- y * sin a + z * cos a) * - sin a)%R
      with (y * (sin a * sin a + cos a * cos a))%R by ring.
    rewrite H. ring.
  - replace (- (y * cos a + z * sin a) * - sin a
             + (- y * sin a + z * cos a) * cos a)%R
      with (z * (sin a * sin a + cos a * cos a))%R by ring.
    rewrite H. ring.
Qed.

Lemma rot_y_inverse a v : rot_y (- a) (rot_y a v) = v.
Proof.
  destruct v as [[x y] z]. unfold rot_y. rewrite cos_neg, sin_neg.
  pose proof (sin2_cos2_mult a) as H.
  apply f_equal2; [apply f_equal2|]; [| reflexivity |].
  - replace ((x * cos a - z * sin a) * cos a
             - (x * sin a + z * cos a) * - sin a)%R
      with (x * (sin a * sin a + cos a * cos a))%R by ring.
    rewrite H. ring.
  - replace ((x * cos a - z * sin a) * - sin a
             + (x * sin a + z * cos a) * cos a)%R
      with (z * (sin a * sin a + cos a * cos a))%R by ring.
    rewrite H. ring.
Qed.

Lemma rot_z_inverse a v : rot_z (- a) (rot_z a v) = v.
Proof.
  destruct v as [[x y] z]. unfold rot_z. rewrite cos_neg, sin_neg.
  pose proof (sin2_cos2_mult a) as H.
  apply f_equal2; [apply f_equal2|]; [| | reflexivity].
  - replace ((x * cos a + y * sin a) * cos a
             + (- x * sin a + y * cos a) * - sin a)%R
      with (x * (sin a * sin a + cos a * cos a))%R by ring.
    rewrite H. ring.
  - replace (- (x * cos a + y * sin a) * - sin a
             + (- x * sin a + y * cos a) * cos a)%R
      with (y * (sin a * sin a + cos a * cos a))%R by ring.
    rewrite H. ring.
Qed.

(** X1.  With all three angles zero, [rotate_peaks] returns the
    elements of its input unchanged. *)
Theorem rotate_peaks_zero_angles peaks dims :
  shape peaks = 3 :: dims -> wf peaks ->
  exists out,
    rotate_peaks peaks 0 0 0 = Ok out
    /\ shape out = shape peaks /\ flat out = flat peaks.
Proof.
  intros Hs Hw.
  destruct (rotate_peaks_vectors peaks dims 0 0 0 Hs Hw)
    as [out [Hout [Hsh [Hwf [_ Hv]]]]].
  exists out. split; [exact Hout|]. split; [congruence|].
  apply (vector_ext out peaks dims Hwf Hw Hsh Hs).
  intros idx Hidx. rewrite (Hv idx Hidx).
  rewrite rot_x_zero, rot_y_zero, rot_z_zero. reflexivity.
Qed.

Lemma rotate_peaks_zero_angles_witness :
  shape unit_x_peak = 3 :: [1] /\ wf unit_x_peak /\
  exists out,
    rotate_peaks unit_x_peak 0 0 0 = Ok out
    /\ shape out = shape unit_x_peak /\ flat out = flat unit_x_peak.
Proof.
  split; [reflexivity|]. split; [reflexivity|].
  apply (rotate_peaks_zero_angles unit_x_peak [1]); reflexivity.
Defined.

(** X2.  [rotate_peaks] keeps the length of every vector: at each
    spatial location the sum of the squared components is unchanged. *)
Theorem rotate_peaks_preserves_norm peaks dims angle_x angle_y angle_z :
  shape peaks = 3 :: dims -> wf peaks ->
  exists out,
    rotate_peaks peaks angle_x angle_y angle_z = Ok out
    /\ forall idx,
        valid_index dims idx = true ->
        norm2 (vector_at out idx) = norm2 (vector_at peaks idx).
Proof.
  intros Hs Hw.
  destruct (rotate_peaks_vectors peaks dims angle_x angle_y angle_z Hs Hw)
    as [out [Hout [_ [_ [_ Hv]]]]].
  exists out. split; [exact Hout|].
  intros idx Hidx. rewrite (Hv idx Hidx).
  rewrite rot_z_norm, rot_y_norm, rot_x_norm. reflexivity.
Qed.

Lemma rotate_peaks_preserves_norm_witness :
  shape unit_x_peak = 3 :: [1] /\ wf unit_x_peak /\
  exists out,
    rotate_peaks unit_x_peak 1 2 3 = Ok out
    /\ forall idx,
        valid_index [1] idx = true ->
        norm2 (vector_at out idx) = norm2 (vector_at unit_x_peak idx).
Proof.
  split; [reflexivity|]. split; [reflexivity|].
  apply (rotate_peaks_preserves_norm unit_x_peak [1]); reflexivity.
Defined.

(** X3.  A rotation by [rotate_peaks] is undone by three further
    calls that apply the opposite angles one axis at a time, in the
    reverse order: z, then y, then x. *)
Theorem rotate_peaks_round_trip peaks dims angle_x angle_y angle_z :
  shape peaks = 3 :: dims -> wf peaks ->
  exists r1 r2 r3 r4,
    rotate_peaks peaks angle_x angle_y angle_z = Ok r1
    /\ rotate_peaks r1 0 0 (- angle_z) = Ok r2
    /\ rotate_peaks r2 0 (- angle_y) 0 = Ok r3
    /\ rotate_peaks r3 (- angle_x) 0 0 = Ok r4
    /\ shape r4 = shape peaks /\ flat r4 = flat peaks.
Proof.
  intros Hs Hw.
  destruct (rotate_peaks_vectors peaks dims angle_x angle_y angle_z Hs Hw)
    as [r1 [E1 [S1 [W1 [_ V1]]]]].
  destruct (rotate_peaks_vectors r1 dims 0 0 (- angle_z) S1 W1)
    as [r2 [E2 [S2 [W2 [_ V2]]]]].
  destruct (rotate_peaks_vectors r2 dims 0 (- angle_y) 0 S2 W2)
    as [r3 [E3 [S3 [W3 [_ V3]]]]].
  destruct (rotate_peaks_vectors r3 dims (- angle_x) 0 0 S3 W3)
    as [r4 [E4 [S4 [W4 [_ V4]]]]].
  exists r1, r2, r3, r4. repeat (split; [assumption|]).
  split; [congruence|].
  apply (vector_ext r4 peaks dims W4 Hw S4 Hs).
  intros idx Hidx.
  rewrite (V4 idx Hidx), (V3 idx Hidx), (V2 idx Hidx), (V1 idx Hidx).
  rewrite !rot_x_zero, !rot_y_zero, !rot_z_zero.
  rewrite rot_z_inverse, rot_y_inverse, rot_x_inverse. reflexivity.
Qed.

Lemma rotate_peaks_round_trip_witness :
  shape unit_x_peak = 3 :: [1] /\ wf unit_x_peak /\
  exists r1 r2 r3 r4,
    rotate_peaks unit_x_peak 1 2 3 = Ok r1
    /\ rotate_peaks r1 0 0 (- 3) = Ok r2
    /\ rotate_peaks r2 0 (- 2) 0 = Ok r3
    /\ rotate_peaks r3 (- 1) 0 0 = Ok r4
    /\ shape r4 = shape unit_x_peak /\ flat r4 = flat unit_x_peak.
Proof.
  split; [reflexivity|]. split; [reflexivity|].
  apply (rotate_peaks_round_trip unit_x_peak [1]); reflexivity.
Defined.

Lemma rotate_peaks_size_error peaks angle_x angle_y angle_z :
  length (flat peaks) mod 3 <> 0 ->
  rotate_peaks peaks angle_x angle_y angle_z = Raise reshape_error.
Proof.
  intros H. unfold rotate_peaks.
  destruct (builders_chain angle_x angle_y angle_z) as [m [Hm _]].
  unfold rbind in Hm |- *.
  destruct (create_matrix_rotation_x_3d angle_x (identity 3)) as [r1|]; [|discriminate].
  destruct (create_matrix_rotation_y_3d angle_y r1) as [r2|]; [|discriminate].
  rewrite Hm. unfold reshape_3_rest.
  rewrite (proj2 (Nat.eqb_neq _ _) H). reflexivity.
Qed.

(** X4.  [rotate_peaks_all] needs whole 3-vectors: on an array with
    one or two channels whose element count is not a multiple of
    three it raises the reshape [ValueError]. *)
Theorem rotate_peaks_all_needs_triples data c dims angle_x angle_y angle_z w :
  shape data = c :: dims -> wf data -> c < 3 ->
  (c * prod dims) mod 3 <> 0 ->
  rotate_peaks_all data angle_x angle_y angle_z w = Raise reshape_error.
Proof.
  intros Hs Hw Hc Hmod.
  unfold rotate_peaks_all, bind, print, lift.
  unfold rotate_peaks_groups, range. cbn [seq rfor_each].
  unfold groups_body at 1. unfold slice0. rewrite Hs.
  cbn [Nat.mul Nat.add]. rewrite Nat.min_0_l, Nat.sub_0_r.
  rewrite (Nat.min_r 3 c) by lia. cbn [rbind].
  rewrite rotate_peaks_size_error; [reflexivity|].
  assert (Hlen : length (flat data) = c * prod dims)
    by (rewrite Hw, Hs; reflexivity).
  cbn [flat Nat.mul skipn].
  rewrite firstn_all2 by (rewrite Hlen; lia).
  rewrite Hlen. exact Hmod.
Qed.

Lemma rotate_peaks_all_needs_triples_witness :
  shape one_channel_four = 1 :: [2; 2] /\ wf one_channel_four /\ 1 < 3
  /\ (1 * prod [2; 2]) mod 3 <> 0
  /\ rotate_peaks_all one_channel_four 1 0 0 world0 = Raise reshape_error.
Proof.
  assert (H : (1 * prod [2; 2]) mod 3 <> 0) by (simpl; lia).
  split; [reflexivity|]. split; [reflexivity|]. split; [lia|].
  split; [exact H|].
  apply (rotate_peaks_all_needs_triples one_channel_four 1 [2; 2]);
    [reflexivity | reflexivity | lia | exact H].
Defined.

Lemma vec_times_zero_angles a base idx c :
  c < 3 -> vec_times a base idx (rotation_xyz 0 0 0) c = get a ((base + c) :: idx).
Proof.
  intros Hc. unfold vec_times. cbn [seq map Rsum fold_right].
  unfold rotation_xyz, mat_mul3, rotation_x, rotation_y, rotation_z, matrix3.
  rewrite cos_0, sin_0.
  destruct c as [|[|[|c]]]; [| | | lia];
    generalize (get a ((base + 0) :: idx)) (get a ((base + 1) :: idx))
               (get a ((base + 2) :: idx));
    intros x y z; unfold build, get; cbn; ring.
Qed.

(** X5.  With all three angles zero, [rotate_peaks_all] returns the
    elements of an input of one, two or three peak groups unchanged. *)
Theorem rotate_peaks_all_zero_angles data dims G w :
  1 <= G <= 3 -> shape data = (3 * G) :: dims -> wf data ->
  exists out w',
    rotate_peaks_all data 0 0 0 w = Ok (out, w')
    /\ shape out = shape data /\ flat out = flat data.
Proof.
  intros HG Hs Hw.
  destruct (rotate_peaks_groups_inv data dims G 0 0 0 Hs Hw)
    as [out [Hout [Hsh [Hwf [_ [Hrot _]]]]]].
  exists out. eexists. split; [apply rotate_peaks_all_run; exact Hout|].
  split; [exact Hsh|].
  apply array_ext; try assumption.
  intros idx Hidx. rewrite Hsh, Hs in Hidx.
  destruct idx as [|ch idx]; [discriminate|]. simpl in Hidx.
  apply andb_prop in Hidx. destruct Hidx as [Hch Hidx]. apply Nat.ltb_lt in Hch.
  assert (Hdiv : ch = 3 * (ch / 3) + ch mod 3) by (apply Nat.div_mod_eq).
  assert (Hq : ch / 3 < G) by (apply Nat.Div0.div_lt_upper_bound; lia).
  assert (Hr : ch mod 3 < 3) by (apply Nat.mod_upper_bound; lia).
  rewrite Hdiv.
  rewrite (Hrot (ch / 3)) by (try lia; rewrite Hs; exact Hidx).
  apply vec_times_zero_angles. exact Hr.
Qed.

Lemma rotate_peaks_all_zero_angles_witness :
  1 <= 3 <= 3 /\ shape three_groups = (3 * 3) :: [1] /\ wf three_groups /\
  exists out w',
    rotate_peaks_all three_groups 0 0 0 world0 = Ok (out, w')
    /\ shape out = shape three_groups /\ flat out = flat three_groups.
Proof.
  split; [lia|]. split; [reflexivity|]. split; [reflexivity|].
  apply (rotate_peaks_all_zero_angles three_groups [1] 3);
    [lia | reflexivity | reflexivity].
Defined.

(** ** Blocks of an array *)

Lemma block_length q k m (l : list R) :
  length l = m * q -> k < m -> length (block q k l) = q.
Proof.
  intros Hl Hk. unfold block. rewrite length_firstn, length_skipn, Hl. nia.
Qed.

Lemma nth_block q k (l : list R) j d :
  j < q -> nth j (block q k l) d = nth (k * q + j) l d.
Proof.
  intros Hj. unfold block. rewrite nth_firstn.
  rewrite (proj2 (Nat.ltb_lt j q) Hj). apply nth_skipn.
Qed.

Lemma block_splice q m k t (l mid : list R) :
  length l = m * q -> k < m -> t < m -> length mid = q ->
  block q t (firstn (k * q) l ++ mid ++ skipn (k * q + length mid) l)
  = if t =? k then mid else block q t l.
Proof.
  intros Hl Hk Ht Hm.
  assert (Hlen : length (firstn (k * q) l ++ mid
                           ++ skipn (k * q + length mid) l) = m * q)
    by (rewrite length_splice; [exact Hl | rewrite Hl, Hm; nia]).
  apply (nth_ext _ _ 0%R 0%R).
  - rewrite (block_length q t m _ Hlen Ht).
    destruct (t =? k); [symmetry; exact Hm|].
    symmetry. apply (block_length q t m); assumption.
  - intros j Hj. rewrite (block_length q t m _ Hlen Ht) in Hj.
    rewrite (nth_block q t _ j 0%R Hj).
    rewrite nth_splice by (rewrite Hl, Hm; nia).
    rewrite Hm.
    destruct (t =? k) eqn:E.
    + apply Nat.eqb_eq in E. subst t.
      rewrite (proj2 (Nat.ltb_ge _ _)) by lia.
      rewrite (proj2 (Nat.ltb_lt _ _)) by lia.
      f_equal. lia.
    + apply Nat.eqb_neq in E. rewrite (nth_block q t l j 0%R Hj).
      destruct (Nat.lt_ge_cases t k) as [Hlt|Hge].
      * rewrite (proj2 (Nat.ltb_lt _ _)) by nia. reflexivity.
      * rewrite (proj2 (Nat.ltb_ge _ _)) by nia.
        rewrite (proj2 (Nat.ltb_ge _ _)) by nia. reflexivity.
Qed.

Lemma getitem0_block a m rest k :
  shape a = m :: rest -> k < m ->
  getitem0 a k
  = Ok {| dt := dt a; shape := rest; flat := block (prod rest) k (flat a) |}.
Proof.
  intros Hs Hk. unfold getitem0. rewrite Hs.
  rewrite (proj2 (Nat.ltb_lt k m) Hk). reflexivity.
Qed.

Lemma block_of_block p c b ch (l : list R) :
  ch < c ->
  block p ch (block (c * p) b l) = block p (b * c + ch) l.
Proof.
  intros Hch. unfold block.
  rewrite skipn_firstn_comm, firstn_firstn, skipn_skipn.
  rewrite Nat.min_l by nia. f_equal. f_equal. nia.
Qed.

Lemma getitem2_block a n c rest b ch :
  shape a = n :: c :: rest -> b < n -> ch < c ->
  getitem2 a b ch
  = Ok {| dt := dt a; shape := rest;
          flat := block (prod rest) (b * c + ch) (flat a) |}.
Proof.
  intros Hs Hb Hch. unfold getitem2.
  rewrite (getitem0_block a n (c :: rest) b Hs Hb). cbn [rbind].
  set (row := {| dt := dt a; shape := c :: rest;
                 flat := block (prod (c :: rest)) b (flat a) |}).
  rewrite (getitem0_block row c rest ch eq_refl Hch). unfold row. cbn [dt flat].
  change (prod (c :: rest)) with (c * prod rest).
  rewrite block_of_block by exact Hch. reflexivity.
Qed.


Lemma setitem2_splice a n c rest b ch v :
  shape a = n :: c :: rest -> b < n -> ch < c -> wf v -> shape v = rest ->
  setitem2 a b ch v
  = Ok {| dt := dt a; shape := shape a;
          flat := firstn ((b * c + ch) * prod rest) (flat a) ++ flat v
                    ++ skipn ((b * c + ch) * prod rest + length (flat v))
                             (flat a) |}.
Proof.
  intros Hs Hb Hch Hw Hv. subst rest. unfold setitem2. rewrite Hs.
  rewrite (proj2 (Nat.ltb_lt b n) Hb), (proj2 (Nat.ltb_lt ch c) Hch).
  cbn [andb].
  rewrite (assign_segment_same a v _ Hw). rewrite Hs. reflexivity.
Qed.

Lemma rfor_each_seq_inv {S} (P : nat -> S -> Prop)
      (body : nat -> S -> result S) len :
  forall start s,
    P start s ->
    (forall i t, start <= i < start + len -> P i t ->
                 exists t', body i t = Ok t' /\ P (Datatypes.S i) t') ->
    exists s', rfor_each (seq start len) body s = Ok s' /\ P (start + len) s'.
Proof.
  induction len as [|len IH]; intros start s Hs Hb; simpl.
  - exists s. rewrite Nat.add_0_r. auto.
  - destruct (Hb start s) as [s1 [H1 P1]]; [lia | exact Hs |].
    rewrite H1. simpl.
    destruct (IH (Datatypes.S start) s1 P1) as [s' [H' P']].
    + intros i t Hi. apply Hb. lia.
    + exists s'. split; [exact H'|].
      replace (start + Datatypes.S len) with (Datatypes.S start + len) by lia.
      exact P'.
Qed.

(** ** Normalisation: what is computed *)

Lemma normalize_flat a epsilon :
  (0 < epsilon)%R ->
  normalize a epsilon
  = Ok {| dt := dt a; shape := shape a;
          flat := normalized (flat a) epsilon |}.
Proof.
  intros H. unfold normalize.
  rewrite Reqb_false by (pose proof (divisor_positive a epsilon H); lra).
  reflexivity.
Qed.

Lemma normalized_length l epsilon : length (normalized l epsilon) = length l.
Proof. unfold normalized. apply length_map. Qed.

Section NormalisationBlocks.

Variable data : ndarray.
Variable epsilon : R.
Hypothesis eps_pos : (0 < epsilon)%R.
Hypothesis data_wf : wf data.

(** One block is normalised and written back. *)
Lemma normalized_step q m k d (sub : ndarray) (d' : ndarray) :
  length (flat data) = m * q -> k < m ->
  normalized_up_to data epsilon q m k d ->
  flat sub = block q k (flat d) ->
  flat d' = firstn (k * q) (flat d) ++ normalized (flat sub) epsilon
              ++ skipn (k * q + length (normalized (flat sub) epsilon)) (flat d) ->
  shape d' = shape d -> dt d' = dt d ->
  normalized_up_to data epsilon q m (S k) d'.
Proof.
  intros Hlen Hk [Hs [Hw [Hd Hb]]] Hsub Hf Hs' Hd'.
  assert (Hdl : length (flat d) = m * q).
  { rewrite Hw, Hs, <- data_wf. exact Hlen. }
  assert (Hsl : length (normalized (flat sub) epsilon) = q).
  { rewrite normalized_length, Hsub. apply (block_length q k m); assumption. }
  split; [congruence|]. split.
  { unfold wf. rewrite Hf, length_splice by (rewrite Hsl, Hdl; nia).
    rewrite Hs'. exact Hw. }
  split; [congruence|].
  intros t Ht. rewrite Hf.
  rewrite (block_splice q m k t _ _ Hdl Hk Ht Hsl).
  destruct (t =? k) eqn:E.
  - apply Nat.eqb_eq in E. subst t.
    rewrite (proj2 (Nat.ltb_lt k (S k))) by lia.
    rewrite Hsub, (Hb k Hk), Nat.ltb_irrefl. reflexivity.
  - apply Nat.eqb_neq in E. rewrite (Hb t Ht).
    destruct (Nat.lt_ge_cases t k) as [Hlt|Hge].
    + rewrite (proj2 (Nat.ltb_lt t k)), (proj2 (Nat.ltb_lt t (S k))) by lia.
      reflexivity.
    + rewrite (proj2 (Nat.ltb_ge t k)), (proj2 (Nat.ltb_ge t (S k))) by lia.
      reflexivity.
Qed.

Lemma normalized_up_to_init q m :
  normalized_up_to data epsilon q m 0 data.
Proof.
  split; [reflexivity|]. split; [exact data_wf|]. split; [reflexivity|].
  intros t _. reflexivity.
Qed.

Variables n c : nat.
Variable rest : list nat.
Hypothesis data_shape : shape data = n :: c :: rest.

Lemma data_blocks : length (flat data) = (n * c) * prod rest.
Proof. rewrite data_wf, data_shape. simpl. lia. Qed.


Lemma per_channel_step b ch d :
  b < n -> ch < c ->
  normalized_up_to data epsilon (prod rest) (n * c) (b * c + ch) d ->
  exists d',
    (let? sub := getitem2 d b ch in
     let? normalized := normalize sub epsilon in
     setitem2 d b ch normalized)%result = Ok d'
    /\ normalized_up_to data epsilon (prod rest) (n * c) (b * c + S ch) d'.
Proof.
  intros Hb Hch Hinv. pose proof Hinv as [Hs [Hw [Hd _]]].
  rewrite data_shape in Hs.
  rewrite (getitem2_block d n c rest b ch Hs Hb Hch). cbn [rbind].
  rewrite (normalize_flat _ epsilon eps_pos). cbn [rbind dt shape flat].
  set (v := {| dt := dt d; shape := rest;
               flat := normalized (block (prod rest) (b * c + ch) (flat d))
                                  epsilon |}).
  assert (Hk : b * c + ch < n * c) by nia.
  assert (Hdl : length (flat d) = (n * c) * prod rest)
    by (rewrite Hw, Hs; simpl; lia).
  assert (Hvw : wf v).
  { unfold wf, v. cbn [flat shape]. rewrite normalized_length.
    apply (block_length _ _ (n * c)); assumption. }
  rewrite (setitem2_splice d n c rest b ch v Hs Hb Hch Hvw eq_refl).
  eexists. split; [reflexivity|].
  replace (b * c + S ch) with (S (b * c + ch)) by lia.
  eapply (normalized_step (prod rest) (n * c) (b * c + ch) d
            {| dt := dt d; shape := rest;
               flat := block (prod rest) (b * c + ch) (flat d) |});
    try reflexivity; try assumption.
  apply data_blocks.
Qed.


Lemma normalization_per_channel_blocks :
  exists out,
    zero_mean_unit_variance_normalization data true epsilon = Ok out
    /\ normalized_up_to data epsilon (prod rest) (n * c) (n * c) out.
Proof.
  unfold zero_mean_unit_variance_normalization. rewrite data_shape.
  cbn [py_nth nth_error rbind]. unfold range.
  destruct (rfor_each_seq_inv
              (fun b d => normalized_up_to data epsilon (prod rest) (n * c) (b * c) d)
              (fun b d =>
                 (let? channels := py_nth (shape d) 1 in
                  rfor_each (range channels)
                    (fun ch d =>
                       let? sub := getitem2 d b ch in
                       let? normalized := normalize sub epsilon in
                       setitem2 d b ch normalized) d)%result)
              n 0 data) as [out [Hout Hinv]].
  - apply normalized_up_to_init.
  - intros b d Hb Hinv. pose proof Hinv as [Hs _]. rewrite data_shape in Hs.
    rewrite Hs. cbn [py_nth nth_error rbind]. unfold range.
    destruct (rfor_each_seq_inv
                (fun ch d => normalized_up_to data epsilon (prod rest) (n * c)
                                              (b * c + ch) d)
                (fun ch d =>
                   (let? sub := getitem2 d b ch in
                    let? normalized := normalize sub epsilon in
                    setitem2 d b ch normalized)%result)
                c 0 d) as [d' [Hd' Hinv']].
    + rewrite Nat.add_0_r. exact Hinv.
    + intros ch t Hch Ht. apply per_channel_step; [lia | lia | exact Ht].
    + exists d'. split; [exact Hd'|].
      replace (S b * c) with (b * c + (0 + c)) by lia. exact Hinv'.
  - exists out. split; [exact Hout|]. exact Hinv.
Qed.


End NormalisationBlocks.



Lemma INR_length_pos {A} (l : list A) : l <> [] -> (0 < INR (length l))%R.
Proof.
  intros H. destruct l as [|x l]; [contradiction|].
  apply lt_0_INR. simpl. lia.
Qed.

Lemma std_of_nonneg l : (0 <= std_of l)%R.
Proof. unfold std_of. apply sqrt_pos. Qed.



Lemma mean_of_constant l v :
  l <> [] -> (forall x, In x l -> x = v) -> mean_of l = v.
Proof.
  intros Hl Hc. pose proof (INR_length_pos l Hl) as Hn.
  assert (Hsum : Rsum l = (INR (length l) * v)%R).
  { clear Hl Hn. induction l as [|x l IH]; [simpl; ring|].
    cbn [Rsum fold_right length]. fold (Rsum l).
    rewrite IH by (intros y Hy; apply Hc; right; exact Hy).
    rewrite (Hc x (or_introl eq_refl)), S_INR. ring. }
  unfold mean_of. rewrite Hsum. field. lra.
Qed.

Lemma normalized_constant l v epsilon :
  l <> [] -> (0 < epsilon)%R -> (forall x, In x l -> x = v) ->
  forall y, In y (normalized l epsilon) -> y = 0%R.
Proof.
  intros Hl He Hc y Hy. pose proof (std_of_nonneg l) as Hs.
  unfold normalized in Hy. apply in_map_iff in Hy. destruct Hy as [x [<- Hx]].
  rewrite (mean_of_constant l v Hl Hc), (Hc x Hx). field. lra.
Qed.

Lemma block_nonempty q k m (l : list R) :
  length l = m * q -> k < m -> 0 < q -> block q k l <> [].
Proof.
  intros Hl Hk Hq E. pose proof (block_length q k m l Hl Hk) as H.
  rewrite E in H. simpl in H. lia.
Qed.

Section NormalisationOutput.

Variable data : ndarray.
Variable epsilon : R.
Variables n c : nat.
Variable rest : list nat.
Hypothesis eps_pos : (0 < epsilon)%R.
Hypothesis data_wf : wf data.
Hypothesis data_shape : shape data = n :: c :: rest.

Lemma per_channel_output :
  exists out,
    zero_mean_unit_variance_normalization data true epsilon = Ok out
    /\ shape out = shape data /\ dt out = dt data
    /\ forall b ch,
        b < n -> ch < c ->
        getitem2 data b ch
        = Ok {| dt := dt data; shape := rest;
                flat := block (prod rest) (b * c + ch) (flat data) |}
        /\ getitem2 out b ch
           = Ok {| dt := dt data; shape := rest;
                   flat := normalized (block (prod rest) (b * c + ch) (flat data))
                                      epsilon |}.
Proof.
  destruct (normalization_per_channel_blocks data epsilon eps_pos data_wf
              n c rest data_shape) as [out [Hout [Hs [Hw [Hd Hb]]]]].
  exists out. split; [exact Hout|]. split; [exact Hs|]. split; [exact Hd|].
  intros b ch Hb' Hch.
  split; [apply (getitem2_block data n c rest); assumption|].
  rewrite (getitem2_block out n c rest b ch) by (try assumption; congruence).
  rewrite Hd. rewrite (Hb (b * c + ch)) by nia.
  rewrite (proj2 (Nat.ltb_lt _ _)) by nia. reflexivity.
Qed.


End NormalisationOutput.







(** X9.  A constant channel, whose standard deviation is zero, is
    mapped to zeros: [epsilon] keeps the division defined. *)
Theorem normalization_of_constant_channel data epsilon n c rest b ch v :
  (0 < epsilon)%R -> wf data -> shape data = n :: c :: rest ->
  0 < prod rest -> b < n -> ch < c ->
  (forall sub, getitem2 data b ch = Ok sub ->
               forall x, In x (flat sub) -> x = v) ->
  exists out sub',
    zero_mean_unit_variance_normalization data true epsilon = Ok out
    /\ getitem2 out b ch = Ok sub'
    /\ forall y, In y (flat sub') -> y = 0%R.
Proof.
  intros He Hw Hs Hp Hb Hch Hconst.
  destruct (per_channel_output data epsilon n c rest He Hw Hs)
    as [out [Hout [_ [_ H]]]].
  destruct (H b ch Hb Hch) as [H1 H2].
  exists out. eexists. split; [exact Hout|]. split; [exact H2|].
  cbn [flat].
  apply (normalized_constant _ v epsilon); [|exact He|].
  - apply (block_nonempty _ _ (n * c)); [|nia | exact Hp].
    rewrite Hw, Hs. simpl. lia.
  - apply (Hconst _ H1).
Qed.

Lemma normalization_of_constant_channel_witness :
  exists out sub',
    zero_mean_unit_variance_normalization two_channels true (1 / 10000000)
    = Ok out
    /\ getitem2 out 0 1 = Ok sub'
    /\ forall y, In y (flat sub') -> y = 0%R.
Proof.
  apply (normalization_of_constant_channel
           two_channels (1 / 10000000) 1 2 [2; 1] 0 1 5%R);
    [lra | reflexivity | reflexivity | simpl; lia | lia | lia |].
  intros sub Hsub x Hx.
  rewrite (getitem2_block two_channels 1 2 [2; 1] 0 1 eq_refl) in Hsub by lia.
  inversion Hsub; subst. cbn in Hx.
  destruct Hx as [<-|[<-|[]]]; reflexivity.
Defined.

(** ** Cutting and padding *)

Lemma clamp_shape_length lims sh :
  length (clamp_shape lims sh) = length sh.
Proof.
  revert sh. induction lims as [|l lims IH]; intros [|n sh]; simpl;
    try reflexivity. rewrite IH. reflexivity.
Qed.

Lemma valid_index_clamp lims sh idx :
  length lims = length sh ->
  valid_index (clamp_shape lims sh) idx
  = valid_index lims idx && valid_index sh idx.
Proof.
  revert sh idx. induction lims as [|l lims IH]; intros [|n sh] idx Hlen;
    simpl in Hlen; try discriminate.
  - destruct idx; reflexivity.
  - destruct idx as [|i idx]; [reflexivity|]. simpl.
    rewrite IH by lia.
    destruct (Nat.ltb_spec i (Nat.min l n)), (Nat.ltb_spec i l),
      (Nat.ltb_spec i n); simpl; try reflexivity; try lia;
      destruct (valid_index lims idx); reflexivity.
Qed.

Lemma clamp_shape_again lims sh :
  length lims = length sh ->
  clamp_shape (clamp_shape lims sh) lims = clamp_shape lims sh.
Proof.
  revert sh. induction lims as [|l lims IH]; intros [|n sh] Hlen;
    simpl in Hlen; try discriminate; [reflexivity|].
  simpl. rewrite IH by lia. f_equal. lia.
Qed.

Lemma broadcast_get_same_fun (v : ndarray) :
  broadcast_get v (shape v)
  = Some (fun idx =>
            nth (ravel (shape v) (bcast_index (shape v) idx)) (flat v) 0%R).
Proof.
  unfold broadcast_get. rewrite Nat.sub_diag, strip_ones_0.
  rewrite Nat.ltb_irrefl, Nat.sub_diag. cbn [repeat app].
  rewrite bcast_ok_refl. reflexivity.
Qed.

(** X10.  The image written back by [augment_linear_downsampling_scipy]
    has the shape of the image read; it agrees with the re-upsampled
    image wherever that image has an element, and is zero elsewhere:
    what sticks out is cut, what is missing is padded with zeros. *)
Theorem restore_shape_content d img img_up :
  length (shape img) = d -> length (shape img_up) = d ->
  exists p,
    restore_shape d img img_up = Ok p
    /\ shape p = shape img
    /\ forall idx,
        valid_index (shape img) idx = true ->
        get p idx
        = if valid_index (shape img_up) idx then get img_up idx else 0%R.
Proof.
  intros Hi Hu. subst d. unfold restore_shape, first_dims.
  rewrite Nat.ltb_irrefl, firstn_all. cbn [rbind].
  unfold corner. rewrite Hu, Nat.ltb_irrefl. cbn [rbind].
  set (cut := build (dt img_up) (clamp_shape (shape img) (shape img_up))
                    (get img_up)).
  assert (Hcut : shape cut = clamp_shape (shape img) (shape img_up))
    by reflexivity.
  assert (Hcl : length (shape cut) = length (shape img))
    by (rewrite Hcut, clamp_shape_length; exact Hu).
  rewrite Hcl, Nat.ltb_irrefl. cbn [rbind].
  rewrite <- Hcl, firstn_all.
  unfold set_corner. cbn [shape zeros].
  rewrite Hcl, Nat.ltb_irrefl.
  assert (Hregion : clamp_shape (shape cut) (shape img) = shape cut).
  { rewrite Hcut. apply clamp_shape_again. congruence. }
  rewrite Hregion, broadcast_get_same_fun.
  eexists. split; [reflexivity|]. split; [reflexivity|].
  intros idx Hidx. rewrite get_build by exact Hidx.
  rewrite Hcut, valid_index_clamp by congruence. rewrite Hidx. cbn [andb].
  destruct (valid_index (shape img_up) idx) eqn:E.
  - assert (Hv : valid_index (clamp_shape (shape img) (shape img_up)) idx = true)
      by (rewrite valid_index_clamp by congruence; rewrite Hidx, E; reflexivity).
    rewrite bcast_index_valid by exact Hv.
    change (get cut idx = get img_up idx).
    unfold cut. apply get_build. exact Hv.
  - apply get_zeros.
Qed.

Lemma restore_shape_content_witness :
  length (shape {| dt := Float32; shape := [2; 2]; flat := [1; 2; 3; 4]%R |}) = 2
  /\ length (shape {| dt := Float32; shape := [1; 3];
                      flat := [7; 8; 9]%R |}) = 2
  /\ exists p,
      restore_shape 2
        {| dt := Float32; shape := [2; 2]; flat := [1; 2; 3; 4]%R |}
        {| dt := Float32; shape := [1; 3]; flat := [7; 8; 9]%R |} = Ok p
      /\ shape p = [2; 2]
      /\ forall idx,
          valid_index [2; 2] idx = true ->
          get p idx
          = if valid_index [1; 3] idx
            then get {| dt := Float32; shape := [1; 3];
                        flat := [7; 8; 9]%R |} idx
            else 0%R.
Proof.
  split; [reflexivity|]. split; [reflexivity|].
  apply (restore_shape_content 2
           {| dt := Float32; shape := [2; 2]; flat := [1; 2; 3; 4]%R |}
           {| dt := Float32; shape := [1; 3]; flat := [7; 8; 9]%R |});
    reflexivity.
Defined.

(** ** The engine: reads of the random generator *)

Lemma steady_ret {A} (a : A) : steady (ret a).
Proof. intros w b w' H. apply ret_ok in H. destruct H; subst; reflexivity. Qed.

Lemma steady_lift {A} (r : result A) : steady (lift r).
Proof. intros w b w' H. apply lift_ok in H. destruct H; subst; reflexivity. Qed.

Lemma steady_raise {A} e : steady (@raise A e).
Proof. intros w b w' H. discriminate H. Qed.

Lemma steady_print l : steady (print l).
Proof. intros w b w' H. unfold print in H. inversion H; subst. reflexivity. Qed.

Lemma steady_bind {A B} (m : M A) (k : A -> M B) :
  steady m -> (forall a, steady (k a)) -> steady (bind m k).
Proof.
  intros Hm Hk w b w' H. apply bind_ok in H. destruct H as [a [w1 [H1 H2]]].
  rewrite (Hk a _ _ _ H2). apply (Hm _ _ _ H1).
Qed.

Ltac steady_step :=
  first [ apply steady_ret | apply steady_lift | apply steady_raise
        | apply steady_print
        | apply steady_bind; [|intros]
        | match goal with
          | |- steady (if ?b then _ else _) => destruct b
          | |- steady (match ?x with _ => _ end) => destruct x
          end ].

Ltac steady_all := repeat steady_step.

Lemma skip_draws_advance w :
  gen (advance (advance (advance w))) = skip_draws 3 (gen w).
Proof.
  unfold advance, skip_draws. cbn [gen draws pos]. f_equal. lia.
Qed.

Lemma skip_draws_add j k g : skip_draws k (skip_draws j g) = skip_draws (j + k) g.
Proof. unfold skip_draws. cbn [draws pos]. f_equal. lia. Qed.

Lemma for_each_skips {S} (l : list nat) (body : nat -> S -> M S) (k : nat) :
  (forall x s w s' w', body x s w = Ok (s', w') ->
                       gen w' = skip_draws k (gen w)) ->
  forall s w s' w',
    for_each l body s w = Ok (s', w') ->
    gen w' = skip_draws (k * length l) (gen w).
Proof.
  intros Hb. induction l as [|x l IH]; intros s w s' w' H; simpl in H.
  - apply ret_ok in H. destruct H as [_ ->]. unfold skip_draws.
    rewrite Nat.mul_0_r, Nat.add_0_r. destruct (gen w); reflexivity.
  - apply bind_ok in H. destruct H as [s1 [w1 [H1 H2]]].
    rewrite (IH _ _ _ _ H2), (Hb _ _ _ _ _ H1), skip_draws_add.
    f_equal. simpl. lia.
Qed.

Section FastPathDraws.

Context {prims : Primitives}.
Variable data : ndarray.
Variable seg : option ndarray.
Variable patch_size : list nat.
Variable cfg : spatial_params.
Hypothesis no_elastic : do_elastic_deform cfg = false.
Hypothesis no_rotation : do_rotation cfg = false.
Hypothesis no_scale : do_scale cfg = false.
Hypothesis centered : random_crop cfg = false.

Lemma steady_crop dim dist i dr sr :
  steady (crop data seg patch_size cfg dim dist i dr sr).
Proof. unfold crop. rewrite centered. steady_all. Qed.

Lemma steady_correct_peaks i dr : steady (correct_peaks i dr).
Proof. unfold correct_peaks, rotate_peaks_all. steady_all. Qed.

Lemma augment_sample_fast_draws dim dist i l w l' w' :
  augment_sample data seg patch_size cfg dim dist i l w = Ok (l', w') ->
  gen w' = skip_draws 3 (gen w).
Proof.
  intros H.
  destruct (create_zero_centered_coordinate_mesh patch_size) as [coords|e] eqn:Hm.
  - rewrite (augment_sample_fast_path cfg data seg patch_size dim dist i l w
               coords no_elastic no_rotation no_scale Hm) in H.
    rewrite <- skip_draws_advance. revert H.
    generalize (advance (advance (advance w))). intros w3 H.
    apply bind_ok in H. destruct H as [[dr sr] [w4 [H4 H]]].
    apply steady_crop in H4.
    apply bind_ok in H. destruct H as [dr' [w5 [H5 H]]].
    apply steady_correct_peaks in H5.
    apply ret_ok in H. destruct H as [_ ->]. congruence.
  - unfold augment_sample, bind, lift in H. rewrite Hm in H. discriminate.
Qed.

(** X11.  With the three effects disabled and a centered crop,
    [augment_spatial] still reads the random generator: exactly three
    variates per sample, the three activation draws, and no more. *)
Theorem fast_path_reads_three_variates_per_sample w data_out seg_out w' :
  augment_spatial data seg patch_size cfg w = Ok (data_out, seg_out, w') ->
  exists n,
    nth_error (shape data) 0 = Some n
    /\ draws (gen w') = draws (gen w)
    /\ pos (gen w') = pos (gen w) + 3 * n.
Proof.
  unfold augment_spatial, augment_spatial_locals. intros H.
  apply bind_ok in H. destruct H as [l [w1 [H H0]]].
  apply ret_ok in H0. destruct H0 as [_ ->].
  apply bind_ok in H. destruct H as [sr [w2 [H2 H]]].
  apply lift_ok in H2. destruct H2 as [_ ->].
  apply bind_ok in H. destruct H as [dr [w3 [H3 H]]].
  apply lift_ok in H3. destruct H3 as [_ ->].
  apply bind_ok in H. destruct H as [n [w4 [H4 H]]].
  apply lift_ok in H4. destruct H4 as [Hn ->].
  exists n. split; [apply py_nth_ok; exact Hn|].
  apply (for_each_skips _ _ 3) in H.
  - rewrite H. unfold skip_draws, range. cbn [draws pos].
    rewrite length_seq. split; reflexivity.
  - intros x s w0 s' w0'. apply augment_sample_fast_draws.
Qed.

End FastPathDraws.

Lemma fast_path_reads_three_variates_per_sample_witness :
  exists n,
    nth_error (shape one_peak_2d) 0 = Some n
    /\ draws (gen {| gen := {| draws := fun _ => 0%R; pos := 3 |};
                     stdout := angle_lines 1 0 0 |}) = draws (gen world0)
    /\ pos (gen {| gen := {| draws := fun _ => 0%R; pos := 3 |};
                   stdout := angle_lines 1 0 0 |}) = pos (gen world0) + 3 * n.
Proof.
  apply (fast_path_reads_three_variates_per_sample
           (prims := stand_in_primitives)
           one_peak_2d (Some one_label_2d) [1; 1] crop_only_params
           eq_refl eq_refl eq_refl eq_refl world0 _ _ _ crop_only_run).
Defined.

(** ** The engine on a batch without samples *)

(** X12.  On a batch without samples [augment_spatial] returns the
    empty data result of shape [(0, c, *patch_size)] at once, and, when
    a segmentation is given, its zero-filled result of shape
    [(seg.shape[0], seg.shape[1], *patch_size)]: the generator is not
    read and nothing is printed. *)
Theorem augment_spatial_empty_batch
        {prims : Primitives} data seg c rest patch_size cfg w :
  shape data = 0 :: c :: rest ->
  length patch_size = 2 \/ length patch_size = 3 ->
  (forall sg, seg = Some sg -> 2 <= length (shape sg)) ->
  augment_spatial data seg patch_size cfg w
  = Ok (zeros Float32 (0 :: c :: patch_size),
        option_map
          (fun sg => zeros Float32 (nth 0 (shape sg) 0 :: nth 1 (shape sg) 0
                                      :: patch_size))
          seg,
        w).
Proof.
  intros Hs Hlen Hseg.
  unfold augment_spatial, augment_spatial_locals, alloc_seg_result,
    alloc_result, bind, lift, ret.
  rewrite Hs.
  destruct seg as [sg|].
  - specialize (Hseg sg eq_refl).
    destruct (shape sg) as [|ns [|cs rest_s]] eqn:Hsg; simpl in Hseg;
      try (exfalso; lia).
    destruct patch_size as [|p0 [|p1 [|p2 [|p3 ps]]]]; simpl in Hlen;
      try (exfalso; lia); cbn; rewrite Hsg; reflexivity.
  - destruct patch_size as [|p0 [|p1 [|p2 [|p3 ps]]]]; simpl in Hlen;
      try (exfalso; lia); reflexivity.
Qed.

Lemma augment_spatial_empty_batch_witness :
  augment_spatial (prims := stand_in_primitives)
    empty_batch
    (Some {| dt := Float32; shape := [0; 1; 4; 4]; flat := [] |})
    [2; 2] default_params world0
  = Ok (zeros Float32 (0 :: 3 :: [2; 2]),
        option_map
          (fun sg => zeros Float32 (nth 0 (shape sg) 0 :: nth 1 (shape sg) 0
                                      :: [2; 2]))
          (Some {| dt := Float32; shape := [0; 1; 4; 4]; flat := [] |}),
        world0).
Proof.
  apply (augment_spatial_empty_batch (prims := stand_in_primitives)
           empty_batch
           (Some {| dt := Float32; shape := [0; 1; 4; 4]; flat := [] |})
           3 [4; 4] [2; 2] default_params world0);
    [reflexivity | left; reflexivity |].
  intros sg H. injection H as <-. simpl. lia.
Defined.

(** ** The adapter *)

Lemma dict_get_set_same d key v : dict_get (dict_set d key v) key = v.
Proof.
  induction d as [|[k v'] d IH]; simpl.
  - rewrite String.eqb_refl. reflexivity.
  - destruct (String.eqb k key) eqn:E; simpl; rewrite E; [reflexivity | exact IH].
Qed.

Lemma dict_get_set_other d key key' v :
  key <> key' -> dict_get (dict_set d key v) key' = dict_get d key'.
Proof.
  intros Hne. induction d as [|[k v'] d IH]; simpl.
  - rewrite (proj2 (String.eqb_neq key key') Hne). reflexivity.
  - destruct (String.eqb k key) eqn:E; simpl.
    + apply String.eqb_eq in E. subst k.
      rewrite (proj2 (String.eqb_neq key key') Hne). reflexivity.
    + destruct (String.eqb k key'); [reflexivity | exact IH].
Qed.

Section AdapterFacts.

Context {prims : Primitives}.

Lemma augment_spatial_data_form data seg patch_size cfg w data_out seg_out w' :
  length patch_size = 2 \/ length patch_size = 3 ->
  augment_spatial data seg patch_size cfg w = Ok (data_out, seg_out, w') ->
  exists n c rest,
    shape data = n :: c :: rest
    /\ shape data_out = n :: c :: patch_size /\ dt data_out = Float32.
Proof.
  intros Hlen H. unfold augment_spatial in H.
  apply bind_ok in H. destruct H as [l [w1 [Hl H]]].
  apply ret_ok in H. destruct H as [H _]. inversion H; subst.
  apply augment_spatial_locals_form in Hl.
  destruct Hl as [dr0 [sr0 [Hdr [_ [[Hd1 Hd2] _]]]]].
  destruct (alloc_result_shape data patch_size dr0 Hlen Hdr)
    as [n [c [rest [E1 [E2 E3]]]]].
  exists n, c, rest. split; [exact E1|]. split; congruence.
Qed.

(** What a successful call of the adapter returns. *)
Lemma adapter_call_ok self d w d' w' :
  SpatialTransform_Custom_call self d w = Ok (d', w') ->
  exists a patch_size data_out seg_out,
    dict_get d (self_data_key self) = Some a
    /\ augment_spatial a (dict_get d (self_label_key self)) patch_size
         (self_params self) w = Ok (data_out, seg_out, w')
    /\ (self_patch_size self = Some patch_size
        \/ self_patch_size self = None
           /\ (length patch_size = 2 \/ length patch_size = 3)
           /\ exists n c, shape a = n :: c :: patch_size)
    /\ d' = match dict_get d (self_label_key self) with
            | None => dict_set d (self_data_key self) (Some data_out)
            | Some _ =>
                dict_set (dict_set d (self_data_key self) (Some data_out))
                         (self_label_key self) seg_out
            end.
Proof.
  unfold SpatialTransform_Custom_call. intros H.
  apply bind_ok in H. destruct H as [patch_size [w1 [Hp H]]].
  destruct (dict_get d (self_data_key self)) as [a|] eqn:Ha.
  - apply bind_ok in H. destruct H as [[data_out seg_out] [w2 [Hrun H]]].
    assert (Hw : w1 = w /\
                 (self_patch_size self = Some patch_size
                  \/ self_patch_size self = None
                     /\ (length patch_size = 2 \/ length patch_size = 3)
                     /\ exists n c, shape a = n :: c :: patch_size)).
    { destruct (self_patch_size self) as [p|].
      - apply ret_ok in Hp. destruct Hp as [-> ->]. split; [reflexivity|].
        left; reflexivity.
      - destruct (shape a) as [|s0 [|s1 [|s2 [|s3 [|s4 [|s5 rest]]]]]];
          try discriminate Hp;
          apply ret_ok in Hp; destruct Hp as [-> ->];
          (split; [reflexivity|]); right; (split; [reflexivity|]).
        + split; [left; reflexivity|]. exists s0, s1. reflexivity.
        + split; [right; reflexivity|]. exists s0, s1. reflexivity. }
    destruct Hw as [-> Hpatch].
    exists a, patch_size, data_out, seg_out.
    split; [reflexivity|].
    destruct (dict_get d (self_label_key self)) as [sg|];
      apply ret_ok in H; destruct H as [-> ->]; auto.
  - apply bind_ok in H. destruct H as [u [w2 [_ H]]]. discriminate H.
Qed.

(** X13.  [SpatialTransform_Custom.__call__] changes the entries under
    its data key and its label key only, and adds no label entry when
    there was none. *)
Theorem adapter_touches_only_its_keys self d w d' w' :
  SpatialTransform_Custom_call self d w = Ok (d', w') ->
  (forall key, key <> self_data_key self -> key <> self_label_key self ->
               dict_get d' key = dict_get d key)
  /\ (dict_get d (self_label_key self) = None ->
      self_label_key self <> self_data_key self ->
      dict_get d' (self_label_key self) = None).
Proof.
  intros H. apply adapter_call_ok in H.
  destruct H as [a [patch_size [data_out [seg_out [Ha [_ [_ Hd]]]]]]].
  split.
  - intros key Hk1 Hk2. rewrite Hd.
    destruct (dict_get d (self_label_key self)).
    + rewrite !dict_get_set_other by congruence. reflexivity.
    + rewrite dict_get_set_other by congruence. reflexivity.
  - intros Hnone Hne. rewrite Hd, Hnone.
    rewrite dict_get_set_other by congruence. exact Hnone.
Qed.

(** X14.  When no patch size is configured, the adapter takes the
    spatial shape of the data batch as the patch: the data entry of the
    result has the shape of the data entry of the input, as float32. *)
Theorem adapter_without_patch_keeps_shape self d w d' w' a :
  self_patch_size self = None ->
  self_label_key self <> self_data_key self ->
  dict_get d (self_data_key self) = Some a ->
  SpatialTransform_Custom_call self d w = Ok (d', w') ->
  exists data_out,
    dict_get d' (self_data_key self) = Some data_out
    /\ shape data_out = shape a /\ dt data_out = Float32.
Proof.
  intros Hnone Hne Ha H. apply adapter_call_ok in H.
  destruct H as [a' [patch_size [data_out [seg_out [Ha' [Hrun [Hp Hd]]]]]]].
  rewrite Ha in Ha'. inversion Ha'; subst a'.
  destruct Hp as [Hp | [_ [Hlen [n [c Hs]]]]]; [congruence|].
  destruct (augment_spatial_data_form _ _ _ _ _ _ _ _ Hlen Hrun)
    as [n' [c' [rest [E1 [E2 E3]]]]].
  exists data_out. split.
  - rewrite Hd. destruct (dict_get d (self_label_key self)).
    + rewrite dict_get_set_other by congruence. apply dict_get_set_same.
    + apply dict_get_set_same.
  - split; [|exact E3]. rewrite E2, Hs. rewrite Hs in E1.
    inversion E1; subst. reflexivity.
Qed.

End AdapterFacts.

Lemma crop_only_adapter_run :
  SpatialTransform_Custom_call (prims := stand_in_primitives)
    crop_only_adapter sample_record world0
  = Ok ([("data"%string,
          Some {| dt := Float32; shape := [1; 3; 1; 1];
                  flat := [0; cos 1; - sin 1]%R |});
         ("seg"%string,
          Some {| dt := Float32; shape := [1; 1; 1; 1]; flat := [1%R] |});
         ("subject"%string, Some one_channel_2x2)],
        {| gen := {| draws := fun _ => 0%R; pos := 3 |};
           stdout := angle_lines 1 0 0 |}).
Proof.
  unfold SpatialTransform_Custom_call.
  cbn [crop_only_adapter sample_record self_patch_size self_data_key
       self_label_key self_params dict_get String.eqb Ascii.eqb Bool.eqb].
  run_step reflexivity.
  run_step ltac:(apply crop_only_run).
  reflexivity.
Qed.

Lemma crop_only_adapter_without_patch_run :
  SpatialTransform_Custom_call (prims := stand_in_primitives)
    crop_only_adapter_without_patch sample_record world0
  = Ok ([("data"%string,
          Some {| dt := Float32; shape := [1; 3; 1; 1];
                  flat := [0; cos 1; - sin 1]%R |});
         ("seg"%string,
          Some {| dt := Float32; shape := [1; 1; 1; 1]; flat := [1%R] |});
         ("subject"%string, Some one_channel_2x2)],
        {| gen := {| draws := fun _ => 0%R; pos := 3 |};
           stdout := angle_lines 1 0 0 |}).
Proof.
  unfold SpatialTransform_Custom_call.
  cbn [crop_only_adapter_without_patch sample_record self_patch_size
       self_data_key self_label_key self_params dict_get String.eqb
       Ascii.eqb Bool.eqb one_peak_2d shape].
  run_step reflexivity.
  run_step ltac:(apply crop_only_run).
  reflexivity.
Qed.

Lemma adapter_touches_only_its_keys_witness :
  (forall key, key <> "data"%string -> key <> "seg"%string ->
               dict_get
                 [("data"%string,
                   Some {| dt := Float32; shape := [1; 3; 1; 1];
                           flat := [0; cos 1; - sin 1]%R |});
                  ("seg"%string,
                   Some {| dt := Float32; shape := [1; 1; 1; 1];
                           flat := [1%R] |});
                  ("subject"%string, Some one_channel_2x2)] key
               = dict_get sample_record key)
  /\ (dict_get sample_record "seg" = None ->
      "seg"%string <> "data"%string ->
      dict_get
        [("data"%string,
          Some {| dt := Float32; shape := [1; 3; 1; 1];
                  flat := [0; cos 1; - sin 1]%R |});
         ("seg"%string,
          Some {| dt := Float32; shape := [1; 1; 1; 1]; flat := [1%R] |});
         ("subject"%string, Some one_channel_2x2)] "seg" = None).
Proof.
  apply (adapter_touches_only_its_keys (prims := stand_in_primitives)
           crop_only_adapter sample_record world0 _ _ crop_only_adapter_run).
Defined.

Lemma adapter_without_patch_keeps_shape_witness :
  exists data_out,
    dict_get
      [("data"%string,
        Some {| dt := Float32; shape := [1; 3; 1; 1];
                flat := [0; cos 1; - sin 1]%R |});
       ("seg"%string,
        Some {| dt := Float32; shape := [1; 1; 1; 1]; flat := [1%R] |});
       ("subject"%string, Some one_channel_2x2)] "data" = Some data_out
    /\ shape data_out = shape one_peak_2d /\ dt data_out = Float32.
Proof.
  assert (Hne : self_label_key crop_only_adapter_without_patch
                <> self_data_key crop_only_adapter_without_patch)
    by discriminate.
  apply (adapter_without_patch_keeps_shape (prims := stand_in_primitives)
           crop_only_adapter_without_patch sample_record world0 _ _ one_peak_2d
           eq_refl Hne eq_refl crop_only_adapter_without_patch_run).
Defined.

(** ** The pipeline *)

Lemma pbind_done {A B} (m : P A) (k : A -> P B) w a w1 :
  m w = Done (a, w1) -> pbind m k w = k a w1.
Proof. intros H. unfold pbind. rewrite H. reflexivity. Qed.

Lemma pbind_fails {A B} (m : P A) (k : A -> P B) w e :
  m w = Fails e -> pbind m k w = Fails e.
Proof. intros H. unfold pbind. rewrite H. reflexivity. Qed.

Lemma pbind_inv {A B} (m : P A) (k : A -> P B) w b w' :
  pbind m k w = Done (b, w') ->
  exists a w1, m w = Done (a, w1) /\ k a w1 = Done (b, w').
Proof.
  unfold pbind. destruct (m w) as [[a w1]|e]; intros H; [|discriminate].
  exists a, w1. auto.
Qed.

Lemma Compose_call_app_eq (ts1 ts2 : list transform) d w :
  Compose_call (ts1 ++ ts2) d w
  = pbind (Compose_call ts1 d) (Compose_call ts2) w.
Proof.
  unfold Compose_call. revert d w.
  induction ts1 as [|t ts1 IH]; intros d w; simpl.
  - reflexivity.
  - unfold pbind. destruct (t d w) as [[d1 w1]|e]; [|reflexivity].
    specialize (IH d1 w1). unfold pbind in IH. exact IH.
Qed.

(** X15.  [Compose] applies its transforms from left to right, each
    one to the record returned by the previous one: composing a
    concatenated list is composing the two parts in sequence, a
    [Compose] nested at the head of a list can be flattened, and when
    a transform fails, the failure is the result and the transforms
    after it do not run. *)
Theorem Compose_call_composes (ts1 ts2 : list transform) d w :
  Compose_call (ts1 ++ ts2) d w
  = pbind (Compose_call ts1 d) (Compose_call ts2) w
  /\ Compose_call (Compose_call ts1 :: ts2) d w
     = Compose_call (ts1 ++ ts2) d w
  /\ forall e, Compose_call ts1 d w = Fails e ->
               Compose_call (ts1 ++ ts2) d w = Fails e.
Proof.
  split; [apply Compose_call_app_eq|]. split.
  - rewrite Compose_call_app_eq. reflexivity.
  - intros e H. rewrite Compose_call_app_eq. apply pbind_fails. exact H.
Qed.

Lemma dict_get_some_mem d key a :
  dict_get d key = Some a -> dict_mem d key = true.
Proof.
  induction d as [|[k v] d IH]; simpl; [discriminate|].
  destruct (String.eqb k key); [reflexivity | exact IH].
Qed.

Lemma of_result_ok {A} (r : result A) a w :
  r = Ok a -> of_result r w = Done (a, w).
Proof. intros ->. reflexivity. Qed.

(** X16.  [ZeroMeanUnitVarianceTransform.__call__] fails with a
    [KeyError] when the record has no entry under its data key;
    otherwise it replaces that entry by its normalisation and leaves
    every other entry, the labels included, as it is. *)
Theorem normalisation_transform_call self d w :
  (dict_mem d (zm_data_key self) = false ->
   ZeroMeanUnitVarianceTransform_call self d w
   = Fails (KeyError (Some (zm_data_key self))))
  /\ forall a,
      dict_get d (zm_data_key self) = Some a ->
      (0 < zm_epsilon self)%R -> 2 <= length (shape a) ->
      exists out,
        zero_mean_unit_variance_normalization
          a (zm_per_channel self) (zm_epsilon self) = Ok out
        /\ ZeroMeanUnitVarianceTransform_call self d w
           = Done (dict_set d (zm_data_key self) (Some out), w)
        /\ forall key,
            key <> zm_data_key self ->
            dict_get (dict_set d (zm_data_key self) (Some out)) key
            = dict_get d key.
Proof.
  split.
  - intros H. unfold ZeroMeanUnitVarianceTransform_call, dict_item, pbind, pfail.
    rewrite H. reflexivity.
  - intros a Ha He Hr.
    destruct (normalization_total a (zm_per_channel self) (zm_epsilon self) He Hr)
      as [out [Hout _]].
    exists out. split; [exact Hout|]. split.
    + unfold ZeroMeanUnitVarianceTransform_call, dict_item.
      rewrite (dict_get_some_mem d _ a Ha), Ha.
      unfold pbind, pret. rewrite (of_result_ok _ out w Hout). reflexivity.
    + intros key Hk. apply dict_get_set_other. congruence.
Qed.

Lemma normalisation_transform_call_witness :
  ZeroMeanUnitVarianceTransform_call normalise_data
    [("seg"%string, Some one_label_2d)] world0
  = Fails (KeyError (Some "data"%string))
  /\ exists out,
      zero_mean_unit_variance_normalization one_peak_2d true (1 / 10000000)
      = Ok out
      /\ ZeroMeanUnitVarianceTransform_call normalise_data sample_record world0
         = Done (dict_set sample_record "data" (Some out), world0)
      /\ forall key,
          key <> "data"%string ->
          dict_get (dict_set sample_record "data" (Some out)) key
          = dict_get sample_record key.
Proof.
  split.
  - apply (proj1 (normalisation_transform_call normalise_data
                    [("seg"%string, Some one_label_2d)] world0)).
    reflexivity.
  - apply (proj2 (normalisation_transform_call normalise_data
                    sample_record world0) one_peak_2d);
      [reflexivity | cbn [normalise_data zm_epsilon]; lra | simpl; lia].
Defined.

Section LegacyFacts.

Context {scipy : Scipy}.

(** X17.  [ResampleTransformLegacy.__call__] reads and writes the
    fixed key ['data']: without that entry it fails with a
    [KeyError]; an invalid zoom range, accepted by the constructor,
    makes every call on a record with that entry fail with the
    configuration error; and a call that returns has replaced the
    data by an array of the same shape and changed nothing else. *)
Theorem legacy_resample_call self d w :
  (dict_mem d "data" = false ->
   ResampleTransformLegacy_call self d w = Fails (KeyError (Some "data"%string)))
  /\ (dict_mem d "data" = true ->
      (snd (rs_zoom_range self) + 1 / 1000000 <= fst (rs_zoom_range self))%R ->
      ResampleTransformLegacy_call self d w = Fails (Builtin zoom_range_error))
  /\ forall d' w',
      ResampleTransformLegacy_call self d w = Done (d', w') ->
      exists a out,
        dict_get d "data" = Some a /\ dict_get d' "data" = Some out
        /\ shape out = shape a
        /\ forall key, key <> "data"%string -> dict_get d' key = dict_get d key.
Proof.
  split; [|split].
  - intros H. unfold ResampleTransformLegacy_call, dict_item, pbind, pfail.
    rewrite H. reflexivity.
  - intros Hm Hr. unfold ResampleTransformLegacy_call, dict_item.
    rewrite Hm. unfold pbind, pret, pfail.
    destruct (dict_get d "data") as [a|].
    + unfold of_M. rewrite (downsampling_rejects a _ w Hr). reflexivity.
    + rewrite (Rleb_true _ _ Hr). reflexivity.
  - intros d' w' H. unfold ResampleTransformLegacy_call, dict_item in H.
    destruct (dict_mem d "data"); [|discriminate H].
    unfold pbind at 1 in H. unfold pret at 1 in H.
    destruct (dict_get d "data") as [a|] eqn:Ha.
    + apply pbind_inv in H. destruct H as [out [w1 [Hrun H]]].
      unfold pret in H. inversion H; subst.
      unfold of_M in Hrun.
      destruct (augment_linear_downsampling_scipy a (rs_zoom_range self) w)
        as [[out' w2]|e] eqn:E; [|discriminate].
      inversion Hrun; subst.
      exists a, out. split; [reflexivity|].
      split; [apply dict_get_set_same|].
      split; [apply (downsampling_shape a _ w out w' E)|].
      intros key Hk. apply dict_get_set_other. congruence.
    + destruct (Rleb _ _); discriminate H.
Qed.

End LegacyFacts.

Lemma legacy_resample_call_witness :
  ResampleTransformLegacy_call (scipy := stand_in_scipy)
    {| rs_zoom_range := (1, 1 / 2)%R |} [] world0
  = Fails (KeyError (Some "data"%string))
  /\ ResampleTransformLegacy_call (scipy := stand_in_scipy)
       {| rs_zoom_range := (1, 1 / 2)%R |} sample_record world0
     = Fails (Builtin zoom_range_error).
Proof.
  split.
  - apply (proj1 (legacy_resample_call (scipy := stand_in_scipy)
                    {| rs_zoom_range := (1, 1 / 2)%R |} [] world0)).
    reflexivity.
  - apply (proj1 (proj2 (legacy_resample_call (scipy := stand_in_scipy)
                           {| rs_zoom_range := (1, 1 / 2)%R |}
                           sample_record world0)));
      [reflexivity | cbn [rs_zoom_range fst snd]; lra].
Defined.

Section TensorFacts.

Context {torch : Torch}.

(** X18.  A [NumpyToTensor] built with [keys=None] does not convert
    every entry: the constructor wraps [None] in a list, so the
    all-keys branch of [__call__] is never taken, for any argument,
    and every call fails with [KeyError(None)]. *)
Theorem tensor_conversion_default_keys cast_to pin (d : tensor_dict) w :
  (forall keys, nt_keys (NumpyToTensor_init keys cast_to pin) <> None)
  /\ NumpyToTensor_call (NumpyToTensor_init KeysNone cast_to pin) d w
     = Fails (KeyError None).
Proof.
  split; [intros keys; discriminate | reflexivity].
Qed.

Lemma tdict_find_set_same (d : tensor_dict) key v :
  tdict_find (tdict_set d key v) key = Some v.
Proof.
  induction d as [|[k v'] d IH]; simpl.
  - rewrite String.eqb_refl. reflexivity.
  - destruct (String.eqb k key) eqn:E; simpl; rewrite E; [reflexivity | exact IH].
Qed.

Lemma tdict_find_set_other (d : tensor_dict) key key' v :
  key <> key' -> tdict_find (tdict_set d key v) key' = tdict_find d key'.
Proof.
  intros Hne. induction d as [|[k v'] d IH]; simpl.
  - rewrite (proj2 (String.eqb_neq key key') Hne). reflexivity.
  - destruct (String.eqb k key) eqn:E; simpl.
    + apply String.eqb_eq in E. subst k.
      rewrite (proj2 (String.eqb_neq key key') Hne). reflexivity.
    + destruct (String.eqb k key'); [reflexivity | exact IH].
Qed.

Variable self : NumpyToTensor.
Variable f : tensor -> tensor.
Hypothesis cast_known :
  forall t w, NumpyToTensor_cast self t w = Done (f t, w).

Lemma convert_entry_run d key a w :
  exists d',
    convert_entry self d key a w = Done (d', w)
    /\ tdict_find d' key = Some (TTensor (if nt_pin_memory self then pin_memory (f (from_numpy a))
          else f (from_numpy a)))
    /\ forall k, k <> key -> tdict_find d' k = tdict_find d k.
Proof.
  unfold convert_entry.
  rewrite (pbind_done _ _ w _ w (cast_known (from_numpy a) w)).
  destruct (nt_pin_memory self); eexists; (split; [reflexivity|]); split.
  - apply tdict_find_set_same.
  - intros k Hk. rewrite !tdict_find_set_other by congruence. reflexivity.
  - apply tdict_find_set_same.
  - intros k Hk. rewrite tdict_find_set_other by congruence. reflexivity.
Qed.

Lemma convert_keys_run keys :
  NoDup keys ->
  forall d w,
    (forall k, In k keys -> exists a, tdict_find d k = Some (TArray a)) ->
    exists d',
      pfor_each (map Some keys)
        (fun key d =>
           match key with
           | None => pfail (KeyError None)
           | Some k =>
               match tdict_find d k with
               | None => pfail (KeyError (Some k))
               | Some (TArray a) => convert_entry self d k a
               | Some _ => pfail (Builtin TypeError)
               end
           end) d w = Done (d', w)
      /\ (forall k a, In k keys -> tdict_find d k = Some (TArray a) ->
                      tdict_find d' k = Some (TTensor (if nt_pin_memory self then pin_memory (f (from_numpy a))
          else f (from_numpy a))))
      /\ (forall k, ~ In k keys -> tdict_find d' k = tdict_find d k).
Proof.
  induction 1 as [|key keys Hnotin Hnodup IH]; intros d w Harr.
  - exists d. split; [reflexivity|]. split; [intros k a []|reflexivity].
  - destruct (Harr key (or_introl eq_refl)) as [a Ha].
    cbn [map pfor_each]. rewrite Ha.
    destruct (convert_entry_run d key a w) as [d1 [Hrun [Hsame Hother]]].
    rewrite (pbind_done _ _ w _ w Hrun).
    destruct (IH d1 w) as [d' [Hrun' [Hconv Hrest]]].
    + intros k Hk. destruct (Harr k (or_intror Hk)) as [b Hb].
      exists b. rewrite Hother; [exact Hb|].
      intros ->. contradiction.
    + exists d'. split; [exact Hrun'|]. split.
      * intros k b [<-|Hk] Hb.
        -- rewrite Hrest by exact Hnotin. rewrite Hsame.
           rewrite Ha in Hb. inversion Hb; subst. reflexivity.
        -- apply Hconv; [exact Hk|].
           rewrite Hother; [exact Hb|]. intros ->. contradiction.
      * intros k Hk. rewrite Hrest by (intros C; apply Hk; right; exact C).
        apply Hother. intros ->. apply Hk. left; reflexivity.
Qed.

End TensorFacts.

(** X19.  Given a list of distinct keys that all hold arrays, and a
    cast that pytorch knows, [NumpyToTensor.__call__] replaces each
    listed entry by the tensor made from its array, cast and pinned as
    configured, and leaves the other entries as they are. *)
Theorem tensor_conversion_of_listed_keys
        {torch : Torch} keys cast_to pin (f : tensor -> tensor)
        (d : tensor_dict) w :
  NoDup keys ->
  (forall t w, NumpyToTensor_cast (NumpyToTensor_init (KeysMany keys) cast_to pin)
                                  t w = Done (f t, w)) ->
  (forall k, In k keys -> exists a, tdict_find d k = Some (TArray a)) ->
  exists d',
    NumpyToTensor_call (NumpyToTensor_init (KeysMany keys) cast_to pin) d w
    = Done (d', w)
    /\ (forall k a, In k keys -> tdict_find d k = Some (TArray a) ->
                    tdict_find d' k
                    = Some (TTensor (if pin then pin_memory (f (from_numpy a))
                                     else f (from_numpy a))))
    /\ (forall k, ~ In k keys -> tdict_find d' k = tdict_find d k).
Proof.
  intros Hnd Hcast Harr.
  apply (convert_keys_run (NumpyToTensor_init (KeysMany keys) cast_to pin)
           f Hcast keys Hnd d w Harr).
Qed.

Lemma tensor_conversion_of_listed_keys_witness :
  exists d',
    NumpyToTensor_call (torch := stand_in_torch)
      (NumpyToTensor_init (KeysMany ["data"%string]) (Some "float"%string) true)
      [("data"%string, TArray one_peak_2d); ("name"%string, TNone)] world0
    = Done (d', world0)
    /\ (forall k a,
           In k ["data"%string] ->
           tdict_find (torch := stand_in_torch)
             [("data"%string, TArray one_peak_2d); ("name"%string, TNone)] k
           = Some (TArray a) ->
           tdict_find (torch := stand_in_torch) d' k
           = Some (TTensor (if true
                            then pin_memory (float (from_numpy a))
                            else float (from_numpy a))))
    /\ (forall k, ~ In k ["data"%string] ->
                  tdict_find (torch := stand_in_torch) d' k
                  = tdict_find (torch := stand_in_torch)
                      [("data"%string, TArray one_peak_2d);
                       ("name"%string, TNone)] k).
Proof.
  apply (tensor_conversion_of_listed_keys (torch := stand_in_torch)
           ["data"%string] (Some "float"%string) true float).
  - constructor; [intros [] | constructor].
  - intros t w. reflexivity.
  - intros k [<-|[]]. exists one_peak_2d. reflexivity.
Defined.

(** X20.  [NumpyToTensor.__call__] fails on the first listed key that
    it cannot convert: with a [KeyError] when the record has no such
    entry, with a [TypeError] when the entry is not an array (so also
    when a key is listed twice: the second visit finds a tensor), and
    with the [ValueError] of [cast] when [cast_to] is none of 'half',
    'float' and 'long'. *)
Theorem tensor_conversion_failures
        {torch : Torch} key keys cast_to pin (d : tensor_dict) w :
  let self := NumpyToTensor_init (KeysMany (key :: keys)) cast_to pin in
  (tdict_find d key = None ->
   NumpyToTensor_call self d w = Fails (KeyError (Some key)))
  /\ (forall v, tdict_find d key = Some v ->
                (forall a, v <> TArray a) ->
                NumpyToTensor_call self d w = Fails (Builtin TypeError))
  /\ (forall a c,
         tdict_find d key = Some (TArray a) -> cast_to = Some c ->
         c <> "half"%string -> c <> "float"%string -> c <> "long"%string ->
         NumpyToTensor_call self d w = Fails (Builtin (unknown_cast_error c)))
  /\ (forall a,
         tdict_find d key = Some (TArray a) -> cast_to = None ->
         NumpyToTensor_call
           (NumpyToTensor_init (KeysMany [key; key]) cast_to pin) d w
         = Fails (Builtin TypeError)).
Proof.
  cbv zeta. unfold NumpyToTensor_call, NumpyToTensor_init.
  cbn [nt_keys map pfor_each].
  split; [|split; [|split]].
  - intros H. unfold pbind. rewrite H. reflexivity.
  - intros v Hv Hna. unfold pbind. rewrite Hv.
    destruct v as [a|t|]; [exfalso; apply (Hna a); reflexivity | |]; reflexivity.
  - intros a c Ha Hc H1 H2 H3. subst cast_to. unfold pbind at 1. rewrite Ha.
    unfold convert_entry, NumpyToTensor_cast, pbind. cbn [nt_cast_to].
    rewrite (proj2 (String.eqb_neq _ _) H1), (proj2 (String.eqb_neq _ _) H2),
      (proj2 (String.eqb_neq _ _) H3). reflexivity.
  - intros a Ha Hc. subst cast_to. unfold pbind at 1. rewrite Ha.
    unfold convert_entry, NumpyToTensor_cast. cbn [nt_cast_to nt_pin_memory].
    unfold pbind at 1. unfold pret at 1.
    destruct pin; unfold pret at 1; unfold pbind at 1;
      rewrite ?tdict_find_set_same; reflexivity.
Qed.

Lemma tensor_conversion_failures_witness :
  NumpyToTensor_call (torch := stand_in_torch)
    (NumpyToTensor_init (KeysMany ["data"%string]) None false) [] world0
  = Fails (KeyError (Some "data"%string))
  /\ NumpyToTensor_call (torch := stand_in_torch)
       (NumpyToTensor_init (KeysMany ["data"%string]) (Some "double"%string)
                           false)
       [("data"%string, TArray one_peak_2d)] world0
     = Fails (Builtin (unknown_cast_error "double")).
Proof.
  split.
  - apply (proj1 (tensor_conversion_failures (torch := stand_in_torch)
                    "data"%string [] None false [] world0)).
    reflexivity.
  - apply (proj1 (proj2 (proj2 (tensor_conversion_failures
                                  (torch := stand_in_torch)
                                  "data"%string [] (Some "double"%string) false
                                  [("data"%string, TArray one_peak_2d)] world0)))
             one_peak_2d "double"%string);
      [reflexivity | reflexivity | discriminate | discriminate | discriminate].
Defined.
